(** * GHArchive parallel downloader: a shallow embedding of
      [download_archive.py] and the properties of its core.

    The embedding follows the Python source function by function:
    [DownloadStats] (the rolling tracker), [generate_urls],
    [download_file] and [download_archives].  Everything the program asks
    of the outside world (the clock, the HTTP server, the disk refusing an
    operation, the order in which the pool completes its tasks) is an
    explicit argument, so that every definition can be evaluated. *)

From Equations Require Import Equations.
From Stdlib Require Import ZArith QArith Lia List Ascii String.
From stdpp Require Import gmap strings list pretty.

#[local] Set Warnings "-clear-no-such-hyp".

Local Open Scope string_scope.
Local Open Scope list_scope.
Local Open Scope Z_scope.

(** ** Exceptions

    [download_file] distinguishes two classes in its handlers:
    [requests.exceptions.RequestException] (connection errors, timeouts,
    the [HTTPError] of [raise_for_status], errors while the body streams)
    and every other [Exception].  The string is [str(e)]. *)

Inductive exn : Type :=
  | RequestException (msg : string)
  | OtherException (msg : string).

(** ** Naive [datetime] values

    A naive [datetime] has no time zone, no daylight saving and no leap
    second: its comparison and its arithmetic with [timedelta] are those of
    the number of microseconds elapsed since [datetime.min], which is
    0001-01-01T00:00:00.  A [datetime] is modelled by that number; the
    calendar fields are read back from it with the proleptic Gregorian
    rules of the [datetime] module. *)

Module Datetime.

Definition datetime : Type := Z.

Definition us_per_second : Z := 1000000.
Definition us_per_minute : Z := 60 * us_per_second.
Definition us_per_hour : Z := 60 * us_per_minute.
Definition us_per_day : Z := 24 * us_per_hour.

Definition is_leap (y : Z) : bool :=
  (y mod 4 =? 0) && (negb (y mod 100 =? 0) || (y mod 400 =? 0)).

Definition days_before_year (y : Z) : Z :=
  let p := y - 1 in p * 365 + p / 4 - p / 100 + p / 400.

Definition days_in_month (y m : Z) : Z :=
  if m =? 2 then (if is_leap y then 29 else 28)
  else if (m =? 4) || (m =? 6) || (m =? 9) || (m =? 11) then 30
  else 31.

Fixpoint days_before_month_from (y : Z) (months : list Z) : Z :=
  match months with
  | [] => 0
  | m :: rest => days_in_month y m + days_before_month_from y rest
  end.

Definition days_before_month (y m : Z) : Z :=
  days_before_month_from y (map Z.of_nat (seq 1 (Z.to_nat (m - 1)))).

(** [date.toordinal]: 0001-01-01 is day 1. *)
Definition ymd2ord (y m d : Z) : Z :=
  days_before_year y + days_before_month y m + d.

(** [datetime(y, m, d, hh, mm, ss, us)]. *)
Definition make (y m d hh mm ss us : Z) : datetime :=
  (ymd2ord y m d - 1) * us_per_day
  + hh * us_per_hour + mm * us_per_minute + ss * us_per_second + us.

(** [datetime.max] is 9999-12-31T23:59:59.999999. *)
Definition max_value : datetime := make 9999 12 31 23 59 59 999999.

Definition valid (t : datetime) : Prop := 0 <= t <= max_value.

(** The fields. [ord2ymd] is the 400-year-cycle algorithm of the
    [datetime] module. *)
Definition toordinal (t : datetime) : Z := t / us_per_day + 1.

Definition ord2ymd (ord : Z) : Z * Z * Z :=
  let n := ord - 1 in
  let n400 := n / 146097 in
  let n := n mod 146097 in
  let n100 := n / 36524 in
  let n := n mod 36524 in
  let n4 := n / 1461 in
  let n := n mod 1461 in
  let n1 := n / 365 in
  let n := n mod 365 in
  let y := n400 * 400 + 1 + n100 * 100 + n4 * 4 + n1 in
  if (n1 =? 4) || (n100 =? 4) then (y - 1, 12, 31)
  else
    let leapyear := (n1 =? 3) && (negb (n4 =? 24) || (n100 =? 3)) in
    let month := Z.shiftr (n + 50) 5 in
    let preceding :=
      days_before_month 1 month
      + (if (2 <? month) && leapyear then 1 else 0) in
    if n <? preceding then
      let month' := month - 1 in
      let preceding' :=
        preceding
        - (days_in_month 1 month'
           + (if (month' =? 2) && leapyear then 1 else 0)) in
      (y, month', n - preceding' + 1)
    else (y, month, n - preceding + 1).

Definition year (t : datetime) : Z := (ord2ymd (toordinal t)).1.1.
Definition month (t : datetime) : Z := (ord2ymd (toordinal t)).1.2.
Definition day (t : datetime) : Z := (ord2ymd (toordinal t)).2.
Definition hour (t : datetime) : Z := (t mod us_per_day) / us_per_hour.
Definition minute (t : datetime) : Z := (t mod us_per_hour) / us_per_minute.
Definition second (t : datetime) : Z := (t mod us_per_minute) / us_per_second.
Definition microsecond (t : datetime) : Z := t mod us_per_second.

(** [dt.replace(minute=0, second=0, microsecond=0)]: the three fields
    below the hour are cleared, the date and the hour stay. *)
Definition replace_minute_second_microsecond_0 (t : datetime) : datetime :=
  t - (minute t * us_per_minute + second t * us_per_second + microsecond t).

(** [dt + timedelta(hours=1)]: raises [OverflowError] when the sum is
    past [datetime.max]. *)
Definition add_hour (t : datetime) : exn + datetime :=
  if decide (t + us_per_hour <= max_value) then inr (t + us_per_hour)
  else inl (OtherException "date value out of range").

(** Decimal rendering with leading zeros, as [%Y], [%m] and [%d] do. *)
Definition digit (d : Z) : string :=
  String (ascii_of_nat (48 + Z.to_nat (d mod 10))) "".
Definition pad2 (n : Z) : string := digit (n / 10) +:+ digit n.
Definition pad4 (n : Z) : string := pad2 (n / 100) +:+ pad2 n.

(** [dt.strftime('%Y-%m-%d')]. *)
Definition strftime_Ymd (t : datetime) : string :=
  pad4 (year t) +:+ "-" +:+ pad2 (month t) +:+ "-" +:+ pad2 (day t).

End Datetime.
Import Datetime.

(** ** [generate_urls] *)

Definition WorkItem : Type := string * datetime.

(** The f-string of the loop body: the hour is printed by the default
    integer formatting, without zero padding. *)
Definition archive_url (current : datetime) : string :=
  "https://data.gharchive.org/" +:+ strftime_Ymd current +:+ "-"
  +:+ pretty (hour current) +:+ ".json.gz".

(** Keeps the equation between a scrutinee and its value, for the
    termination proof below. *)
Definition inspect {A} (a : A) : {b | a = b} := exist _ a eq_refl.

(** The [while current <= end_dt] loop, with its accumulator [urls];
    [current += timedelta(hours=1)] is [add_hour]. *)
Equations? generate_urls_loop (end_dt current : datetime) (urls : list WorkItem)
  : exn + list WorkItem
  by wf (Z.to_nat ((end_dt - current) / us_per_hour + 1)) lt :=
generate_urls_loop end_dt current urls with decide (current <= end_dt) => {
  | right _ => inr urls
  | left _ with inspect (add_hour current) => {
      | exist _ (inl e) _ => inl e
      | exist _ (inr next) _ =>
          generate_urls_loop end_dt next
            (urls ++ [(archive_url current, current)]) } }.
Proof.
  unfold add_hour in *. destruct (decide _); [| done].
  match goal with H : inr _ = inr _ |- _ => injection H as <- end.
  replace (end_dt - (current + us_per_hour))
    with ((end_dt - current) + (-1) * us_per_hour) by lia.
  rewrite Z.div_add by done.
  assert (0 <= (end_dt - current) / us_per_hour) by (apply Z.div_pos; [lia | done]).
  lia.
Qed.

Definition generate_urls (start_dt end_dt : datetime) : exn + list WorkItem :=
  generate_urls_loop end_dt (replace_minute_second_microsecond_0 start_dt) [].

(** ** URLs and paths: [urlparse(url).path], [os.path.basename],
       [os.path.join] *)

Module Path.

Definition is_char (c : ascii) : ascii → bool := λ x, bool_decide (x = c).

(** The prefix of [s] before the first character that satisfies [stop]. *)
Fixpoint before (stop : ascii → bool) (s : string) : string :=
  match s with
  | EmptyString => EmptyString
  | String c rest => if stop c then EmptyString else String c (before stop rest)
  end.

(** The suffix of [s] from the first character that satisfies [stop]. *)
Fixpoint from (stop : ascii → bool) (s : string) : string :=
  match s with
  | EmptyString => EmptyString
  | String c rest => if stop c then s else from stop rest
  end.

Fixpoint contains (c : ascii) (s : string) : bool :=
  match s with
  | EmptyString => false
  | String x rest => bool_decide (x = c) || contains c rest
  end.

Fixpoint all_chars (ok : ascii → bool) (s : string) : bool :=
  match s with
  | EmptyString => true
  | String x rest => ok x && all_chars ok rest
  end.

Definition tail (s : string) : string :=
  match s with EmptyString => EmptyString | String _ rest => rest end.

Definition is_alpha (c : ascii) : bool :=
  let n := nat_of_ascii c in
  ((65 <=? n) && (n <=? 90) || (97 <=? n) && (n <=? 122))%nat.

Definition is_scheme_char (c : ascii) : bool :=
  let n := nat_of_ascii c in
  (is_alpha c || (48 <=? n) && (n <=? 57)
   || bool_decide (c = "+"%char) || bool_decide (c = "-"%char)
   || bool_decide (c = "."%char))%nat.

Definition to_lower (c : ascii) : ascii :=
  let n := nat_of_ascii c in
  if ((65 <=? n) && (n <=? 90))%nat then ascii_of_nat (n + 32) else c.

Fixpoint lower (s : string) : string :=
  match s with
  | EmptyString => EmptyString
  | String c rest => String (to_lower c) (lower rest)
  end.

(** The scheme and the rest of a URL, as [urlsplit] separates them. *)
Definition split_scheme (url : string) : string * string :=
  let head := before (is_char ":") url in
  match url with
  | String c _ =>
      if contains ":" url && negb (bool_decide (head = ""))
         && is_alpha c && all_chars is_scheme_char head
      then (lower head, tail (from (is_char ":") url))
      else ("", url)
  | EmptyString => ("", url)
  end.

Definition starts_with (c : ascii) (s : string) : bool :=
  match s with String x _ => bool_decide (x = c) | EmptyString => false end.

(** Drops [//netloc], which ends at the first [/], [?] or [#]. *)
Definition drop_netloc (rest : string) : string :=
  if starts_with "/" rest && starts_with "/" (tail rest)
  then from (λ c, is_char "/" c || is_char "?" c || is_char "#" c)
         (tail (tail rest))
  else rest.

Definition uses_params : list string :=
  [""; "ftp"; "hdl"; "prospero"; "http"; "imap"; "https"; "shttp"; "rtsp";
   "rtspu"; "sip"; "sips"; "mms"; "sftp"; "tel"].

(** [os.path.basename]: what follows the last slash. *)
Definition basename (p : string) : string :=
  String.rev (before (is_char "/") (String.rev p)).

(** [urlparse(url).path]: scheme, network location, fragment, query and
    the parameters of the last segment removed (for URLs free of control
    characters and bracketed hosts, which [urlparse] treats apart). *)
Definition urlparse_path (url : string) : string :=
  let '(scheme, rest) := split_scheme url in
  let rest := drop_netloc rest in
  let rest := before (is_char "#") rest in
  let rest := before (is_char "?") rest in
  if bool_decide (scheme ∈ uses_params) && contains ";" rest then
    let last := basename rest in
    String.rev (from (is_char "/") (String.rev rest))
      +:+ before (is_char ";") last
  else rest.

(** [os.path.join(a, b)] on POSIX. *)
Definition join (a b : string) : string :=
  if starts_with "/" b then b
  else if bool_decide (a = "") || starts_with "/" (String.rev a) then a +:+ b
  else a +:+ "/" +:+ b.

End Path.

(** ** The rolling statistics tracker, [class DownloadStats]

    Timestamps are the readings of [time.time()] and speeds are their
    quotients; both are floats in Python and rationals here.  The lock makes
    each method body atomic, so a method is a function on the record. *)

Record DownloadStats : Type := mkStats {
  bytes_downloaded : Z;
  start_time : Q;
  recent_bytes : list Z;
  recent_times : list Q
}.

(** [deque(maxlen=n).append(x)]: the oldest entry leaves when full. *)
Definition deque_append {A} (maxlen : nat) (d : list A) (x : A) : list A :=
  drop (length (d ++ [x]) - maxlen) (d ++ [x]).

Module Stats.

(** [__init__]; [now] is the reading of [time.time()]. *)
Definition init (now : Q) : DownloadStats :=
  {| bytes_downloaded := 0; start_time := now;
     recent_bytes := []; recent_times := [] |}.

Definition add_bytes (bytes_count : Z) (current_time : Q) (st : DownloadStats)
  : DownloadStats :=
  {| bytes_downloaded := bytes_downloaded st + bytes_count;
     start_time := start_time st;
     recent_bytes := deque_append 10 (recent_bytes st) bytes_count;
     recent_times := deque_append 10 (recent_times st) current_time |}.

Definition sum (l : list Z) : Z := foldr Z.add 0 l.

Definition MiB : Q := inject_Z (1024 * 1024).

Definition get_speed (st : DownloadStats) : Q :=
  if (length (recent_times st) <? 2)%nat then 0%Q
  else
    let total_bytes := sum (recent_bytes st) in
    let time_span := (List.last (recent_times st) 0 - hd 0 (recent_times st))%Q in
    if Qlt_le_dec 0 time_span then (inject_Z total_bytes / time_span / MiB)%Q
    else 0%Q.

Definition get_total_downloaded (st : DownloadStats) : Q :=
  (inject_Z (bytes_downloaded st) / MiB)%Q.

End Stats.

(** ** The world of one fetch: disk, tracker, and what was asked of the
       network and of the clock *)

Definition chunk : Type := list Byte.byte.

Record filesystem : Type := mkFs {
  dirs : gset string;
  files : gmap string (list Byte.byte)
}.

(** [os.path.exists]. *)
Definition path_exists (p : string) (d : filesystem) : bool :=
  bool_decide (p ∈ dirs d) || bool_decide (is_Some (files d !! p)).

Inductive event : Type :=
  | Request (url : string)       (* [requests.get(url, stream=True, timeout=30)] *)
  | Sleep (seconds : Z).         (* [time.sleep(seconds)] *)

Record world : Type := mkWorld {
  fs : filesystem;
  stats : DownloadStats;
  log : list event
}.

(** What the outside does during one pass through the [try] block: for each
    call that can raise, the exception it raises, if any.  [iter_content]
    lists the chunks that arrive and are written, each with the clock
    reading taken by [add_bytes]; [iter_end] is what ends the [with] block
    after them: nothing (the body is complete) or an exception raised by the
    iterator, by [f.write] or by closing the file. *)
Record attempt_env : Type := mkAttempt {
  requests_get : option exn;
  raise_for_status : option exn;
  makedirs : option exn;
  content_length : option exn;
  open_wb : option exn;
  iter_content : list (chunk * Q);
  iter_end : option exn
}.

(** ** A state-and-exception monad for the [try] block *)

Definition M (A : Type) : Type := world → (exn + A) * world.

#[global] Instance M_ret : MRet M := λ A a w, (inr a, w).
#[global] Instance M_bind : MBind M := λ A B k m w,
  match m w with
  | (inl e, w') => (inl e, w')
  | (inr a, w') => k a w'
  end.

Definition may_raise (o : option exn) : M unit :=
  λ w, match o with Some e => (inl e, w) | None => (inr (), w) end.

Definition emit (e : event) : M unit :=
  λ w, (inr (), {| fs := fs w; stats := stats w; log := log w ++ [e] |}).

Definition update_fs (f : filesystem → filesystem) : M unit :=
  λ w, (inr (), {| fs := f (fs w); stats := stats w; log := log w |}).

Definition update_stats (f : DownloadStats → DownloadStats) : M unit :=
  λ w, (inr (), {| fs := fs w; stats := f (stats w); log := log w |}).

(** The directories [os.makedirs(path, exist_ok=True)] leaves in place:
    [path] and each of its ancestors. *)
Fixpoint prefixes_at_slash (seen rest : string) : list string :=
  match rest with
  | EmptyString => [seen]
  | String c r =>
      (if bool_decide (c = "/"%char) then [seen] else [])
      ++ prefixes_at_slash (seen +:+ String c EmptyString) r
  end.

Definition ancestors (path : string) : list string :=
  filter (λ p, p ≠ "") (prefixes_at_slash "" path).

Definition http_get (url : string) (a : attempt_env) : M unit :=
  _ ← emit (Request url); may_raise (requests_get a).

Definition os_makedirs (path : string) (a : attempt_env) : M unit :=
  _ ← may_raise (makedirs a);
  update_fs (λ d, {| dirs := dirs d ∪ list_to_set (ancestors path);
                     files := files d |}).

(** [open(filepath, 'wb')] creates the file or truncates it. *)
Definition open_file (filepath : string) (a : attempt_env) : M unit :=
  _ ← may_raise (open_wb a);
  update_fs (λ d, {| dirs := dirs d; files := <[filepath := []]> (files d) |}).

Definition f_write (filepath : string) (data : chunk) : M unit :=
  update_fs (λ d, {| dirs := dirs d;
                     files := alter (λ old, old ++ data) filepath (files d) |}).

(** The [for chunk in response.iter_content(...)] loop. *)
Fixpoint write_chunks (filepath : string) (chunks : list (chunk * Q))
    (downloaded_size : Z) : M Z :=
  match chunks with
  | [] => mret downloaded_size
  | (data, now) :: rest =>
      match data with
      | [] => write_chunks filepath rest downloaded_size
      | _ :: _ =>
          _ ← f_write filepath data;
          let chunk_size := Z.of_nat (length data) in
          _ ← update_stats (Stats.add_bytes chunk_size now);
          write_chunks filepath rest (downloaded_size + chunk_size)
      end
  end.

(** ** [download_file] *)

(** The tuple [(url, success, message, size)]. *)
Definition DownloadResult : Type := string * bool * string * Z.

Definition result_url (r : DownloadResult) : string := r.1.1.1.
Definition result_success (r : DownloadResult) : bool := r.1.1.2.
Definition result_message (r : DownloadResult) : string := r.1.2.
Definition result_size (r : DownloadResult) : Z := r.2.

(** [range(n)]. *)
Definition range (n : Z) : list Z := map Z.of_nat (seq 0 (Z.to_nat n)).

Definition sleep (seconds : Z) (w : world) : world :=
  {| fs := fs w; stats := stats w; log := log w ++ [Sleep seconds] |}.

Section download_file.

Variables (url output_path : string) (max_retries : Z).
Variable net : Z → attempt_env.

Definition filename : string := Path.basename (Path.urlparse_path url).
Definition filepath : string := Path.join output_path filename.

Definition msg_exists : string := "Already exists: " +:+ filename.
Definition msg_downloaded : string := "Downloaded: " +:+ filename.
Definition msg_failed (e : string) : string :=
  "Failed after " +:+ pretty max_retries +:+ " attempts: " +:+ filename
  +:+ " - " +:+ e.
Definition msg_error (e : string) : string :=
  "Error downloading " +:+ filename +:+ ": " +:+ e.

(** The body of the [try] statement for one attempt. *)
Definition try_body (a : attempt_env) : M DownloadResult :=
  _ ← http_get url a;
  _ ← may_raise (raise_for_status a);
  _ ← os_makedirs output_path a;
  _ ← may_raise (content_length a);
  _ ← open_file filepath a;
  downloaded_size ← write_chunks filepath (iter_content a) 0;
  _ ← may_raise (iter_end a);
  mret (url, true, msg_downloaded, downloaded_size).

(** The [for attempt in range(max_retries)] loop with its two handlers.
    [None] is what Python returns when the loop ends without a [return]. *)
Fixpoint retry_loop (attempts : list Z) (w : world)
  : option DownloadResult * world :=
  match attempts with
  | [] => (None, w)
  | attempt :: rest =>
      match try_body (net attempt) w with
      | (inr result, w') => (Some result, w')
      | (inl (RequestException e), w') =>
          if attempt =? max_retries - 1
          then (Some (url, false, msg_failed e, 0), w')
          else retry_loop rest (sleep (2 ^ attempt) w')
      | (inl (OtherException e), w') =>
          (Some (url, false, msg_error e, 0), w')
      end
  end.

Definition download_file (w : world) : option DownloadResult * world :=
  if path_exists filepath (fs w)
  then (Some (url, true, msg_exists, 0), w)
  else retry_loop (range max_retries) w.

End download_file.

(** ** [download_archives]

    The pool runs one [download_file] per URL, each with the default
    [max_retries = 3].  Each task works on a file path of its own and meets
    the others only in the tracker, whose methods hold the lock, so a run of
    the pool is modelled by the order in which its tasks complete: [order]
    names the tasks that complete first, the others follow in submission
    order.  [net i] is the outside as task [i] meets it.  The thread that
    refreshes the progress bar only reads the tracker and is left out; what
    the function prints at the end is returned as a [Summary]. *)

Record Summary : Type := mkSummary {
  successful : Z;
  failed : Z;
  total : Z;
  total_downloaded : Q;
  total_time : Q;
  avg_speed : Q;
  failure_messages : list string        (* the lines of [tqdm.write] *)
}.

Definition completion_order (order : list nat) (n : nat) : list nat :=
  let first := remove_dups (filter (λ i, i < n)%nat order) in
  first ++ filter (λ i, i ∉ first) (seq 0 n).

Fixpoint run_tasks (urls : list string) (output_path : string)
    (net : nat → Z → attempt_env) (done_order : list nat) (w : world)
  : list (option DownloadResult) * world :=
  match done_order with
  | [] => ([], w)
  | i :: rest =>
      match urls !! i with
      | None => run_tasks urls output_path net rest w
      | Some url =>
          let '(r, w1) := download_file url output_path 3 (net i) w in
          let '(rs, w2) := run_tasks urls output_path net rest w1 in
          (r :: rs, w2)
      end
  end.

(** The [for future in as_completed(...)] loop; unpacking a [None] result
    raises [TypeError]. *)
Fixpoint tally (results : list (option DownloadResult))
    (successful failed : Z) (written : list string)
  : exn + (Z * Z * list string) :=
  match results with
  | [] => inr (successful, failed, written)
  | None :: _ => inl (OtherException "cannot unpack non-iterable NoneType object")
  | Some (_, success, message, _) :: rest =>
      if success then tally rest (successful + 1) failed written
      else tally rest successful (failed + 1) (written ++ [message])
  end.

Definition download_archives (start_dt end_dt : datetime) (output_path : string)
    (max_workers : Z) (order : list nat) (net : nat → Z → attempt_env)
    (t_start t_end : Q) (w : world) : (exn + option Summary) * world :=
  match generate_urls start_dt end_dt with
  | inl e => (inl e, w)
  | inr [] => (inr None, w)
  | inr urls =>
      let w0 := {| fs := fs w; stats := Stats.init t_start; log := log w |} in
      if max_workers <=? 0
      then (inl (OtherException "max_workers must be greater than 0"), w0)
      else
        let '(results, w1) :=
          run_tasks (map fst urls) output_path net
            (completion_order order (length urls)) w0 in
        match tally results 0 0 [] with
        | inl e => (inl e, w1)
        | inr (successful, failed, written) =>
            let total_downloaded := Stats.get_total_downloaded (stats w1) in
            let total_time := (t_end - start_time (stats w1))%Q in
            let avg_speed :=
              if Qlt_le_dec 0 total_time
              then (total_downloaded / total_time)%Q else 0%Q in
            (inr (Some {| successful := successful; failed := failed;
                          total := Z.of_nat (length urls);
                          total_downloaded := total_downloaded;
                          total_time := total_time;
                          avg_speed := avg_speed;
                          failure_messages := written |}), w1)
        end
  end.

(** The results the futures of a run hold, in completion order. *)
Definition pool_results (start_dt end_dt : datetime) (output_path : string)
    (order : list nat) (net : nat → Z → attempt_env) (t_start : Q) (w : world)
  : list (option DownloadResult) :=
  match generate_urls start_dt end_dt with
  | inl _ => []
  | inr urls =>
      (run_tasks (map fst urls) output_path net
         (completion_order order (length urls))
         {| fs := fs w; stats := Stats.init t_start; log := log w |}).1
  end.

(** ** [format_size]

    A float is the rational it denotes, so [size_in_mib] is a rational (the
    value [get_total_downloaded] returns is exact below 2^53 bytes, and the
    division by 1024 is exact).  [format_1f] is the format specification
    [.1f]: the value rounded to one decimal, ties to the even digit, with the
    sign of the value kept even when the digits round to zero. *)

Definition round_half_even (q : Q) : Z :=
  let n := Qnum q in
  let d := Z.pos (Qden q) in
  let f := n / d in
  match 2 * (n mod d) ?= d with
  | Lt => f
  | Gt => f + 1
  | Eq => if Z.even f then f else f + 1
  end.

Definition format_1f (x : Q) : string :=
  let negative := Qlt_le_dec x 0 in
  let tenths := round_half_even ((if negative then - x else x) * 10) in
  (if negative then "-" else "")
  +:+ pretty (tenths / 10) +:+ "." +:+ pretty (tenths mod 10).

Definition format_size (size_in_mib : Q) : string :=
  if Qlt_le_dec size_in_mib 1024
  then format_1f size_in_mib +:+ " MiB"
  else format_1f (size_in_mib / 1024) +:+ " GiB".

(** ** [parse_datetime]

    [datetime.strptime] as the module [_strptime] implements it.  The format
    becomes a regular expression: one named group per directive, [\s+] for
    each run of white space, every other character for itself, compiled with
    [IGNORECASE].  The data must match from its start, the match must reach
    its end, and the groups are converted with [int] and handed to
    [datetime(...)], which checks the ranges.  [re] is a backtracking engine:
    [matches] lists the ways an expression can match a prefix, in the order
    the engine tries them, and the match it reports is the first.  Strings
    are ASCII.  Only the directives of this program's formats are given;
    [None] is [ValueError]. *)
Module Strptime.

Inductive regex : Type :=
| Class (p : ascii → bool)
| Seq (r1 r2 : regex)
| Alt (r1 r2 : regex).

Definition between (lo hi : ascii) (c : ascii) : bool :=
  ((nat_of_ascii lo <=? nat_of_ascii c)
   && (nat_of_ascii c <=? nat_of_ascii hi))%nat.

(** [\d] and [\s]. *)
Definition is_digit : ascii → bool := between "0" "9".
Definition is_space (c : ascii) : bool :=
  let n := nat_of_ascii c in
  ((9 <=? n) && (n <=? 13) || (28 <=? n) && (n <=? 32))%nat.

Definition char (c : ascii) : regex := Class (Path.is_char c).
Definition range (lo hi : ascii) : regex := Class (between lo hi).
Definition digit : regex := Class is_digit.

(** The ways [r] matches a prefix of [s]: the text matched and the rest. *)
Fixpoint matches (r : regex) (s : string) : list (string * string) :=
  match r with
  | Class p =>
      match s with
      | String c rest => if p c then [(String c "", rest)] else []
      | EmptyString => []
      end
  | Seq r1 r2 =>
      '(x1, s1) ← matches r1 s;
      '(x2, s2) ← matches r2 s1;
      [(x1 +:+ x2, s2)]
  | Alt r1 r2 => matches r1 s ++ matches r2 s
  end.

(** [\s+], greedy: the longest run first. *)
Fixpoint spaces (s : string) : list (string * string) :=
  match s with
  | String c rest =>
      if is_space c
      then ((λ '(x, r), (String c x, r)) <$> spaces rest) ++ [(String c "", rest)]
      else []
  | EmptyString => []
  end.

(** The expressions of [TimeRE.__init__]. *)
Definition directive (d : ascii) : option regex :=
  if Ascii.eqb d "Y" then Some (Seq digit (Seq digit (Seq digit digit)))
  else if Ascii.eqb d "m" then
    Some (Alt (Seq (char "1") (range "0" "2"))
         (Alt (Seq (char "0") (range "1" "9"))
              (range "1" "9")))
  else if Ascii.eqb d "d" then
    Some (Alt (Seq (char "3") (range "0" "1"))
         (Alt (Seq (range "1" "2") digit)
         (Alt (Seq (char "0") (range "1" "9"))
         (Alt (range "1" "9")
              (Seq (char " ") (range "1" "9"))))))
  else if Ascii.eqb d "H" then
    Some (Alt (Seq (char "2") (range "0" "3"))
         (Alt (Seq (range "0" "1") digit)
              digit))
  else if Ascii.eqb d "M" then
    Some (Alt (Seq (range "0" "5") digit) digit)
  else if Ascii.eqb d "S" then
    Some (Alt (Seq (char "6") (range "0" "1"))
         (Alt (Seq (range "0" "5") digit)
              digit))
  else None.

Inductive item : Type :=
| Directive (d : ascii)
| Space
| Literal (c : ascii).

(** [TimeRE.pattern]: the items of a format; a [%] with nothing after it is
    an error. *)
Fixpoint pattern (format : string) : option (list item) :=
  match format with
  | EmptyString => Some []
  | String c rest =>
      if Ascii.eqb c "%" then
        match rest with
        | String d rest' => (Directive d ::.) <$> pattern rest'
        | EmptyString => None
        end
      else if is_space c then
        items ← pattern rest;
        Some (match items with Space :: _ => items | _ => Space :: items end)
      else (Literal c ::.) <$> pattern rest
  end.

(** The ways the items match a prefix of [s]: the groups found, in the
    order of the format, and the rest. *)
Fixpoint match_items (items : list item) (s : string)
  : list (list (ascii * string) * string) :=
  match items with
  | [] => [([], s)]
  | Directive d :: items' =>
      match directive d with
      | None => []
      | Some r =>
          '(x, s1) ← matches r s;
          '(found, s2) ← match_items items' s1;
          [((d, x) :: found, s2)]
      end
  | Space :: items' =>
      '(_, s1) ← spaces s; match_items items' s1
  | Literal c :: items' =>
      '(_, s1) ← matches (Class (λ x, Ascii.eqb (Path.to_lower x) (Path.to_lower c))) s;
      match_items items' s1
  end.

(** [int] of a group: the decimal digits, white space skipped. *)
Fixpoint int_from (acc : Z) (s : string) : Z :=
  match s with
  | EmptyString => acc
  | String c rest =>
      int_from (if is_digit c then 10 * acc + (Z.of_nat (nat_of_ascii c) - 48)
                else acc) rest
  end.
Definition int : string → Z := int_from 0.

Fixpoint group (d : ascii) (default : Z) (found : list (ascii * string)) : Z :=
  match found with
  | [] => default
  | (d', x) :: rest => if Ascii.eqb d' d then int x else group d default rest
  end.

(** [datetime(year, month, day, hour, minute, second)]. *)
Definition new (year month day hour minute second : Z) : option datetime :=
  if decide (1 <= year <= 9999 ∧ 1 <= month <= 12
             ∧ 1 <= day <= days_in_month year month
             ∧ 0 <= hour <= 23 ∧ 0 <= minute <= 59 ∧ 0 <= second <= 59)
  then Some (make year month day hour minute second 0)
  else None.

Definition strptime (data_string format : string) : option datetime :=
  items ← pattern format;
  '(found, rest) ← head (match_items items data_string);
  if decide (rest = "")
  then new (group "Y" 1900 found) (group "m" 1 found) (group "d" 1 found)
           (group "H" 0 found) (group "M" 0 found) (group "S" 0 found)
  else None.

End Strptime.

Definition formats : list string :=
  [ "%Y-%m-%d %H:%M:%S";
    "%Y-%m-%d %H";
    "%Y-%m-%d";
    "%Y-%m-%dT%H:%M:%S";
    "%Y-%m-%dT%H" ].

(** The loop over the formats; [inl] is the message of the [ValueError]
    raised when no format fits. *)
Fixpoint parse_datetime_loop (formats : list string) (dt_string : string)
  : string + datetime :=
  match formats with
  | [] => inl ("Unable to parse datetime: " +:+ dt_string)
  | fmt :: rest =>
      match Strptime.strptime dt_string fmt with
      | Some t => inr t
      | None => parse_datetime_loop rest dt_string
      end
  end.

Definition parse_datetime (dt_string : string) : string + datetime :=
  parse_datetime_loop formats dt_string.

(** ** [main]

    The arguments are those [argparse] has read: the two texts, the output
    directory and the number of workers.  [main] either returns, with what
    [download_archives] reported, or prints one line and exits with status
    1: [inl] is that line.

    [exn] keeps the text of an exception and not its class.  The exceptions
    that [download_archives] lets through are those of its own statements:
    the [OverflowError] of [generate_urls], the [ValueError] of
    [ThreadPoolExecutor] and the [TypeError] of unpacking a result; the
    [ValueError] is told from the others by its text.

    [interrupt] is the [KeyboardInterrupt] of the user.  It is [None] when
    there is none, and [Some k] when the user interrupts the program while
    the pool is open, at the moment [k] tasks have been submitted (all of
    them when [k] is not below their number); a call that ends before the
    pool is made is not interrupted.  The exception is raised in the main
    thread and leaves the [with] block of the pool, whose exit waits for the
    tasks already submitted: these run to their end, the others are never
    submitted.  Then the exception reaches the handler of [main], past the
    final statistics.  An interrupt outside the pool block and a second
    interrupt are left out. *)
Definition str_exn (e : exn) : string :=
  match e with RequestException msg | OtherException msg => msg end.

Definition is_ValueError (e : exn) : bool :=
  match e with
  | OtherException msg => String.eqb msg "max_workers must be greater than 0"
  | RequestException _ => false
  end.

(** The world [download_archives] leaves when it is interrupted with [k]
    tasks submitted; [None] when the pool is not reached. *)
Definition download_archives_interrupted (start_dt end_dt : datetime)
    (output_path : string) (max_workers : Z) (order : list nat)
    (net : nat → Z → attempt_env) (t_start : Q) (w : world) (k : nat)
  : option world :=
  match generate_urls start_dt end_dt with
  | inl _ => None
  | inr [] => None
  | inr urls =>
      let w0 := {| fs := fs w; stats := Stats.init t_start; log := log w |} in
      if max_workers <=? 0 then None
      else
        let submitted := take k (map fst urls) in
        Some (run_tasks submitted output_path net
                (completion_order order (length submitted)) w0).2
  end.

(** [print("\nDownload interrupted by user")]. *)
Definition interrupted_line : string :=
  String "010" "Download interrupted by user".

Definition main (start end_ output : string) (workers : Z)
    (order : list nat) (net : nat → Z → attempt_env) (t_start t_end : Q)
    (interrupt : option nat) (w : world)
  : (string + option Summary) * world :=
  match parse_datetime start with
  | inl msg => (inl ("Error: " +:+ msg), w)
  | inr start_dt =>
      match parse_datetime end_ with
      | inl msg => (inl ("Error: " +:+ msg), w)
      | inr end_dt =>
          if decide (end_dt < start_dt)
          then (inl "Error: Start datetime must be before end datetime", w)
          else
            match interrupt
                  ≫= download_archives_interrupted start_dt end_dt output
                       workers order net t_start w with
            | Some w' => (inl interrupted_line, w')
            | None =>
                match download_archives start_dt end_dt output workers order
                        net t_start t_end w with
                | (inr summary, w') => (inr summary, w')
                | (inl e, w') =>
                    (inl ((if is_ValueError e then "Error: "
                           else "Unexpected error: ") +:+ str_exn e), w')
                end
            end
      end
  end.

(** * Vocabulary of the statements *)

(** The hour buckets from [first] on. *)
Definition buckets (first : datetime) (n : nat) : list datetime :=
  map (λ i, first + Z.of_nat i * us_per_hour) (seq 0 n).

Definition work_item (b : datetime) : WorkItem := (archive_url b, b).

(** The first instant of the last hour [datetime] can hold. *)
Definition last_hour : datetime := make 9999 12 31 23 0 0 0.

Definition overflow_error : exn := OtherException "date value out of range".

(** The two ends of the tracker's window. *)
Definition newest (st : DownloadStats) : Q := List.last (recent_times st) 0%Q.
Definition oldest (st : DownloadStats) : Q := hd 0%Q (recent_times st).

(** The first exception among the outcomes of successive calls. *)
Fixpoint first_raised (outcomes : list (option exn)) : option exn :=
  match outcomes with
  | [] => None
  | Some e :: _ => Some e
  | None :: rest => first_raised rest
  end.

(** The exception that ends one pass through the [try] block, if any. *)
Definition attempt_raises (a : attempt_env) : option exn :=
  first_raised [requests_get a; raise_for_status a; makedirs a;
                content_length a; open_wb a; iter_end a].

(** The attempt ends in a [RequestException]. *)
Definition transport_error (a : attempt_env) : Prop :=
  ∃ e, attempt_raises a = Some (RequestException e).

(** The attempt ends in a [RequestException] before any response has passed
    [raise_for_status]. *)
Definition no_response (a : attempt_env) : Prop :=
  ∃ e, first_raised [requests_get a; raise_for_status a]
       = Some (RequestException e).

Definition chunk_bytes (chunks : list (chunk * Q)) : Z :=
  Stats.sum (map (λ c, Z.of_nat (length c.1)) chunks).

(** The bytes one attempt reports to the tracker: the body is read only once
    the file is open. *)
Definition attempt_bytes (a : attempt_env) : Z :=
  match first_raised [requests_get a; raise_for_status a; makedirs a;
                      content_length a; open_wb a] with
  | Some _ => 0
  | None => chunk_bytes (iter_content a)
  end.

(** The paths [os.path.exists] answers [True] for. *)
Definition paths (d : filesystem) : gset string := dirs d ∪ dom (files d).

(** The requests and sleeps of [n] attempts that are each retried. *)
Definition retries_log (url : string) (n : nat) : list event :=
  flat_map (λ i, [Request url; Sleep (2 ^ Z.of_nat i)]) (seq 0 n).

Definition sleeps (l : list event) : list Z :=
  omap (λ e, match e with Sleep s => Some s | Request _ => None end) l.

Definition requests (l : list event) : list string :=
  omap (λ e, match e with Request u => Some u | Sleep _ => None end) l.

(** Sample worlds and outsides. *)
Definition empty_fs : filesystem := {| dirs := ∅; files := ∅ |}.
Definition empty_world : world :=
  {| fs := empty_fs; stats := Stats.init 0; log := [] |}.
Definition ok_attempt (body : list (chunk * Q)) : attempt_env :=
  mkAttempt None None None None None body None.
Definition refused (e : exn) : attempt_env :=
  mkAttempt (Some e) None None None None [] None.
Definition broken_body (body : list (chunk * Q)) (e : exn) : attempt_env :=
  mkAttempt None None None None None body (Some e).
Definition sample_url : string :=
  "https://data.gharchive.org/2024-01-01-10.json.gz".
Definition sample_dir : string := "work/archives".

Definition world_with_file : world :=
  {| fs := {| dirs := ∅;
              files := {[ "work/archives/2024-01-01-10.json.gz" := [] ]} |};
     stats := Stats.init 0; log := [] |}.

Definition timed_out : exn := RequestException "Read timed out.".
Definition conn_refused : exn := RequestException "Connection refused".
Definition disk_full : exn :=
  OtherException "[Errno 28] No space left on device".

(** Two timeouts, then the body arrives. *)
Definition flaky_net (k : Z) : attempt_env :=
  if k <? 2 then refused timed_out
  else ok_attempt [([Byte.x1f; Byte.x8b], 7%Q)].

(** Every request times out. *)
Definition down_net (k : Z) : attempt_env := refused timed_out.

(** A reset connection, then a body whose second write fails. *)
Definition disk_full_net (k : Z) : attempt_env :=
  if k <? 1 then refused (RequestException "Connection reset")
  else broken_body [([Byte.x1f], 3%Q)] disk_full.

(** No attempt gets a response past the status check. *)
Definition unreachable_net (k : Z) : attempt_env :=
  if k =? 1
  then mkAttempt None (Some (RequestException "503 Server Error")) None None
         None [] None
  else refused (RequestException "Name or service not known").

(** Pools: every task served; every first attempt reset, then served; every
    connection refused; every disk write failing after one byte. *)
Definition served_pool (i : nat) (k : Z) : attempt_env :=
  ok_attempt [([Byte.x1f; Byte.x8b], 1%Q)].
Definition reset_once_pool (i : nat) (k : Z) : attempt_env :=
  if k =? 0 then refused (RequestException "Connection reset")
  else ok_attempt [([Byte.x1f; Byte.x8b], 1%Q); ([Byte.x08], 2%Q)].
Definition offline_pool (i : nat) (k : Z) : attempt_env := refused conn_refused.

Definition t10 : datetime := make 2024 1 1 10 0 0 0.
Definition t12_30 : datetime := make 2024 1 1 12 30 0 0.

(** Two samples, the clock set back between them; two samples in order. *)
Definition stats_clock_back : DownloadStats :=
  Stats.add_bytes 1048576 1 (Stats.add_bytes 1048576 2 (Stats.init 0)).
Definition stats_two_samples : DownloadStats :=
  Stats.add_bytes 1048576 3 (Stats.add_bytes 1048576 1 (Stats.init 0)).

(** Tallies over the results the futures hold. *)
Definition is_success (r : option DownloadResult) : bool :=
  match r with Some (_, true, _, _) => true | _ => false end.

Definition successes (rs : list (option DownloadResult)) : nat :=
  length (List.filter is_success rs).

Definition failures (rs : list (option DownloadResult)) : nat :=
  length (List.filter (λ r, negb (is_success r)) rs).

(** The sum of the [size] components. *)
Definition sizes (rs : list (option DownloadResult)) : Z :=
  Stats.sum (map (from_option result_size 0) rs).

(** The tuple of the existence short-circuit. *)
Definition skipped (url : string) : option DownloadResult :=
  Some (url, true, msg_exists url, 0).

(** The URLs of the tasks [l], in that order. *)
Definition task_urls (urls : list string) (l : list nat) : list string :=
  omap (λ i, urls !! i) l.

(** The tracker after a series of [add_bytes] calls, oldest first; each call
    is a byte count with the clock reading taken under the lock. *)
Definition record_all (calls : list (Z * Q)) (st : DownloadStats) : DownloadStats :=
  foldl (λ st c, Stats.add_bytes c.1 c.2 st) st calls.

(** Three samples, the clock set back before the last one. *)
Definition calls_clock_back : list (Z * Q) := [(5, 1%Q); (0, 4%Q); (7, 2%Q)].

(** The attempt gets as far as the chunk loop: nothing raises before the
    file is open. *)
Definition reaches_body (a : attempt_env) : Prop :=
  first_raised [requests_get a; raise_for_status a; makedirs a;
                content_length a; open_wb a] = None.

(** The bytes of the chunks of one attempt, in order. *)
Definition body_bytes (a : attempt_env) : list Byte.byte :=
  mjoin (iter_content a).*1.

(** The attempt ends the call: it raises something that is not retried. *)
Definition ends_in_failure (max_retries : Z) (k : Z) (a : attempt_env) : Prop :=
  (∃ e, attempt_raises a = Some (OtherException e))
  ∨ (k = max_retries - 1 ∧ ∃ e, attempt_raises a = Some (RequestException e)).

(** A body cut after three bytes by a full disk, and one cut by the peer. *)
Definition cut_by_disk_net (k : Z) : attempt_env :=
  broken_body [([Byte.x1f; Byte.x8b], 1%Q); ([], 2%Q); ([Byte.x08], 3%Q)] disk_full.
Definition cut_by_peer_net (k : Z) : attempt_env :=
  broken_body [([Byte.x1f], 1%Q)] (RequestException "Connection broken").

(** Checks of one 400-year cycle of the calendar, day by day. *)
Definition cycle_day_ok (r : Z) : bool :=
  let '(y, m, d) := ord2ymd (r + 1) in
  (1 <=? y) && (y <=? 400) && (1 <=? m) && (m <=? 12) && (1 <=? d)
  && (d <=? days_in_month y m) && (ymd2ord y m d =? r + 1).

Fixpoint cycle_days_ok (days : nat) (r : Z) : bool :=
  match days with
  | O => true
  | S days' => cycle_day_ok r && cycle_days_ok days' (r + 1)
  end.

(** The file name of the archive of the hour of [b]: date, hour without
    padding, extension. *)
Definition archive_name (b : datetime) : string :=
  strftime_Ymd b +:+ "-" +:+ pretty (hour b) +:+ ".json.gz".

(** Characters that [urlparse] and [os.path.basename] give no meaning to. *)
Definition plain_char (c : ascii) : bool :=
  negb (Path.is_char "/" c || Path.is_char "?" c || Path.is_char "#" c
        || Path.is_char ";" c).

(** What task [i] of a pool returns and how many bytes it records when it is
    the only one to run, from world [w]. *)
Definition alone_result (urls : list string) (output_path : string)
    (net : nat → Z → attempt_env) (w : world) (i : nat)
  : option (option DownloadResult) :=
  (λ u, (download_file u output_path 3 (net i) w).1) <$> urls !! i.

Definition alone_bytes (urls : list string) (output_path : string)
    (net : nat → Z → attempt_env) (w : world) (i : nat) : Z :=
  match urls !! i with
  | Some u =>
      bytes_downloaded (stats (download_file u output_path 3 (net i) w).2)
      - bytes_downloaded (stats w)
  | None => 0
  end.

(** The archive of 11 o'clock unreachable, the others served. *)
Definition eleven_down_pool (i : nat) (k : Z) : attempt_env :=
  if decide (i = 1%nat) then refused conn_refused
  else ok_attempt [([Byte.x1f], 1%Q)].

(** The text of [t] tenths followed by a unit: the digits before and after
    the decimal point. *)
Definition shown (t : Z) (unit : string) : string :=
  pretty (t / 10) +:+ "." +:+ pretty (t mod 10) +:+ unit.

(** [t] tenths is within half a tenth of [v]. *)
Definition nearest_tenth (t : Z) (v : Q) : Prop :=
  (inject_Z t / 10 - (1 # 20) <= v ∧ v <= inject_Z t / 10 + (1 # 20))%Q.

(** The renderings of a datetime that [parse_datetime] has a format for:
    [str(t)] and [t.isoformat()] of a datetime with no microseconds, and the
    shorter ones that stop at the hour or at the date. *)
Definition hms (t : datetime) : string :=
  pad2 (hour t) +:+ ":" +:+ pad2 (minute t) +:+ ":" +:+ pad2 (second t).
Definition str (t : datetime) : string := strftime_Ymd t +:+ " " +:+ hms t.
Definition isoformat (t : datetime) : string :=
  strftime_Ymd t +:+ "T" +:+ hms t.

(** The text starts with a decimal digit. *)
Definition digit_first (s : string) : bool :=
  match s with String c _ => Strptime.is_digit c | EmptyString => false end.

(** The directive's expression reads a two-digit rendering of a value of the
    range first, and otherwise only a shorter text that leaves a digit. *)
Definition reads_pad2 (r : Strptime.regex) (lo hi : Z) : Prop :=
  ∀ v rest, lo <= v <= hi →
    ∃ extra, Strptime.matches r (pad2 v +:+ rest) = (pad2 v, rest) :: extra
             ∧ Forall (λ xr, digit_first xr.2 = true) extra.

(** No text that starts with a digit matches the items. *)
Definition rejects_digit (items : list Strptime.item) : Prop :=
  ∀ s, digit_first s = true → Strptime.match_items items s = [].

(** The number of hourly archives from the hour of [start_dt] to the hour of
    [end_dt], both included. *)
Definition hours_covered (start_dt end_dt : datetime) : Z :=
  (replace_minute_second_microsecond_0 end_dt
   - replace_minute_second_microsecond_0 start_dt) / us_per_hour + 1.

(** How many times [u] occurs in [l]. *)
Definition occurrences (u : string) (l : list string) : nat :=
  length (filter (u =.) l).

(** * Properties *)

(** ** Calendar sanity *)

Example make_fields :
  let t := make 2024 2 29 23 59 58 123456 in
  (year t, month t, day t, hour t, minute t, second t, microsecond t)
  = (2024, 2, 29, 23, 59, 58, 123456).
Proof. reflexivity. Qed.

Example make_min_max :
  make 1 1 1 0 0 0 0 = 0
  ∧ (year max_value, month max_value, day max_value, hour max_value)
    = (9999, 12, 31, 23)
  ∧ toordinal max_value = 3652059.
Proof. repeat split; reflexivity. Qed.

Example archive_url_no_padding :
  archive_url (make 2024 1 1 9 0 0 0)
  = "https://data.gharchive.org/2024-01-01-9.json.gz".
Proof. reflexivity. Qed.

Example filename_of_url :
  filename sample_url = "2024-01-01-10.json.gz"
  ∧ filename "http://host:8080/a/b/c.gz?x=1/2#frag" = "c.gz"
  ∧ filename "https://host/dir/" = ""
  ∧ filepath sample_url "work/archives" = "work/archives/2024-01-01-10.json.gz"
  ∧ filepath sample_url "out/" = "out/2024-01-01-10.json.gz"
  ∧ filepath sample_url "" = "2024-01-01-10.json.gz".
Proof. repeat split; reflexivity. Qed.

Example ancestors_of_default_directory :
  ancestors "work/archives" = ["work"; "work/archives"]
  ∧ ancestors "/data/gh/2024" = ["/data"; "/data/gh"; "/data/gh/2024"].
Proof. split; reflexivity. Qed.

(** Clearing the fields below the hour is rounding down to the hour. *)
Lemma replace_is_floor t :
  replace_minute_second_microsecond_0 t = t - t mod us_per_hour.
Proof.
  unfold replace_minute_second_microsecond_0, minute, second, microsecond.
  unfold us_per_hour, us_per_minute, us_per_second.
  Z.div_mod_to_equations. lia.
Qed.

(** ** [generate_urls] *)

Lemma buckets_S first n :
  buckets first (S n) = first :: buckets (first + us_per_hour) n.
Proof.
  unfold buckets. cbn [seq map]. f_equal; [lia |].
  rewrite <- seq_shift, map_map. apply map_ext. intros i. lia.
Qed.

(** One turn of the loop. *)
Lemma generate_urls_loop_eq end_dt current urls :
  generate_urls_loop end_dt current urls
  = if decide (current <= end_dt) then
      match add_hour current with
      | inl e => inl e
      | inr next =>
          generate_urls_loop end_dt next
            (urls ++ [(archive_url current, current)])
      end
    else inr urls.
Proof.
  funelim (generate_urls_loop end_dt current urls);
    repeat match goal with
      | H : decide _ = _ |- _ => rewrite H
      | H : add_hour _ = _ |- _ => rewrite H
      end; reflexivity.
Qed.

Lemma add_hour_ok t :
  t + us_per_hour <= max_value → add_hour t = inr (t + us_per_hour).
Proof. intros Ht. unfold add_hour. by rewrite decide_True. Qed.

Lemma add_hour_overflow t :
  max_value < t + us_per_hour → add_hour t = inl overflow_error.
Proof. intros Ht. unfold add_hour. by rewrite decide_False by lia. Qed.

Lemma generate_urls_loop_returns n : ∀ end_dt current urls,
  end_dt < current + Z.of_nat n * us_per_hour →
  (n ≠ 0%nat → current + (Z.of_nat n - 1) * us_per_hour <= end_dt) →
  (n ≠ 0%nat → current + Z.of_nat n * us_per_hour <= max_value) →
  generate_urls_loop end_dt current urls
  = inr (urls ++ map work_item (buckets current n)).
Proof.
  induction n as [|n IH]; intros end_dt current urls Hlt Hge Hmax;
    rewrite generate_urls_loop_eq.
  - rewrite decide_False by lia. cbn. by rewrite app_nil_r.
  - assert (0 < us_per_hour) by done.
    specialize (Hge ltac:(done)). specialize (Hmax ltac:(done)).
    rewrite decide_True, add_hour_ok by nia.
    rewrite IH; [| lia | intros; lia | intros; lia].
    rewrite buckets_S. cbn [map]. by rewrite <- app_assoc.
Qed.

Lemma generate_urls_loop_raises n : ∀ end_dt current urls,
  current + Z.of_nat n * us_per_hour <= end_dt →
  current + Z.of_nat n * us_per_hour <= max_value →
  max_value < current + (Z.of_nat n + 1) * us_per_hour →
  generate_urls_loop end_dt current urls = inl overflow_error.
Proof.
  induction n as [|n IH]; intros end_dt current urls Hle Hmax Hover;
    rewrite generate_urls_loop_eq.
  - rewrite decide_True by lia. by rewrite add_hour_overflow by lia.
  - assert (0 < us_per_hour) by done.
    rewrite decide_True, add_hour_ok by nia. apply IH; lia.
Qed.

(** Away from the last hour of year 9999, [generate_urls] returns the hour
    buckets from the hour of [start_dt] to the hour of [end_dt]. *)
Lemma generate_urls_returns start_dt end_dt :
  valid start_dt → start_dt <= end_dt → end_dt < last_hour →
  generate_urls start_dt end_dt
  = inr (map work_item
           (buckets (replace_minute_second_microsecond_0 start_dt)
              (Z.to_nat
                 ((replace_minute_second_microsecond_0 end_dt
                   - replace_minute_second_microsecond_0 start_dt)
                  / us_per_hour + 1)))).
Proof.
  intros [Hs0 _] Hse Hlast. unfold generate_urls.
  rewrite (generate_urls_loop_returns
             (Z.to_nat
                ((replace_minute_second_microsecond_0 end_dt
                  - replace_minute_second_microsecond_0 start_dt)
                 / us_per_hour + 1))); [done | | |];
    rewrite !replace_is_floor;
    change last_hour with 315537894000000000 in Hlast;
    change max_value with 315537897599999999;
    change us_per_hour with 3600000000;
    (rewrite ?Z2Nat.id by (Z.div_mod_to_equations; lia));
    try intros _; Z.div_mod_to_equations; lia.
Qed.

(** In the last hour, the increment that follows the last bucket raises. *)
Lemma generate_urls_raises start_dt end_dt :
  valid start_dt → valid end_dt → start_dt <= end_dt → last_hour <= end_dt →
  generate_urls start_dt end_dt = inl overflow_error.
Proof.
  intros [Hs0 _] [_ He] Hse Hlast. unfold generate_urls.
  apply (generate_urls_loop_raises
           (Z.to_nat ((last_hour - replace_minute_second_microsecond_0 start_dt)
                      / us_per_hour)));
    rewrite !replace_is_floor;
    change last_hour with 315537894000000000 in *;
    change max_value with 315537897599999999 in *;
    change us_per_hour with 3600000000;
    (rewrite ?Z2Nat.id by (Z.div_mod_to_equations; lia));
    Z.div_mod_to_equations; lia.
Qed.

(** What the returned list looks like: its length, its first bucket, the
    step between neighbours, and the range the buckets stay in. *)
Lemma buckets_length first n : length (buckets first n) = n.
Proof. unfold buckets. by rewrite length_map, length_seq. Qed.

Lemma buckets_lookup first n (i : nat) :
  (i < n)%nat → buckets first n !! i = Some (first + Z.of_nat i * us_per_hour).
Proof.
  intros Hi. unfold buckets. rewrite list_lookup_fmap.
  by rewrite lookup_seq_lt.
Qed.

Lemma generate_urls_shape start_dt end_dt :
  valid start_dt → start_dt <= end_dt → end_dt < last_hour →
  ∃ items : list WorkItem,
    generate_urls start_dt end_dt = inr items
    ∧ Z.of_nat (length items)
      = (replace_minute_second_microsecond_0 end_dt
         - replace_minute_second_microsecond_0 start_dt) / us_per_hour + 1
    ∧ (start_dt = end_dt → length items = 1%nat)
    ∧ (items.*2 !! 0%nat = Some (replace_minute_second_microsecond_0 start_dt))
    ∧ (∀ (i : nat) b b', items.*2 !! i = Some b → items.*2 !! S i = Some b' →
         b' = b + us_per_hour)
    ∧ (∀ (i : nat) u b, items !! i = Some (u, b) →
         u = archive_url b
         ∧ replace_minute_second_microsecond_0 start_dt <= b <= end_dt).
Proof.
  intros Hv Hse Hlast. eexists. split; [by apply generate_urls_returns |].
  destruct Hv as [Hs0 _].
  set (first := replace_minute_second_microsecond_0 start_dt).
  set (n := Z.to_nat _).
  assert (Hn : Z.of_nat n
               = (replace_minute_second_microsecond_0 end_dt - first)
                 / us_per_hour + 1).
  { subst n first. rewrite !replace_is_floor.
    change us_per_hour with 3600000000.
    rewrite Z2Nat.id; [done |]. Z.div_mod_to_equations; lia. }
  assert (Hfst : (map work_item (buckets first n)).*2 = buckets first n).
  { rewrite <- list_fmap_compose. apply list_fmap_id. }
  rewrite Hfst, length_map, buckets_length.
  split_and!.
  - done.
  - intros ->. apply Nat2Z.inj. rewrite Hn. subst first.
    by rewrite Z.sub_diag.
  - rewrite buckets_lookup; [f_equal; lia |].
    subst first. rewrite !replace_is_floor in Hn.
    change us_per_hour with 3600000000 in Hn.
    Z.div_mod_to_equations; lia.
  - intros i b b' Hb Hb'.
    assert (S i < n)%nat as Hi.
    { apply lookup_lt_Some in Hb'. by rewrite buckets_length in Hb'. }
    rewrite buckets_lookup in Hb by lia. rewrite buckets_lookup in Hb' by lia.
    simplify_eq. lia.
  - intros i u b Hi.
    rewrite list_lookup_fmap in Hi.
    destruct (buckets first n !! i) as [b0|] eqn:Hb; [| done].
    cbn in Hi. unfold work_item in Hi. simplify_eq.
    split; [done |].
    assert (i < n)%nat as Hlt.
    { apply lookup_lt_Some in Hb. by rewrite buckets_length in Hb. }
    rewrite buckets_lookup in Hb by done. simplify_eq.
    subst first. rewrite !replace_is_floor in *.
    change us_per_hour with 3600000000 in *.
    Z.div_mod_to_equations; lia.
Qed.

(** ** The tracker *)

Lemma deque_append_length {A} maxlen (d : list A) x :
  (length d <= maxlen)%nat → (length (deque_append maxlen d x) <= maxlen)%nat.
Proof. unfold deque_append. rewrite length_drop, length_app. cbn. lia. Qed.

Lemma deque_append_room {A} maxlen (d : list A) x :
  (length d < maxlen)%nat → deque_append maxlen d x = d ++ [x].
Proof.
  intros Hlen. unfold deque_append. rewrite length_app. cbn.
  by replace (length d + 1 - maxlen)%nat with 0%nat by lia.
Qed.

Lemma deque_append_full {A} maxlen (d : list A) x :
  length d = maxlen → deque_append maxlen d x = drop 1 (d ++ [x]).
Proof.
  intros Hlen. unfold deque_append. rewrite length_app. cbn.
  by replace (length d + 1 - maxlen)%nat with 1%nat by lia.
Qed.

(** The cumulative total only ever grows by what is recorded, and the window
    never holds more than ten samples. *)
Lemma add_bytes_total n now st :
  bytes_downloaded (Stats.add_bytes n now st) = bytes_downloaded st + n.
Proof. reflexivity. Qed.

(** Any number of recordings, in any order of arrival: the total is the
    initial total plus the sum of what was recorded, so no interleaving of
    the workers' calls changes it. *)
Lemma add_bytes_many (calls : list (Z * Q)) : ∀ st,
  bytes_downloaded (foldl (λ st c, Stats.add_bytes c.1 c.2 st) st calls)
  = bytes_downloaded st + Stats.sum calls.*1.
Proof.
  unfold Stats.sum.
  induction calls as [|[n now] calls IH]; intros st; [cbn; lia |].
  cbn [foldl]. rewrite IH. cbn. lia.
Qed.

Lemma add_bytes_any_order (calls calls' : list (Z * Q)) st :
  calls ≡ₚ calls' →
  bytes_downloaded (foldl (λ st c, Stats.add_bytes c.1 c.2 st) st calls)
  = bytes_downloaded (foldl (λ st c, Stats.add_bytes c.1 c.2 st) st calls').
Proof.
  intros Hperm. rewrite !add_bytes_many. f_equal. unfold Stats.sum.
  induction Hperm as [|c l l' _ IH|c c' l|l l' l'' _ IH1 _ IH2];
    cbn in *; lia.
Qed.

Lemma add_bytes_window n now st :
  (length (recent_times st) <= 10)%nat →
  (length (recent_times (Stats.add_bytes n now st)) <= 10)%nat.
Proof. apply deque_append_length. Qed.

(** ** One pass through the [try] block *)

Lemma path_exists_paths p d : path_exists p d = true ↔ p ∈ paths d.
Proof.
  unfold path_exists, paths.
  rewrite orb_true_iff, !bool_decide_eq_true, elem_of_union, elem_of_dom.
  done.
Qed.

Lemma path_exists_false p d : path_exists p d = false ↔ p ∉ paths d.
Proof.
  rewrite <- path_exists_paths. destruct (path_exists p d); naive_solver.
Qed.

Lemma chunk_bytes_cons data now rest :
  chunk_bytes ((data, now) :: rest) = Z.of_nat (length data) + chunk_bytes rest.
Proof. reflexivity. Qed.

Lemma write_chunks_spec filepath chunks : ∀ downloaded_size w,
  ∃ w', write_chunks filepath chunks downloaded_size w
        = (inr (downloaded_size + chunk_bytes chunks), w')
    ∧ log w' = log w
    ∧ bytes_downloaded (stats w')
      = bytes_downloaded (stats w) + chunk_bytes chunks
    ∧ paths (fs w') = paths (fs w).
Proof.
  induction chunks as [|[data now] rest IH]; intros downloaded_size w.
  - exists w. cbn. unfold mret, M_ret, chunk_bytes. cbn.
    split_and!; [f_equal; f_equal; lia | done | lia | done].
  - rewrite chunk_bytes_cons. destruct data as [|b data].
    + cbn [write_chunks]. destruct (IH downloaded_size w) as (w' & -> & ? & ? & ?).
      exists w'. cbn [length]. split_and!; [f_equal; f_equal; lia | done | lia | done].
    + cbn [write_chunks]. unfold mbind, M_bind, f_write, update_fs, update_stats.
      match goal with
      | |- context [write_chunks filepath rest ?n ?w0] =>
          destruct (IH n w0) as (w' & -> & Hlog & Hbytes & Hpaths)
      end.
      exists w'. cbn in *. split_and!.
      * f_equal. f_equal. lia.
      * done.
      * rewrite Hbytes. lia.
      * rewrite Hpaths. unfold paths. cbn. by rewrite dom_alter_L.
Qed.

Section try_body_facts.

Variables (url output_path : string).

Let fp := filepath url output_path.

(** What one attempt returns or raises, and what it leaves behind: one
    more request in the log, the bytes of the body on the tracker, no
    path removed, the target in place when the file was opened. *)
Lemma try_body_spec a w :
  ∃ w', try_body url output_path a w
        = (match attempt_raises a with
           | Some e => inl e
           | None => inr (url, true, msg_downloaded url,
                          chunk_bytes (iter_content a))
           end, w')
    ∧ log w' = log w ++ [Request url]
    ∧ bytes_downloaded (stats w')
      = bytes_downloaded (stats w) + attempt_bytes a
    ∧ paths (fs w) ⊆ paths (fs w')
    ∧ (attempt_raises a = None → fp ∈ paths (fs w'))
    ∧ (no_response a → fs w' = fs w ∧ stats w' = stats w).
Proof.
  destruct a as [g r m c o body e].
  unfold try_body, attempt_raises, attempt_bytes, no_response.
  unfold http_get, os_makedirs, open_file, mbind, M_bind, may_raise, emit,
    update_fs, mret, M_ret.
  cbn [requests_get raise_for_status makedirs content_length open_wb
       iter_content iter_end first_raised].
  destruct g as [eg|];
    [eexists; split_and!; [done | done | cbn; lia | done | done | done] |].
  destruct r as [er|];
    [eexists; split_and!; [done | done | cbn; lia | done | done | done] |].
  destruct m as [em|];
    [eexists; split_and!;
       [done | done | cbn; lia | done | done | by intros [? ?]] |].
  destruct c as [ec|];
    [eexists; split_and!;
       [done | done | cbn; lia | unfold paths; cbn; set_solver | done
       | by intros [? ?]] |].
  destruct o as [eo|];
    [eexists; split_and!;
       [done | done | cbn; lia | unfold paths; cbn; set_solver | done
       | by intros [? ?]] |].
  match goal with
  | |- context [write_chunks ?f body 0 ?w0] =>
      destruct (write_chunks_spec f body 0 w0) as (w' & -> & Hlog & Hb & Hp)
  end.
  cbn in Hlog, Hb. rewrite Z.add_0_l.
  assert (Hsub : paths (fs w) ⊆ paths (fs w')).
  { rewrite Hp. unfold paths. cbn. rewrite dom_insert_L. set_solver. }
  assert (Hin : fp ∈ paths (fs w')).
  { rewrite Hp. unfold paths. cbn. rewrite dom_insert_L. subst fp. set_solver. }
  exists w'. destruct e as [ee|]; split_and!; try done; by intros [? ?].
Qed.

End try_body_facts.

(** ** The retry loop *)

Lemma range_S (n : nat) : range (Z.of_nat (S n)) = range (Z.of_nat n) ++ [Z.of_nat n].
Proof.
  unfold range. rewrite !Nat2Z.id, seq_S, map_app. reflexivity.
Qed.

Lemma range_split (n : nat) (m : Z) :
  Z.of_nat n < m →
  ∃ rest, range m = range (Z.of_nat n) ++ Z.of_nat n :: rest.
Proof.
  intros Hlt. unfold range. rewrite Nat2Z.id.
  replace (Z.to_nat m) with (n + S (Z.to_nat m - S n))%nat by lia.
  rewrite seq_app, map_app. cbn [seq map]. eauto.
Qed.

Lemma range_last (m : Z) : 1 <= m → last (range m) = Some (m - 1).
Proof.
  intros Hm. replace m with (Z.of_nat (S (Z.to_nat (m - 1)))) at 1 by lia.
  rewrite range_S, last_snoc. f_equal. lia.
Qed.

Lemma range_elem (m i : Z) : i ∈ range m ↔ 0 <= i < m.
Proof.
  unfold range. rewrite list_elem_of_fmap. split.
  - intros (k & -> & Hk). apply elem_of_seq in Hk. lia.
  - intros Hi. exists (Z.to_nat i). split; [lia |]. apply elem_of_seq. lia.
Qed.

Lemma retries_log_S url n :
  retries_log url (S n)
  = retries_log url n ++ [Request url; Sleep (2 ^ Z.of_nat n)].
Proof.
  unfold retries_log. rewrite seq_S, flat_map_app. cbn. reflexivity.
Qed.

Section retry_loop_facts.

Variables (url output_path : string) (max_retries : Z).
Variable net : Z → attempt_env.

Let fp := filepath url output_path.
Let loop := retry_loop url output_path max_retries net.

(** Attempts that end in a transport error and are not the last one are
    each followed by their sleep, and the loop goes on. *)
Lemma retry_loop_retries (n : nat) : ∀ rest w,
  (∀ i : nat, (i < n)%nat → transport_error (net (Z.of_nat i))) →
  Z.of_nat n < max_retries →
  ∃ w', loop (range (Z.of_nat n) ++ rest) w = loop rest w'
    ∧ log w' = log w ++ retries_log url n
    ∧ paths (fs w) ⊆ paths (fs w').
Proof.
  induction n as [|n IH]; intros rest w Hfail Hn.
  - exists w. unfold retries_log. cbn. by rewrite app_nil_r.
  - rewrite range_S, <- app_assoc. cbn [app].
    destruct (IH (Z.of_nat n :: rest) w) as (w1 & -> & Hlog & Hsub);
      [intros; apply Hfail; lia | lia |].
    destruct (Hfail n ltac:(lia)) as [e He].
    subst loop. cbn [retry_loop].
    destruct (try_body_spec url output_path (net (Z.of_nat n)) w1)
      as (w2 & -> & Hlog2 & _ & Hsub2 & _).
    rewrite He.
    destruct (Z.eqb_spec (Z.of_nat n) (max_retries - 1)) as [Heq|_]; [lia |].
    eexists. split; [done |]. unfold sleep. cbn [log fs].
    rewrite Hlog2, Hlog, retries_log_S, <- !app_assoc.
    split; [done | set_solver].
Qed.

(** Whatever the outside does, with at least one attempt allowed the loop
    ends in a [return] of a tuple. *)
Lemma retry_loop_returns attempts : ∀ w,
  last attempts = Some (max_retries - 1) →
  ∃ r, (loop attempts w).1 = Some r.
Proof.
  induction attempts as [|attempt rest IH]; intros w Hlast; [done |].
  subst loop. cbn [retry_loop].
  destruct (try_body_spec url output_path (net attempt) w) as (w' & -> & _).
  destruct (attempt_raises (net attempt)) as [[e|e]|]; [| by eexists..].
  destruct (Z.eqb_spec attempt (max_retries - 1)) as [Heq|Hne]; [by eexists |].
  apply IH. destruct rest as [|a rest]; [cbn in Hlast; congruence |].
  by rewrite last_cons_cons in Hlast.
Qed.

(** The loop removes no path; a success leaves the target in place; the
    tracker gains the bytes of every attempt made. *)
Lemma retry_loop_paths attempts : ∀ w,
  paths (fs w) ⊆ paths (fs (loop attempts w).2)
  ∧ (∀ r, (loop attempts w).1 = Some r → result_success r = true →
       fp ∈ paths (fs (loop attempts w).2)).
Proof.
  induction attempts as [|attempt rest IH]; intros w; [done |].
  subst loop. cbn [retry_loop].
  destruct (try_body_spec url output_path (net attempt) w)
    as (w' & -> & _ & _ & Hsub & Hin & _).
  destruct (attempt_raises (net attempt)) as [[e|e]|]; cbn.
  - destruct (attempt =? max_retries - 1); cbn.
    + split; [done |]. intros r [= <-]. done.
    + destruct (IH (sleep (2 ^ attempt) w')) as [IH1 IH2].
      split; [cbn in IH1; set_solver | done].
  - split; [done |]. intros r [= <-]. done.
  - split; [done |]. intros r _ _. by apply Hin.
Qed.


Lemma retry_loop_no_response attempts : ∀ w,
  (∀ i, i ∈ attempts → no_response (net i)) →
  fs (loop attempts w).2 = fs w ∧ stats (loop attempts w).2 = stats w.
Proof.
  induction attempts as [|attempt rest IH]; intros w Hno; [done |].
  subst loop. cbn [retry_loop].
  destruct (try_body_spec url output_path (net attempt) w)
    as (w' & -> & _ & _ & _ & _ & Hsame).
  destruct (Hsame (Hno attempt ltac:(set_solver))) as [Hfs Hst].
  destruct (attempt_raises (net attempt)) as [[e|e]|]; cbn; [| done..].
  destruct (attempt =? max_retries - 1); cbn; [done |].
  destruct (IH (sleep (2 ^ attempt) w')) as [IH1 IH2];
    [intros; apply Hno; set_solver |].
  cbn in IH1, IH2. by rewrite IH1, IH2.
Qed.

End retry_loop_facts.

(** ** [download_file] *)

Lemma sleeps_app l1 l2 : sleeps (l1 ++ l2) = sleeps l1 ++ sleeps l2.
Proof. apply omap_app. Qed.

Lemma sleeps_retries_log url n :
  sleeps (retries_log url n) = map (λ i, 2 ^ Z.of_nat i) (seq 0 n).
Proof.
  induction n as [|n IH]; [done |].
  rewrite retries_log_S, sleeps_app, IH, seq_S, map_app. reflexivity.
Qed.

Lemma requests_app l1 l2 : requests (l1 ++ l2) = requests l1 ++ requests l2.
Proof. apply omap_app. Qed.

Lemma requests_retries_log url n :
  requests (retries_log url n) = replicate n url.
Proof.
  induction n as [|n IH]; [done |].
  rewrite retries_log_S, requests_app, IH. cbn.
  by rewrite <- replicate_S_end.
Qed.

(** The four messages start with four different letters. *)
Lemma messages_distinct url max_retries e e' :
  msg_exists url ≠ msg_downloaded url
  ∧ msg_exists url ≠ msg_failed url max_retries e
  ∧ msg_exists url ≠ msg_error url e
  ∧ msg_downloaded url ≠ msg_failed url max_retries e
  ∧ msg_downloaded url ≠ msg_error url e
  ∧ msg_error url e ≠ msg_failed url max_retries e'.
Proof. split_and!; discriminate. Qed.

(** With at least one attempt allowed, [download_file] returns a tuple. *)
Lemma download_file_returns url output_path max_retries net w :
  1 <= max_retries →
  ∃ r, (download_file url output_path max_retries net w).1 = Some r.
Proof.
  intros Hm. unfold download_file.
  destruct (path_exists _ _); [by eexists |].
  apply retry_loop_returns. by apply range_last.
Qed.

(** With none allowed and no file in place, it falls off the loop. *)
Lemma download_file_no_attempt url output_path max_retries net w :
  max_retries <= 0 → path_exists (filepath url output_path) (fs w) = false →
  download_file url output_path max_retries net w = (None, w).
Proof.
  intros Hm Hex. unfold download_file, range. rewrite Hex.
  by replace (Z.to_nat max_retries) with 0%nat by lia.
Qed.

Lemma download_file_paths url output_path max_retries net w :
  paths (fs w) ⊆ paths (fs (download_file url output_path max_retries net w).2)
  ∧ (∀ r, (download_file url output_path max_retries net w).1 = Some r →
       result_success r = true →
       filepath url output_path
       ∈ paths (fs (download_file url output_path max_retries net w).2)).
Proof.
  unfold download_file.
  destruct (path_exists _ _) eqn:Hex; [| apply retry_loop_paths].
  cbn. split; [done |]. intros _ _ _. by apply path_exists_paths.
Qed.


(** C4. When a file or directory already sits at the target path (the output
    directory joined with the last path segment of the URL),
    [download_file] returns the success tuple with size 0 and the message
    "Already exists: <filename>", which none of the other three outcomes can
    produce, and it leaves the world as it found it: nothing is requested,
    nothing is slept, the tracker and the disk are untouched. *)
Theorem download_file_already_exists url output_path max_retries net w :
  path_exists (Path.join output_path (Path.basename (Path.urlparse_path url)))
    (fs w) = true →
  download_file url output_path max_retries net w
  = (Some (url, true, "Already exists: " +:+ filename url, 0), w)
  ∧ requests (log (download_file url output_path max_retries net w).2)
    = requests (log w)
  ∧ stats (download_file url output_path max_retries net w).2 = stats w
  ∧ (∀ e, msg_exists url ≠ msg_downloaded url
          ∧ msg_exists url ≠ msg_failed url max_retries e
          ∧ msg_exists url ≠ msg_error url e).
Proof.
  intros Hex. unfold download_file, filepath, filename in *. rewrite Hex.
  split_and!; try done; intros e; split_and!; discriminate.
Qed.

(** The short-circuit on a disk that holds the archive of 10 o'clock. *)
Lemma download_file_already_exists_witness :
  download_file sample_url sample_dir 3 down_net world_with_file
  = (Some (sample_url, true, "Already exists: 2024-01-01-10.json.gz", 0),
     world_with_file).
Proof.
  apply (download_file_already_exists sample_url sample_dir 3 down_net
           world_with_file).
  vm_compute. reflexivity.
Defined.

(** C3. The target is not in place.  If the first [N] attempts end in a
    transport error and attempt [N] (with [N < max_retries]) succeeds, the
    log is request, sleep 2^0, request, sleep 2^1, ..., request, sleep
    2^(N-1), request: exactly [N] sleeps, of 1, 2, 4, ... seconds in that
    order, each between two consecutive attempts.  If all [max_retries]
    attempts end in a transport error, the failure tuple is returned right
    after the last request: the log holds [max_retries - 1] sleeps and ends
    with that request. *)
Theorem download_file_backoff url output_path max_retries net w :
  path_exists (filepath url output_path) (fs w) = false →
  (∀ N : nat,
     Z.of_nat N < max_retries →
     (∀ i : nat, (i < N)%nat → transport_error (net (Z.of_nat i))) →
     attempt_raises (net (Z.of_nat N)) = None →
     (download_file url output_path max_retries net w).1
     = Some (url, true, msg_downloaded url,
             chunk_bytes (iter_content (net (Z.of_nat N))))
     ∧ log (download_file url output_path max_retries net w).2
       = log w ++ retries_log url N ++ [Request url]
     ∧ sleeps (log (download_file url output_path max_retries net w).2)
       = sleeps (log w) ++ map (λ i, 2 ^ Z.of_nat i) (seq 0 N))
  ∧ (1 <= max_retries →
     (∀ i, 0 <= i < max_retries → transport_error (net i)) →
     (∃ e, attempt_raises (net (max_retries - 1)) = Some (RequestException e)
           ∧ (download_file url output_path max_retries net w).1
             = Some (url, false, msg_failed url max_retries e, 0))
     ∧ log (download_file url output_path max_retries net w).2
       = log w ++ retries_log url (Z.to_nat (max_retries - 1)) ++ [Request url]
     ∧ sleeps (log (download_file url output_path max_retries net w).2)
       = sleeps (log w)
         ++ map (λ i, 2 ^ Z.of_nat i) (seq 0 (Z.to_nat (max_retries - 1)))).
Proof.
  intros Hex. unfold download_file. rewrite Hex. split.
  - intros N HN Hfail Hok.
    destruct (range_split N max_retries HN) as [rest ->].
    destruct (retry_loop_retries url output_path max_retries net N
                (Z.of_nat N :: rest) w Hfail) as (w1 & -> & Hlog & _);
      [done |].
    cbn [retry_loop].
    destruct (try_body_spec url output_path (net (Z.of_nat N)) w1)
      as (w2 & -> & Hlog2 & _).
    rewrite Hok. cbn [fst snd].
    rewrite Hlog2, Hlog, <- app_assoc. split_and!; [done | done |].
    rewrite !sleeps_app, sleeps_retries_log. cbn. by rewrite app_nil_r.
  - intros Hm Hfail.
    set (n := Z.to_nat (max_retries - 1)).
    replace (range max_retries) with (range (Z.of_nat n) ++ [Z.of_nat n])
      by (rewrite <- range_S; f_equal; lia).
    destruct (retry_loop_retries url output_path max_retries net n
                [Z.of_nat n] w) as (w1 & -> & Hlog & _);
      [intros; apply Hfail; lia | lia |].
    cbn [retry_loop].
    destruct (try_body_spec url output_path (net (Z.of_nat n)) w1)
      as (w2 & -> & Hlog2 & _).
    destruct (Hfail (Z.of_nat n) ltac:(lia)) as [e He]. rewrite He.
    rewrite (proj2 (Z.eqb_eq _ _)) by lia. cbn [fst snd].
    rewrite Hlog2, Hlog, <- app_assoc.
    replace (max_retries - 1) with (Z.of_nat n) by lia.
    split_and!; [by exists e | done |].
    rewrite !sleeps_app, sleeps_retries_log. cbn. by rewrite app_nil_r.
Qed.

(** Two timeouts and a success: sleeps of 1 and 2 seconds.  Three timeouts:
    two sleeps, and the third request ends the log. *)
Lemma download_file_backoff_witness :
  sleeps (log (download_file sample_url sample_dir 3 flaky_net empty_world).2)
  = [1; 2]
  ∧ log (download_file sample_url sample_dir 3 down_net empty_world).2
    = [Request sample_url; Sleep 1; Request sample_url; Sleep 2;
       Request sample_url].
Proof.
  split.
  - destruct (download_file_backoff sample_url sample_dir 3 flaky_net
                empty_world) as [Hthen _]; [vm_compute; reflexivity |].
    destruct (Hthen 2%nat) as (_ & _ & Hsleeps).
    + lia.
    + intros i Hi. exists "Read timed out.".
      destruct i as [|[|i]]; [reflexivity | reflexivity | lia].
    + reflexivity.
    + exact Hsleeps.
  - destruct (download_file_backoff sample_url sample_dir 3 down_net
                empty_world) as [_ Hall]; [vm_compute; reflexivity |].
    destruct Hall as (_ & Hlog & _).
    + lia.
    + intros i _. by exists "Read timed out.".
    + exact Hlog.
Defined.

(** C6. The target is not in place, attempts [0 .. k-1] were retried, and
    attempt [k] raises an exception that is not a [RequestException],
    wherever in the [try] block.  The failure tuple is returned at once: the
    request of attempt [k] is the last entry of the log, so no retry and no
    sleep follow it, and the message, "Error downloading <filename>: <e>",
    differs from every message of retry exhaustion. *)
Theorem download_file_terminal_error url output_path max_retries net w
    (k : nat) (e : string) :
  path_exists (filepath url output_path) (fs w) = false →
  Z.of_nat k < max_retries →
  (∀ i : nat, (i < k)%nat → transport_error (net (Z.of_nat i))) →
  attempt_raises (net (Z.of_nat k)) = Some (OtherException e) →
  (download_file url output_path max_retries net w).1
  = Some (url, false, "Error downloading " +:+ filename url +:+ ": " +:+ e, 0)
  ∧ log (download_file url output_path max_retries net w).2
    = log w ++ retries_log url k ++ [Request url]
  ∧ length (requests (log (download_file url output_path max_retries net w).2))
    = (length (requests (log w)) + k + 1)%nat
  ∧ length (sleeps (log (download_file url output_path max_retries net w).2))
    = (length (sleeps (log w)) + k)%nat
  ∧ (∀ e', msg_error url e ≠ msg_failed url max_retries e').
Proof.
  intros Hex Hk Hfail Hraise. unfold download_file. rewrite Hex.
  destruct (range_split k max_retries Hk) as [rest ->].
  destruct (retry_loop_retries url output_path max_retries net k
              (Z.of_nat k :: rest) w Hfail) as (w1 & -> & Hlog & _); [done |].
  cbn [retry_loop].
  destruct (try_body_spec url output_path (net (Z.of_nat k)) w1)
    as (w2 & -> & Hlog2 & _).
  rewrite Hraise. cbn [fst snd]. rewrite Hlog2, Hlog, <- app_assoc.
  split_and!; [done | done | | | discriminate].
  - rewrite !requests_app, requests_retries_log, !length_app, length_replicate.
    cbn. lia.
  - rewrite !sleeps_app, sleeps_retries_log, !length_app, length_map, length_seq.
    cbn. lia.
Qed.

(** A retried reset, then a full disk while the body is written. *)
Lemma download_file_terminal_error_witness :
  (download_file sample_url sample_dir 3 disk_full_net empty_world).1
  = Some (sample_url, false,
          "Error downloading 2024-01-01-10.json.gz: [Errno 28] No space left on device",
          0)
  ∧ log (download_file sample_url sample_dir 3 disk_full_net empty_world).2
    = [Request sample_url; Sleep 1; Request sample_url].
Proof.
  destruct (download_file_terminal_error sample_url sample_dir 3 disk_full_net
              empty_world 1 "[Errno 28] No space left on device")
    as (Hres & Hlog & _).
  - vm_compute; reflexivity.
  - lia.
  - intros i Hi. exists "Connection reset".
    destruct i as [|i]; [reflexivity | lia].
  - reflexivity.
  - split; [exact Hres | exact Hlog].
Defined.

(** C10. If every attempt ends in a [RequestException] raised by
    [requests.get] or by [raise_for_status], so that no response ever passes
    the status check, the disk after the call is the disk before it: no
    directory was made and no file was opened or written.  This holds
    whether or not the target was in place, and the tracker is untouched
    too. *)
Theorem download_file_no_response_frame url output_path max_retries net w :
  (∀ i, 0 <= i < max_retries → no_response (net i)) →
  fs (download_file url output_path max_retries net w).2 = fs w
  ∧ dirs (fs (download_file url output_path max_retries net w).2) = dirs (fs w)
  ∧ files (fs (download_file url output_path max_retries net w).2)
    = files (fs w)
  ∧ stats (download_file url output_path max_retries net w).2 = stats w.
Proof.
  intros Hno. unfold download_file.
  destruct (path_exists _ _); [done |].
  destruct (retry_loop_no_response url output_path max_retries net
              (range max_retries) w) as [Hfs Hst].
  { intros i Hi. apply Hno. by apply range_elem. }
  by rewrite Hfs, Hst.
Qed.

(** A name that does not resolve and a 503: the empty disk stays empty. *)
Lemma download_file_no_response_frame_witness :
  fs (download_file sample_url sample_dir 3 unreachable_net empty_world).2
  = empty_fs.
Proof.
  apply (download_file_no_response_frame sample_url sample_dir 3
           unreachable_net empty_world).
  intros k Hk. unfold no_response, unreachable_net.
  destruct (Z.eqb_spec k 1); by eexists.
Defined.

(** C5 fails for a retry count of zero (or less): with no file in place the
    loop body never runs and the function ends without a [return], so the
    caller gets [None] and no tuple at all. *)
Theorem download_file_zero_retries :
  path_exists (filepath sample_url sample_dir) (fs empty_world) = false
  ∧ download_file sample_url sample_dir 0 flaky_net empty_world
    = (None, empty_world).
Proof. split; vm_compute; reflexivity. Qed.

(** ** [DownloadStats.get_speed] *)

(** C7, as the code has it.  [get_speed] returns 0 with fewer than two
    samples in the window and 0 when the newest and the oldest timestamp are
    equal; when the newest is later than the oldest it returns the sum of
    the window's byte counts divided by (newest - oldest) and by 1024 * 1024;
    when the newest is earlier than the oldest (the wall clock was set back
    between two samples) the guard [time_span > 0] fails and it returns 0.
    The division is reached with a positive span only. *)
Theorem get_speed_cases st :
  ((length (recent_times st) < 2)%nat → Stats.get_speed st = 0%Q)
  ∧ ((2 <= length (recent_times st))%nat →
       ((newest st == oldest st)%Q → Stats.get_speed st = 0%Q)
       ∧ ((oldest st < newest st)%Q →
            Stats.get_speed st
            = (inject_Z (Stats.sum (recent_bytes st))
               / (newest st - oldest st) / Stats.MiB)%Q)
       ∧ ((newest st < oldest st)%Q → Stats.get_speed st = 0%Q)).
Proof.
  unfold Stats.get_speed, newest, oldest.
  set (new := List.last (recent_times st) 0%Q).
  set (old := hd 0%Q (recent_times st)).
  split.
  - intros Hlen. by rewrite (proj2 (Nat.ltb_lt _ _)) by done.
  - intros Hlen. rewrite (proj2 (Nat.ltb_ge _ _)) by done.
    destruct (Qlt_le_dec 0 (new - old)) as [Hpos|Hnonpos].
    + apply (proj2 (Qlt_minus_iff old new)) in Hpos.
      split_and!; [| done |].
      * intros Heq. rewrite Heq in Hpos. by apply Qlt_irrefl in Hpos.
      * intros Hlt. exfalso. apply (Qlt_irrefl new).
        by apply Qlt_trans with (y := old).
    + split_and!; [done | | done].
      intros Hlt. apply (proj1 (Qlt_minus_iff old new)) in Hlt.
      exfalso. apply (Qlt_irrefl 0%Q).
      by apply Qlt_le_trans with (y := (new - old)%Q).
Qed.

(** Two samples two seconds apart, and a single sample. *)
Lemma get_speed_cases_witness :
  Stats.get_speed stats_two_samples
  = (inject_Z 2097152 / (3 - 1) / Stats.MiB)%Q
  ∧ Stats.get_speed (Stats.add_bytes 5 1 (Stats.init 0)) = 0%Q.
Proof.
  split.
  - destruct (get_speed_cases stats_two_samples) as [_ Hmany].
    destruct Hmany as (_ & Hpos & _); [vm_compute; lia |].
    apply Hpos. reflexivity.
  - destruct (get_speed_cases (Stats.add_bytes 5 1 (Stats.init 0))) as [Hfew _].
    apply Hfew. vm_compute. lia.
Defined.

(** C7 as stated does not hold when the clock runs backwards: two samples,
    the newer stamped earlier than the older; the timestamps differ, yet the
    value is 0 and not the quotient, which would be -2. *)
Lemma get_speed_clock_set_back :
  (2 <= length (recent_times stats_clock_back))%nat
  ∧ ¬ (newest stats_clock_back == oldest stats_clock_back)%Q
  ∧ Stats.get_speed stats_clock_back = 0%Q
  ∧ ¬ (Stats.get_speed stats_clock_back
       == inject_Z (Stats.sum (recent_bytes stats_clock_back))
          / (newest stats_clock_back - oldest stats_clock_back) / Stats.MiB)%Q.
Proof.
  split_and!.
  - vm_compute. lia.
  - vm_compute. discriminate.
  - reflexivity.
  - vm_compute. discriminate.
Qed.

(** ** The pool *)

Lemma completion_order_perm order n : completion_order order n ≡ₚ seq 0 n.
Proof.
  unfold completion_order.
  set (first := remove_dups (filter (λ i, (i < n)%nat) order)).
  assert (Hnd : NoDup first) by apply NoDup_remove_dups.
  assert (Hin : ∀ i, i ∈ first → (i < n)%nat).
  { intros i Hi. apply elem_of_remove_dups, list_elem_of_filter in Hi. tauto. }
  apply NoDup_Permutation.
  - apply NoDup_app. split_and!; [done | | apply NoDup_filter, NoDup_seq].
    intros i Hi Hi'. apply list_elem_of_filter in Hi'. tauto.
  - apply NoDup_seq.
  - intros i. rewrite elem_of_app, list_elem_of_filter, elem_of_seq. split.
    + intros [Hi | [_ Hi]]; [apply Hin in Hi |]; lia.
    + intros Hi. destruct (decide (i ∈ first)); [by left | right]. split; [done | lia].
Qed.

Lemma completion_order_elem order n i :
  i ∈ completion_order order n ↔ (i < n)%nat.
Proof. rewrite completion_order_perm, elem_of_seq. lia. Qed.

Lemma completion_order_length order n :
  length (completion_order order n) = n.
Proof. by rewrite completion_order_perm, length_seq. Qed.

Lemma task_urls_length urls l :
  (∀ i, i ∈ l → (i < length urls)%nat) → length (task_urls urls l) = length l.
Proof.
  unfold task_urls. induction l as [|i l IH]; intros Hl; [done |].
  cbn. destruct (lookup_lt_is_Some_2 urls i) as [u ->]; [apply Hl; set_solver |].
  cbn. f_equal. apply IH. intros; apply Hl; set_solver.
Qed.

Lemma task_urls_elem urls l u :
  u ∈ task_urls urls l ↔ ∃ i, i ∈ l ∧ urls !! i = Some u.
Proof. unfold task_urls. apply list_elem_of_omap. Qed.

Section run_tasks_facts.

Variables (urls : list string) (output_path : string).
Variable net : nat → Z → attempt_env.

Let run := run_tasks urls output_path net.

Lemma run_tasks_cons i u l w :
  urls !! i = Some u →
  run (i :: l) w
  = ((download_file u output_path 3 (net i) w).1
       :: (run l (download_file u output_path 3 (net i) w).2).1,
     (run l (download_file u output_path 3 (net i) w).2).2).
Proof.
  intros Hu. subst run. cbn [run_tasks]. rewrite Hu.
  destruct (download_file _ _ _ _ _) as [r w1]. cbn.
  by destruct (run_tasks _ _ _ _ _).
Qed.

Lemma run_tasks_skip_index i l w :
  urls !! i = None → run (i :: l) w = run l w.
Proof. intros Hu. subst run. cbn [run_tasks]. by rewrite Hu. Qed.

(** One result per task, each a tuple, and no path is ever removed. *)
Lemma run_tasks_results l : ∀ w,
  length (run l w).1 = length (task_urls urls l)
  ∧ Forall is_Some (run l w).1
  ∧ paths (fs w) ⊆ paths (fs (run l w).2).
Proof.
  induction l as [|i l IH]; intros w; [done |].
  unfold task_urls in *. cbn [omap list_omap].
  destruct (urls !! i) as [u|] eqn:Hu.
  - rewrite (run_tasks_cons i u) by done. cbn.
    destruct (IH (download_file u output_path 3 (net i) w).2)
      as (Hlen & Hsome & Hsub).
    destruct (download_file_returns u output_path 3 (net i) w) as [r Hr];
      [lia |].
    destruct (download_file_paths u output_path 3 (net i) w) as [Hp _].
    split_and!; [by f_equal | | set_solver].
    constructor; [by rewrite Hr | done].
  - rewrite run_tasks_skip_index by done. cbn. apply IH.
Qed.

(** After a pool in which every task succeeded, every target is in
    place. *)
Lemma run_tasks_all_success l : ∀ w,
  Forall (λ r, is_success r = true) (run l w).1 →
  ∀ u, u ∈ task_urls urls l →
       filepath u output_path ∈ paths (fs (run l w).2).
Proof.
  induction l as [|i l IH]; intros w Hall u Hu; [by apply elem_of_nil in Hu |].
  unfold task_urls in *. cbn [omap list_omap] in Hu.
  destruct (urls !! i) as [u0|] eqn:Hu0.
  - rewrite (run_tasks_cons i u0) in * by done. cbn in *.
    apply Forall_cons in Hall as [Hr Hall].
    apply elem_of_cons in Hu as [->|Hu]; [| by apply IH].
    destruct (run_tasks_results l (download_file u0 output_path 3 (net i) w).2)
      as (_ & _ & Hsub).
    apply Hsub.
    destruct (download_file_paths u0 output_path 3 (net i) w) as [_ Hin].
    destruct (download_file u0 output_path 3 (net i) w).1
      as [[[[? []] ?] ?]|] eqn:Hres; try done.
    by eapply Hin.
  - rewrite run_tasks_skip_index in * by done. cbn in Hu. by apply IH.
Qed.

(** A pool whose targets are all in place changes nothing and asks
    nothing of the network: every task takes the short-circuit. *)
Lemma run_tasks_all_exist l : ∀ w,
  (∀ u, u ∈ task_urls urls l → filepath u output_path ∈ paths (fs w)) →
  run l w = (skipped <$> task_urls urls l, w).
Proof.
  induction l as [|i l IH]; intros w Hall; [done |].
  unfold task_urls in *. cbn [omap list_omap] in *.
  destruct (urls !! i) as [u|] eqn:Hu.
  - rewrite (run_tasks_cons i u) by done. cbn in Hall.
    assert (Hex : path_exists (filepath u output_path) (fs w) = true).
    { apply path_exists_paths, Hall. set_solver. }
    unfold download_file at 1 2 3. rewrite Hex. cbn [fst snd].
    rewrite IH by (intros; apply Hall; set_solver). done.
  - rewrite run_tasks_skip_index by done. apply IH. by cbn in Hall.
Qed.


End run_tasks_facts.

(** ** The tally and the summary *)

Lemma tally_spec rs : ∀ s f wr,
  Forall is_Some rs →
  ∃ wr', tally rs s f wr
         = inr (s + Z.of_nat (successes rs), f + Z.of_nat (failures rs), wr').
Proof.
  unfold successes, failures.
  induction rs as [|r rs IH]; intros s f wr Hall.
  - exists wr. cbn. do 3 f_equal; lia.
  - apply Forall_cons in Hall as [[[[[u ok] msg] size] ->] Hall].
    destruct ok; cbn [tally List.filter is_success negb length].
    + destruct (IH (s + 1) f wr Hall) as [wr' ->]. exists wr'. do 3 f_equal; lia.
    + destruct (IH s (f + 1) (wr ++ [msg]) Hall) as [wr' ->].
      exists wr'. do 3 f_equal; lia.
Qed.

Lemma successes_failures rs : (successes rs + failures rs = length rs)%nat.
Proof.
  unfold successes, failures. induction rs as [|r rs IH]; [done |].
  cbn. destruct (is_success r); cbn; lia.
Qed.

Lemma failures_0 rs :
  failures rs = 0%nat ↔ Forall (λ r, is_success r = true) rs.
Proof.
  unfold failures. induction rs as [|r rs IH]; [done |].
  cbn. rewrite Forall_cons, <- IH.
  destruct (is_success r); cbn; naive_solver.
Qed.

Section download_archives_facts.

Variables (start_dt end_dt : datetime) (output_path : string).
Variables (max_workers : Z) (order : list nat).
Variable net : nat → Z → attempt_env.
Variables (t_start t_end : Q) (w : world).

Let w0 := {| fs := fs w; stats := Stats.init t_start; log := log w |}.
Let run (urls : list WorkItem) :=
  run_tasks (map fst urls) output_path net
    (completion_order order (length urls)) w0.

(** The four ways [download_archives] can end. *)
Lemma download_archives_cases :
  (∃ e, generate_urls start_dt end_dt = inl e
        ∧ download_archives start_dt end_dt output_path max_workers order net
            t_start t_end w = (inl e, w))
  ∨ (generate_urls start_dt end_dt = inr []
     ∧ download_archives start_dt end_dt output_path max_workers order net
         t_start t_end w = (inr None, w))
  ∨ (∃ urls e, generate_urls start_dt end_dt = inr urls ∧ urls ≠ []
        ∧ max_workers <= 0
        ∧ download_archives start_dt end_dt output_path max_workers order net
            t_start t_end w = (inl e, w0))
  ∨ (∃ urls s, generate_urls start_dt end_dt = inr urls ∧ urls ≠ []
        ∧ 0 < max_workers
        ∧ download_archives start_dt end_dt output_path max_workers order net
            t_start t_end w = (inr (Some s), (run urls).2)
        ∧ pool_results start_dt end_dt output_path order net t_start w
          = (run urls).1
        ∧ successful s = Z.of_nat (successes (run urls).1)
        ∧ failed s = Z.of_nat (failures (run urls).1)
        ∧ total s = Z.of_nat (length urls)
        ∧ total_downloaded s = Stats.get_total_downloaded (stats (run urls).2)).
Proof.
  unfold download_archives, pool_results.
  destruct (generate_urls start_dt end_dt) as [e|urls] eqn:Hgen;
    [left; by exists e |].
  destruct urls as [|item urls]; [right; left; done |].
  right; right. fold w0.
  destruct (Z.leb_spec max_workers 0) as [Hw|Hw];
    [left; eexists _, _; by split_and! |].
  right. fold (run (item :: urls)).
  destruct (run (item :: urls)) as [results w1] eqn:Hrun.
  assert (Hsome : Forall is_Some results).
  { pose proof (run_tasks_results (map fst (item :: urls)) output_path net
                  (completion_order order (length (item :: urls))) w0)
      as (_ & Hsome & _).
    fold (run (item :: urls)) in Hsome. by rewrite Hrun in Hsome. }
  destruct (tally_spec results 0 0 [] Hsome) as [wr ->].
  eexists _, _. rewrite Hrun. split_and!; try done; cbn; lia.
Qed.

(** The pool holds one result per generated URL. *)
Lemma pool_results_length urls :
  generate_urls start_dt end_dt = inr urls →
  length (pool_results start_dt end_dt output_path order net t_start w)
  = length urls.
Proof.
  intros Hgen. unfold pool_results. rewrite Hgen.
  pose proof (run_tasks_results (map fst urls) output_path net
                (completion_order order (length urls)) w0) as (Hlen & _).
  fold w0. rewrite Hlen, task_urls_length, completion_order_length; [done |].
  intros i Hi. apply completion_order_elem in Hi. by rewrite length_map.
Qed.

End download_archives_facts.

Lemma skipped_tallies (us : list string) :
  successes (skipped <$> us) = length us
  ∧ failures (skipped <$> us) = 0%nat
  ∧ sizes (skipped <$> us) = 0.
Proof.
  unfold successes, failures, sizes, Stats.sum.
  induction us as [|u us (IH1 & IH2 & IH3)]; [done |].
  rewrite fmap_cons.
  cbn [skipped List.filter is_success negb length map foldr from_option
       result_size snd].
  rewrite IH1, IH2, IH3. done.
Qed.

(** C8. Whenever [download_archives] reaches its final statistics, the two
    tallies add up to the total it prints, which is the number of generated
    URLs and the number of results drained from the pool; each result is
    counted once, as a success or as a failure.  It prints no statistics
    only when the range is empty, when [generate_urls] raised, or when the
    pool refused a worker count below 1; unpacking a result never raises. *)
Theorem download_archives_counts start_dt end_dt output_path max_workers order
    net t_start t_end w :
  match (download_archives start_dt end_dt output_path max_workers order net
           t_start t_end w).1 with
  | inr (Some s) =>
      successful s + failed s = total s
      ∧ total s
        = Z.of_nat (length (pool_results start_dt end_dt output_path order net
                              t_start w))
      ∧ successful s
        = Z.of_nat (successes (pool_results start_dt end_dt output_path order
                                 net t_start w))
      ∧ failed s
        = Z.of_nat (failures (pool_results start_dt end_dt output_path order
                                net t_start w))
      ∧ ∃ urls, generate_urls start_dt end_dt = inr urls
                ∧ total s = Z.of_nat (length urls)
  | inr None => generate_urls start_dt end_dt = inr []
  | inl e => generate_urls start_dt end_dt = inl e ∨ max_workers <= 0
  end.
Proof.
  destruct (download_archives_cases start_dt end_dt output_path max_workers
              order net t_start t_end w)
    as [(e & Hgen & ->) | [[Hgen ->] | [(urls & e & Hgen & _ & Hw & ->)
       | (urls & s & Hgen & _ & _ & -> & Hres & Hs & Hf & Ht & _)]]];
    cbn [fst]; [by left | done | by right |].
  pose proof (pool_results_length start_dt end_dt output_path order net t_start
                w urls Hgen) as Hlen.
  rewrite <- Hres in Hs, Hf.
  pose proof (successes_failures
                (pool_results start_dt end_dt output_path order net t_start w)).
  split_and!; [lia | lia | done | done | by exists urls].
Qed.

(** The two end-to-end scenarios of the specification: three hours, all
    served; three hours, one of them unreachable. *)
Example three_hours_all_served :
  ∃ s w',
    download_archives (make 2024 1 1 10 0 0 0) (make 2024 1 1 12 0 0 0)
      "work/archives" 10 [2; 0]%nat (λ _ _, ok_attempt [([Byte.x1f], 1%Q)])
      0 5 empty_world = (inr (Some s), w')
    ∧ (successful s, failed s, total s) = (3, 0, 3)
    ∧ bytes_downloaded (stats w') = 3.
Proof. eexists _, _. split; [vm_compute; reflexivity | done]. Qed.

Example three_hours_one_unreachable :
  ∃ s w',
    download_archives (make 2024 1 1 10 0 0 0) (make 2024 1 1 12 0 0 0)
      "work/archives" 10 []
      (λ i _, if decide (i = 1%nat)
              then refused (RequestException "Connection refused")
              else ok_attempt [([Byte.x1f], 1%Q)])
      0 5 empty_world = (inr (Some s), w')
    ∧ (successful s, failed s, total s) = (2, 1, 3)
    ∧ failure_messages s
      = ["Failed after 3 attempts: 2024-01-01-11.json.gz - Connection refused"].
Proof. eexists _, _. split; [vm_compute; reflexivity | done]. Qed.




(** ** Running twice *)

(** A second run after a first run without failure.  Run
    [download_archives] twice on the same range, output directory and
    worker count, the second run starting from the world the first one
    left.  If the first run printed its statistics with no failure, every
    target is in place, so in the second run every task takes the existence
    short-circuit, whatever the network would have answered and in whatever
    order the tasks complete: each result is the tuple (url, True, "Already
    exists: ...", 0), the successes equal the total, there is no failure,
    the fresh tracker has received nothing, and neither the disk nor the log
    of requests and sleeps has changed. *)
Lemma rerun_after_full_success start_dt end_dt output_path max_workers
    order1 order2 net1 net2 t1 t1' t2 t2' w :
  let run1 :=
    download_archives start_dt end_dt output_path max_workers order1 net1
      t1 t1' w in
  let run2 :=
    download_archives start_dt end_dt output_path max_workers order2 net2
      t2 t2' run1.2 in
  let results2 :=
    pool_results start_dt end_dt output_path order2 net2 t2 run1.2 in
  (∃ s1, run1.1 = inr (Some s1) ∧ failed s1 = 0) →
  ∃ s2, run2.1 = inr (Some s2)
    ∧ successful s2 = total s2
    ∧ failed s2 = 0
    ∧ total s2 = Z.of_nat (length results2)
    ∧ Forall (λ r, ∃ u, r = Some (u, true, "Already exists: " +:+ filename u, 0))
        results2
    ∧ sizes results2 = 0
    ∧ (total_downloaded s2 == 0)%Q
    ∧ run2.2 = {| fs := fs run1.2; stats := Stats.init t2; log := log run1.2 |}.
Proof.
  intros run1 run2 results2 (s1 & Hs1 & Hfailed).
  subst run1 run2 results2.
  destruct (download_archives_cases start_dt end_dt output_path max_workers
              order1 net1 t1 t1' w)
    as [(e & Hgen & Hrun1) | [[Hgen Hrun1] | [(urls & e & Hgen & _ & Hw & Hrun1)
       | (urls & s & Hgen & Hne & Hw & Hrun1 & _ & _ & Hf & _)]]];
    rewrite Hrun1 in Hs1 |- *; cbn [fst snd] in *; try done.
  simplify_eq.
  set (n := length urls) in *.
  set (w0 := {| fs := fs w; stats := Stats.init t1; log := log w |}) in *.
  set (w1 := (run_tasks (map fst urls) output_path net1
                (completion_order order1 n) w0).2).
  (* every target is in place after the first run *)
  assert (Hplace : ∀ (i : nat) u, (i < n)%nat → map fst urls !! i = Some u →
                     filepath u output_path ∈ paths (fs w1)).
  { intros i u Hi Hu. subst w1. apply run_tasks_all_success.
    - apply failures_0. lia.
    - apply task_urls_elem. exists i. split; [| done].
      by apply completion_order_elem. }
  (* the second run *)
  destruct (download_archives_cases start_dt end_dt output_path max_workers
              order2 net2 t2 t2' w1)
    as [(e & Hgen2 & _) | [[Hgen2 _] | [(urls2 & e & _ & _ & Hw2 & _)
       | (urls2 & s2 & Hgen2 & _ & _ & Hrun2 & Hres2 & Hs2 & Hf2 & Ht2 & Htd2)]]];
    [congruence | congruence | lia |].
  assert (urls2 = urls) as -> by congruence.
  fold n in Hrun2, Hres2, Hs2, Hf2, Htd2.
  rewrite run_tasks_all_exist in Hrun2, Hres2, Hs2, Hf2, Htd2.
  2-6: (cbn [fs]; intros u Hu; apply task_urls_elem in Hu as (i & Hi & Hu);
        apply completion_order_elem in Hi; by eapply Hplace).
  cbn [fst snd] in *.
  destruct (skipped_tallies
              (task_urls (map fst urls) (completion_order order2 n)))
    as (Hsucc & Hfail & Hsizes).
  rewrite Hsucc in Hs2. rewrite Hfail in Hf2.
  exists s2. rewrite Hrun2, Hres2. cbn [fst snd].
  split_and!.
  - done.
  - rewrite Hs2, Ht2. f_equal.
    rewrite task_urls_length, completion_order_length; [done |].
    intros i Hi. apply completion_order_elem in Hi. by rewrite length_map.
  - by rewrite Hf2.
  - rewrite Ht2, length_fmap. f_equal.
    rewrite task_urls_length, completion_order_length; [done |].
    intros i Hi. apply completion_order_elem in Hi. by rewrite length_map.
  - apply Forall_fmap, Forall_forall. intros u _. by exists u.
  - done.
  - rewrite Htd2. reflexivity.
  - done.
Qed.

(** Three hours fetched, then a second run with the network down. *)
Lemma rerun_after_full_success_witness :
  ∃ s2,
    (download_archives t10 t12_30 sample_dir 10 [1%nat] offline_pool 6 7
       (download_archives t10 t12_30 sample_dir 10 [2%nat] served_pool 0 5
          empty_world).2).1
    = inr (Some s2)
    ∧ successful s2 = total s2 ∧ failed s2 = 0.
Proof.
  destruct (rerun_after_full_success t10 t12_30 sample_dir 10 [2%nat] [1%nat]
              served_pool offline_pool 0 5 6 7 empty_world)
    as (s2 & Hrun2 & Hsucc & Hfail & _).
  - eexists. split; [vm_compute; reflexivity | reflexivity].
  - exists s2. split_and!; [exact Hrun2 | exact Hsucc | exact Hfail].
Defined.

(** C1 as stated fails when the first run did not fetch everything: one
    hour, an empty disk, a server that refuses every connection.  The first
    run leaves no file, so the second run asks the network again and, the
    server still refusing, reports one failure and no success. *)
Lemma rerun_after_failed_run :
  t10 <= t10
  ∧ ∃ s2,
      (download_archives t10 t10 sample_dir 10 [] offline_pool 6 7
         (download_archives t10 t10 sample_dir 10 [] offline_pool 0 5
            empty_world).2).1
      = inr (Some s2)
      ∧ (successful s2, failed s2, total s2) = (0, 1, 1)
      ∧ pool_results t10 t10 sample_dir [] offline_pool 6
          (download_archives t10 t10 sample_dir 10 [] offline_pool 0 5
             empty_world).2
        = [Some (sample_url, false,
                 "Failed after 3 attempts: 2024-01-01-10.json.gz - Connection refused",
                 0)].
Proof.
  split; [done |].
  eexists. split; [vm_compute; reflexivity |].
  split_and!; vm_compute; reflexivity.
Qed.

(** ** The end of the calendar *)

(** C2 fails in the last hour [datetime] can hold.  With start and end both
    at [last_hour], 9999-12-31T23:00:00, the loop appends the one bucket and then
    increments [current] past [datetime.max]: the addition raises
    [OverflowError], and [generate_urls] returns no list at all, where the
    claim promises exactly one WorkItem.  (Earlier than that hour the claim
    holds: [generate_urls_shape].) *)
Theorem generate_urls_last_hour :
  valid last_hour ∧ last_hour <= last_hour
  ∧ generate_urls last_hour last_hour
    = inl (OtherException "date value out of range").
Proof.
  assert (Hv : valid last_hour) by (split; vm_compute; discriminate).
  split_and!; [done | done |].
  by apply generate_urls_raises.
Qed.

(** * Further properties *)

(** ** The tracker over its lifetime *)

Lemma deque_append_fold {A} (maxlen : nat) (xs : list A) : ∀ d,
  (length d <= maxlen)%nat →
  foldl (deque_append maxlen) d xs
  = drop (length d + length xs - maxlen) (d ++ xs).
Proof.
  induction xs as [|x xs IH]; intros d Hd.
  - cbn. rewrite app_nil_r.
    by replace (length d + 0 - maxlen)%nat with 0%nat by lia.
  - cbn [foldl]. rewrite IH by by apply deque_append_length.
    destruct (decide (length d < maxlen)%nat) as [Hlt|Hge].
    + rewrite deque_append_room by done. rewrite length_app. cbn [length].
      rewrite <- app_assoc. cbn [app]. f_equal. lia.
    + rewrite deque_append_full by lia.
      rewrite length_drop, length_app. cbn [length].
      replace (drop 1 (d ++ [x]) ++ xs) with (drop 1 (d ++ x :: xs)).
      * rewrite drop_drop. f_equal. lia.
      * rewrite (assoc_L _ d [x] xs : d ++ x :: xs = (d ++ [x]) ++ xs).
        rewrite drop_app_le; [done |]. rewrite length_app. cbn. lia.
Qed.

Lemma record_all_fields calls : ∀ st,
  bytes_downloaded (record_all calls st)
  = bytes_downloaded st + Stats.sum calls.*1
  ∧ recent_bytes (record_all calls st)
    = foldl (deque_append 10) (recent_bytes st) calls.*1
  ∧ recent_times (record_all calls st)
    = foldl (deque_append 10) (recent_times st) calls.*2
  ∧ start_time (record_all calls st) = start_time st.
Proof.
  unfold record_all, Stats.sum.
  induction calls as [|[n now] calls IH]; intros st; [cbn; split_and!; done || lia |].
  cbn [foldl fst snd].
  destruct (IH (Stats.add_bytes n now st)) as (H1 & H2 & H3 & H4).
  rewrite H1, H2, H3, H4. cbn. split_and!; done || lia.
Qed.

(** X1. From a new tracker, after any series of [add_bytes] calls: the
    cumulative total is the sum of all the counts recorded, the two deques
    hold the byte counts and the timestamps of the last ten calls (of all of
    them when there were fewer), oldest first and in step, and the start time
    is still the one taken at construction. *)
Theorem tracker_after_calls (calls : list (Z * Q)) (t0 : Q) :
  bytes_downloaded (record_all calls (Stats.init t0)) = Stats.sum calls.*1
  ∧ recent_bytes (record_all calls (Stats.init t0))
    = drop (length calls - 10) calls.*1
  ∧ recent_times (record_all calls (Stats.init t0))
    = drop (length calls - 10) calls.*2
  ∧ (length (recent_times (record_all calls (Stats.init t0))) <= 10)%nat
  ∧ start_time (record_all calls (Stats.init t0)) = t0.
Proof.
  destruct (record_all_fields calls (Stats.init t0)) as (Hb & Hrb & Hrt & Hst).
  rewrite Hb, Hrb, Hrt, Hst. cbn [Stats.init bytes_downloaded recent_bytes
    recent_times start_time].
  rewrite !deque_append_fold by (cbn; lia). cbn [length app].
  rewrite !length_fmap, !Nat.add_0_l, length_drop, length_fmap.
  split_and!; [lia | done | done | lia | done].
Qed.

(** X2. When the byte counts in the window are not negative, the speed is
    not negative either, however the timestamps are ordered. *)
Theorem get_speed_nonneg st :
  Forall (λ b, 0 <= b) (recent_bytes st) → (0 <= Stats.get_speed st)%Q.
Proof.
  intros Hpos. unfold Stats.get_speed.
  destruct (length (recent_times st) <? 2)%nat; [apply Qle_refl |].
  destruct (Qlt_le_dec _ _) as [Hspan|_]; [| apply Qle_refl].
  assert (Hsum : 0 <= Stats.sum (recent_bytes st)).
  { unfold Stats.sum. induction Hpos; cbn; lia. }
  apply Qle_shift_div_l; [done |]. rewrite Qmult_0_l.
  apply Qle_shift_div_l; [done |]. rewrite Qmult_0_l.
  change 0%Q with (inject_Z 0). by rewrite <- Zle_Qle.
Qed.

(** Three samples, the clock set back before the last one. *)
Lemma get_speed_nonneg_witness :
  (0 <= Stats.get_speed (record_all calls_clock_back (Stats.init 0)))%Q.
Proof.
  apply get_speed_nonneg. vm_compute. repeat constructor; discriminate.
Defined.

(** ** What [download_file] does to the disk *)

Lemma write_chunks_disk fp chunks : ∀ downloaded_size w,
  dirs (fs (write_chunks fp chunks downloaded_size w).2) = dirs (fs w)
  ∧ files (fs (write_chunks fp chunks downloaded_size w).2) !! fp
    = (λ old, old ++ mjoin chunks.*1) <$> files (fs w) !! fp
  ∧ (∀ p, p ≠ fp →
       files (fs (write_chunks fp chunks downloaded_size w).2) !! p
       = files (fs w) !! p).
Proof.
  induction chunks as [|[data now] rest IH]; intros downloaded_size w.
  - cbn. split_and!; [done | | done].
    destruct (files (fs w) !! fp); cbn; [by rewrite app_nil_r | done].
  - destruct data as [|b data]; cbn [write_chunks].
    + apply IH.
    + unfold mbind, M_bind, f_write, update_fs, update_stats.
      cbn [fst snd].
      match goal with
      | |- context [write_chunks fp rest ?n ?w0] =>
          destruct (IH n w0) as (Hd & Hf & Ho)
      end.
      rewrite Hd, Hf. cbn [fs dirs files]. split_and!; [done | |].
      * rewrite lookup_alter_eq.
        destruct (files (fs w) !! fp); cbn; [| done].
        by rewrite <- app_assoc.
      * intros p Hp. rewrite Ho by done. cbn [fs files].
        by rewrite lookup_alter_ne.
Qed.

Section disk_facts.

Variables (url output_path : string).

Let fp := filepath url output_path.

Lemma try_body_disk a w :
  dirs (fs w) ⊆ dirs (fs (try_body url output_path a w).2)
  ∧ dirs (fs (try_body url output_path a w).2)
    ⊆ dirs (fs w) ∪ list_to_set (ancestors output_path)
  ∧ (∀ p, p ≠ fp →
       files (fs (try_body url output_path a w).2) !! p = files (fs w) !! p)
  ∧ (reaches_body a →
       files (fs (try_body url output_path a w).2) !! fp
       = Some (body_bytes a))
  ∧ (¬ reaches_body a →
       files (fs (try_body url output_path a w).2) !! fp = files (fs w) !! fp).
Proof.
  destruct a as [g r m c o body e].
  unfold try_body, reaches_body, body_bytes.
  unfold http_get, os_makedirs, open_file, mbind, M_bind, may_raise, emit,
    update_fs, mret, M_ret.
  cbn [requests_get raise_for_status makedirs content_length open_wb
       iter_content iter_end first_raised].
  destruct g as [eg|]; [cbn; split_and!; done || set_solver |].
  destruct r as [er|]; [cbn; split_and!; done || set_solver |].
  destruct m as [em|]; [cbn; split_and!; done || set_solver |].
  destruct c as [ec|]; [cbn; split_and!; done || set_solver |].
  destruct o as [eo|]; [cbn; split_and!; done || set_solver |].
  match goal with
  | |- context [write_chunks ?f body 0 ?w0] =>
      destruct (write_chunks_disk f body 0 w0) as (Hd & Hf & Ho);
      destruct (write_chunks f body 0 w0) as [[ex|n] w'] eqn:Hw
  end.
  - cbn [fst snd] in *. cbn [fs dirs files] in Hd, Hf, Ho.
    rewrite lookup_insert_eq in Hf. cbn in Hf.
    split_and!; [set_solver | set_solver | | done | done].
    intros p Hp. rewrite Ho by done. by rewrite lookup_insert_ne.
  - cbn [fst snd] in *. cbn [fs dirs files] in Hd, Hf, Ho.
    rewrite lookup_insert_eq in Hf. cbn in Hf.
    assert (Hfr : ∀ p, p ≠ fp → files (fs w') !! p = files (fs w) !! p).
    { intros p Hp. rewrite Ho by done. by rewrite lookup_insert_ne. }
    destruct e as [ee|]; cbn [fst snd];
      (split_and!; [set_solver | set_solver | done | done | done]).
Qed.

Variables (max_retries : Z) (net : Z → attempt_env).

Lemma retry_loop_frame attempts : ∀ w,
  dirs (fs w) ⊆ dirs (fs (retry_loop url output_path max_retries net attempts w).2)
  ∧ dirs (fs (retry_loop url output_path max_retries net attempts w).2)
    ⊆ dirs (fs w) ∪ list_to_set (ancestors output_path)
  ∧ (∀ p, p ≠ fp →
       files (fs (retry_loop url output_path max_retries net attempts w).2) !! p
       = files (fs w) !! p).
Proof.
  induction attempts as [|attempt rest IH]; intros w; [cbn; set_solver |].
  cbn [retry_loop].
  destruct (try_body_disk (net attempt) w) as (Hd1 & Hd2 & Ho & _).
  destruct (try_body url output_path (net attempt) w) as [[[e|e]|r] w'];
    cbn [fst snd] in *; try done.
  destruct (attempt =? max_retries - 1); cbn [fst snd]; [done |].
  destruct (IH (sleep (2 ^ attempt) w')) as (IH1 & IH2 & IH3).
  cbn [sleep fs] in IH1, IH2, IH3.
  split_and!; [set_solver | set_solver |].
  intros p Hp. by rewrite IH3, Ho.
Qed.

End disk_facts.

Lemma download_file_disk url output_path max_retries net w :
  (∀ p, p ≠ filepath url output_path →
        files (fs (download_file url output_path max_retries net w).2) !! p
        = files (fs w) !! p)
  ∧ dirs (fs w) ⊆ dirs (fs (download_file url output_path max_retries net w).2)
  ∧ dirs (fs (download_file url output_path max_retries net w).2)
    ⊆ dirs (fs w) ∪ list_to_set (ancestors output_path).
Proof.
  unfold download_file. destruct (path_exists _ _); [cbn; set_solver |].
  destruct (retry_loop_frame url output_path max_retries net
              (range max_retries) w) as (H1 & H2 & H3).
  done.
Qed.

(** X3. Whatever the outside does, [download_file] changes no file other
    than its target, removes no directory, and makes no directory other than
    the output directory and its ancestors. *)
Theorem download_file_frame url output_path max_retries net w :
  (∀ p, p ≠ filepath url output_path →
        files (fs (download_file url output_path max_retries net w).2) !! p
        = files (fs w) !! p)
  ∧ dirs (fs w) ⊆ dirs (fs (download_file url output_path max_retries net w).2)
  ∧ dirs (fs (download_file url output_path max_retries net w).2)
    ⊆ dirs (fs w) ∪ list_to_set (ancestors output_path).
Proof. apply download_file_disk. Qed.

(** ** What [download_file] asks and returns *)

Section log_facts.

Variables (url output_path : string) (max_retries : Z).
Variable net : Z → attempt_env.

Lemma retry_loop_log (m : nat) : ∀ (k : nat) w,
  (m ≠ 0%nat → Z.of_nat (k + m) = max_retries) →
  (m = 0%nat
   ∧ log (retry_loop url output_path max_retries net
            (map Z.of_nat (seq k m)) w).2 = log w)
  ∨ ∃ j : nat, (j < m)%nat
      ∧ log (retry_loop url output_path max_retries net
               (map Z.of_nat (seq k m)) w).2
        = log w
          ++ flat_map (λ i, [Request url; Sleep (2 ^ Z.of_nat i)]) (seq k j)
          ++ [Request url].
Proof.
  induction m as [|m IH]; intros k w Hm; [by left |].
  right. specialize (Hm ltac:(done)). cbn [seq map retry_loop].
  destruct (try_body_spec url output_path (net (Z.of_nat k)) w)
    as (w' & -> & Hlog & _).
  destruct (attempt_raises (net (Z.of_nat k))) as [[e|e]|];
    [| exists 0%nat; split; [lia | done]..].
  destruct (Z.eqb_spec (Z.of_nat k) (max_retries - 1)) as [Heq|Hne];
    [exists 0%nat; split; [lia | done] |].
  destruct (IH (S k) (sleep (2 ^ Z.of_nat k) w')) as [[-> _]|(j & Hj & ->)];
    [lia | lia |].
  exists (S j). split; [lia |].
  cbn [sleep log seq flat_map]. rewrite Hlog, <- !app_assoc. done.
Qed.

Lemma retry_loop_result attempts : ∀ w r,
  (retry_loop url output_path max_retries net attempts w).1 = Some r →
  result_url r = url
  ∧ 0 <= result_size r
  ∧ (result_success r = false → result_size r = 0)
  ∧ (result_success r = true → result_message r = msg_downloaded url).
Proof.
  induction attempts as [|attempt rest IH]; intros w r; [done |].
  cbn [retry_loop].
  destruct (try_body_spec url output_path (net attempt) w) as (w' & -> & _).
  destruct (attempt_raises (net attempt)) as [[e|e]|].
  - destruct (attempt =? max_retries - 1); [| apply IH].
    intros [= <-]. done.
  - intros [= <-]. done.
  - intros [= <-]. cbn. split_and!; try done.
    unfold chunk_bytes, Stats.sum.
    induction (iter_content (net attempt)) as [|c l IHl]; cbn; lia.
Qed.

End log_facts.

Lemma download_file_log_cases url output_path max_retries net w :
  (log (download_file url output_path max_retries net w).2 = log w
   ∧ (path_exists (filepath url output_path) (fs w) = true ∨ max_retries <= 0))
  ∨ (∃ j : nat,
       Z.of_nat j < max_retries
       ∧ path_exists (filepath url output_path) (fs w) = false
       ∧ log (download_file url output_path max_retries net w).2
         = log w ++ retries_log url j ++ [Request url]
       ∧ requests (log (download_file url output_path max_retries net w).2)
         = requests (log w) ++ replicate (S j) url
       ∧ Stats.sum (sleeps (log (download_file url output_path max_retries
                                   net w).2))
         = Stats.sum (sleeps (log w)) + (2 ^ Z.of_nat j - 1)).
Proof.
  unfold download_file.
  destruct (path_exists _ _) eqn:Hex; [left; split; [done | by left] |].
  destruct (retry_loop_log url output_path max_retries net
              (Z.to_nat max_retries) 0 w) as [[Hm Hlog]|(j & Hj & Hlog)];
    [lia | left; split; [done | right; lia] |].
  right. exists j. fold (retries_log url j) in Hlog. unfold range. rewrite Hlog.
  split_and!; [lia | done | done | |].
  - rewrite !requests_app, requests_retries_log. cbn.
    by rewrite <- replicate_S_end.
  - rewrite !sleeps_app, sleeps_retries_log. cbn. rewrite app_nil_r.
    unfold Stats.sum. rewrite foldr_app.
    assert (Hgeo : ∀ n acc,
               foldr Z.add acc (map (λ i : nat, 2 ^ Z.of_nat i) (seq 0 n))
               = acc + (2 ^ Z.of_nat n - 1)).
    { clear. induction n as [|n IHn]; intros acc; [cbn; lia |].
      rewrite seq_S, map_app, foldr_app. cbn [map foldr].
      rewrite IHn, Nat2Z.inj_succ, Z.pow_succ_r by lia. cbn. lia. }
    rewrite Hgeo.
    assert (Hacc : ∀ l acc, foldr Z.add acc l = foldr Z.add 0 l + acc).
    { clear. induction l as [|x l IHl]; intros acc; cbn; [lia |].
      rewrite IHl. lia. }
    rewrite Hacc. lia.
Qed.

(** X4. Whatever the outside does, what one call of [download_file] adds to
    the log of requests and sleeps is either nothing, or, for some [j] below
    [max_retries]: request, sleep 1, request, sleep 2, ..., sleep 2^(j-1),
    request.  So it asks for nothing but its own URL, at most [max_retries]
    times, never sleeps after its last request, and sleeps 2^j - 1 seconds
    in all.  It adds nothing exactly when the target is in place or no
    attempt is allowed. *)
Theorem download_file_log_shape url output_path max_retries net w :
  (log (download_file url output_path max_retries net w).2 = log w
   ∧ (path_exists (filepath url output_path) (fs w) = true ∨ max_retries <= 0))
  ∨ (∃ j : nat,
       Z.of_nat j < max_retries
       ∧ path_exists (filepath url output_path) (fs w) = false
       ∧ log (download_file url output_path max_retries net w).2
         = log w ++ retries_log url j ++ [Request url]
       ∧ requests (log (download_file url output_path max_retries net w).2)
         = requests (log w) ++ replicate (S j) url
       ∧ Stats.sum (sleeps (log (download_file url output_path max_retries
                                   net w).2))
         = Stats.sum (sleeps (log w)) + (2 ^ Z.of_nat j - 1)).
Proof. apply download_file_log_cases. Qed.

(** X5. Every tuple [download_file] returns carries the URL it was given
    and a size that is not negative; a failure tuple carries size 0, and so
    does the tuple of the existence short-circuit. *)
Theorem download_file_result url output_path max_retries net w r :
  (download_file url output_path max_retries net w).1 = Some r →
  result_url r = url
  ∧ 0 <= result_size r
  ∧ (result_success r = false → result_size r = 0)
  ∧ (result_message r = msg_exists url → result_size r = 0)
  ∧ (result_success r = true →
       result_message r = msg_exists url ∨ result_message r = msg_downloaded url).
Proof.
  unfold download_file. destruct (path_exists _ _).
  - intros [= <-]. cbn. split_and!; try done. by left.
  - intros Hr.
    destruct (retry_loop_result url output_path max_retries net _ _ _ Hr)
      as (Hu & Hs & Hf & Hm).
    split_and!; try done.
    + intros Hmsg. destruct (result_success r) eqn:Hok; [| by apply Hf].
      rewrite Hm in Hmsg by done. discriminate.
    + intros Hok. right. by apply Hm.
Qed.

(** A reset, a timeout and a success. *)
Lemma download_file_result_witness :
  result_url (sample_url, true, msg_downloaded sample_url, 2) = sample_url
  ∧ 0 <= result_size (sample_url, true, msg_downloaded sample_url, 2).
Proof.
  destruct (download_file_result sample_url sample_dir 3 flaky_net empty_world
              (sample_url, true, msg_downloaded sample_url, 2))
    as (Hu & Hs & _).
  - vm_compute. reflexivity.
  - split; [exact Hu | exact Hs].
Defined.

Lemma chunk_bytes_length chunks :
  chunk_bytes chunks = Z.of_nat (length (mjoin chunks.*1)).
Proof.
  induction chunks as [|[data now] l IHl]; [done |].
  rewrite chunk_bytes_cons, IHl, fmap_cons. cbn [fst].
  change (mjoin (data :: l.*1)) with (data ++ mjoin l.*1).
  rewrite length_app. lia.
Qed.

(** X6. The target is not in place, attempts [0 .. N-1] end in transport
    errors and attempt [N] succeeds.  Then the target file holds the chunks
    of attempt [N], in order and nothing else, whatever earlier attempts had
    written, and the size in the tuple is the length of the file. *)
Theorem download_file_persists_body url output_path max_retries net w (N : nat) :
  path_exists (filepath url output_path) (fs w) = false →
  Z.of_nat N < max_retries →
  (∀ i : nat, (i < N)%nat → transport_error (net (Z.of_nat i))) →
  attempt_raises (net (Z.of_nat N)) = None →
  files (fs (download_file url output_path max_retries net w).2)
    !! filepath url output_path
  = Some (body_bytes (net (Z.of_nat N)))
  ∧ (download_file url output_path max_retries net w).1
    = Some (url, true, msg_downloaded url,
            Z.of_nat (length (body_bytes (net (Z.of_nat N))))).
Proof.
  intros Hex HN Hfail Hok. unfold download_file. rewrite Hex.
  destruct (range_split N max_retries HN) as [rest ->].
  destruct (retry_loop_retries url output_path max_retries net N
              (Z.of_nat N :: rest) w Hfail) as (w1 & -> & _); [done |].
  cbn [retry_loop].
  destruct (try_body_disk url output_path (net (Z.of_nat N)) w1)
    as (_ & _ & _ & Hbody & _).
  destruct (try_body_spec url output_path (net (Z.of_nat N)) w1)
    as (w2 & Htry & _).
  rewrite Htry in Hbody |- *. rewrite Hok. cbn [fst snd] in *.
  split.
  - apply Hbody. unfold reaches_body. unfold attempt_raises in Hok.
    destruct (net (Z.of_nat N)) as [[?|] [?|] [?|] [?|] [?|] ? ?]; done.
  - do 3 f_equal. apply chunk_bytes_length.
Qed.

(** Two timeouts, then a body of two bytes. *)
Lemma download_file_persists_body_witness :
  files (fs (download_file sample_url sample_dir 3 flaky_net empty_world).2)
    !! "work/archives/2024-01-01-10.json.gz"
  = Some [Byte.x1f; Byte.x8b].
Proof.
  destruct (download_file_persists_body sample_url sample_dir 3 flaky_net
              empty_world 2) as [Hfile _].
  - vm_compute. reflexivity.
  - lia.
  - intros i Hi. exists "Read timed out.".
    destruct i as [|[|i]]; [reflexivity | reflexivity | lia].
  - reflexivity.
  - exact Hfile.
Defined.

(** X7. After a call of [download_file] that returned a success, any later
    call for the same URL and directory, from the world the first one left
    and with any retry count and any network, returns the "Already exists"
    tuple with size 0 and changes nothing. *)
Theorem download_file_twice url output_path max_retries max_retries' net net'
    w r :
  (download_file url output_path max_retries net w).1 = Some r →
  result_success r = true →
  download_file url output_path max_retries' net'
    (download_file url output_path max_retries net w).2
  = (Some (url, true, msg_exists url, 0),
     (download_file url output_path max_retries net w).2).
Proof.
  intros Hr Hok.
  destruct (download_file_paths url output_path max_retries net w) as [_ Hin].
  specialize (Hin r Hr Hok). apply path_exists_paths in Hin.
  unfold download_file at 1. by rewrite Hin.
Qed.

(** A download, then a second call with the network down. *)
Lemma download_file_twice_witness :
  (download_file sample_url sample_dir 3 down_net
     (download_file sample_url sample_dir 3 flaky_net empty_world).2).1
  = Some (sample_url, true, "Already exists: 2024-01-01-10.json.gz", 0).
Proof.
  rewrite (download_file_twice sample_url sample_dir 3 3 flaky_net down_net
             empty_world (sample_url, true, msg_downloaded sample_url, 2)).
  - reflexivity.
  - vm_compute. reflexivity.
  - reflexivity.
Defined.

(** X8. No cleanup of partial files.  The target is not in place, attempts
    [0 .. k-1] are retried, and attempt [k] opens the file and then ends the
    call with a failure (an exception that is not a [RequestException], or a
    [RequestException] on the last attempt).  The call returns a failure
    tuple, yet the target file stays, holding the chunks written before the
    exception; a later call therefore takes the short-circuit and reports
    the truncated file as a success with size 0. *)
Theorem download_file_partial_file url output_path max_retries max_retries'
    net net' w (k : nat) :
  path_exists (filepath url output_path) (fs w) = false →
  Z.of_nat k < max_retries →
  (∀ i : nat, (i < k)%nat → transport_error (net (Z.of_nat i))) →
  reaches_body (net (Z.of_nat k)) →
  ends_in_failure max_retries (Z.of_nat k) (net (Z.of_nat k)) →
  (∃ msg, (download_file url output_path max_retries net w).1
          = Some (url, false, msg, 0))
  ∧ files (fs (download_file url output_path max_retries net w).2)
      !! filepath url output_path
    = Some (body_bytes (net (Z.of_nat k)))
  ∧ download_file url output_path max_retries' net'
      (download_file url output_path max_retries net w).2
    = (Some (url, true, msg_exists url, 0),
       (download_file url output_path max_retries net w).2).
Proof.
  intros Hex Hk Hfail Hbody Hend.
  assert (Hfile :
    (∃ msg, (download_file url output_path max_retries net w).1
            = Some (url, false, msg, 0))
    ∧ files (fs (download_file url output_path max_retries net w).2)
        !! filepath url output_path
      = Some (body_bytes (net (Z.of_nat k)))).
  { unfold download_file. rewrite Hex.
    destruct (range_split k max_retries Hk) as [rest ->].
    destruct (retry_loop_retries url output_path max_retries net k
                (Z.of_nat k :: rest) w Hfail) as (w1 & -> & _); [done |].
    cbn [retry_loop].
    destruct (try_body_disk url output_path (net (Z.of_nat k)) w1)
      as (_ & _ & _ & Hb & _).
    specialize (Hb Hbody).
    destruct (try_body_spec url output_path (net (Z.of_nat k)) w1)
      as (w2 & Htry & _).
    rewrite Htry in Hb |- *. cbn [fst snd] in Hb.
    destruct Hend as [[e He]|[Hlast [e He]]]; rewrite He.
    - cbn [fst snd]. split; [by eexists | done].
    - rewrite (proj2 (Z.eqb_eq _ _)) by done. cbn [fst snd].
      split; [by eexists | done]. }
  destruct Hfile as [Hres Hfile]. split_and!; [done | done |].
  unfold download_file at 1.
  assert (Hin : path_exists (filepath url output_path)
                  (fs (download_file url output_path max_retries net w).2)
                = true).
  { apply path_exists_paths. unfold paths. apply elem_of_union_r, elem_of_dom.
    by eexists. }
  by rewrite Hin.
Qed.

(** A disk that fills up after three bytes; then a call with a working
    network. *)
Lemma download_file_partial_file_witness :
  files (fs (download_file sample_url sample_dir 3 cut_by_disk_net
               empty_world).2)
    !! "work/archives/2024-01-01-10.json.gz"
  = Some [Byte.x1f; Byte.x8b; Byte.x08]
  ∧ (download_file sample_url sample_dir 3 flaky_net
       (download_file sample_url sample_dir 3 cut_by_disk_net empty_world).2).1
    = Some (sample_url, true, "Already exists: 2024-01-01-10.json.gz", 0).
Proof.
  destruct (download_file_partial_file sample_url sample_dir 3 3
              cut_by_disk_net flaky_net empty_world 0) as (_ & Hfile & Hnext).
  - vm_compute. reflexivity.
  - lia.
  - intros i Hi. lia.
  - reflexivity.
  - left. by eexists.
  - split; [exact Hfile |]. by rewrite Hnext.
Defined.

(** ** More on [generate_urls] *)

(** X9. For valid datetimes with [start_dt] not after [end_dt] and [end_dt]
    before the last hour, [generate_urls] returns one item per hour from the
    hour of [start_dt] to the hour of [end_dt]: the first bucket is the hour
    of [start_dt], neighbours are one hour apart, every URL is the archive
    URL of its bucket, and every bucket lies between the hour of [start_dt]
    and [end_dt]. *)
Theorem generate_urls_hourly (start_dt end_dt : datetime) :
  valid start_dt → start_dt <= end_dt → end_dt < last_hour →
  ∃ items : list WorkItem,
    generate_urls start_dt end_dt = inr items
    ∧ Z.of_nat (length items)
      = (replace_minute_second_microsecond_0 end_dt
         - replace_minute_second_microsecond_0 start_dt) / us_per_hour + 1
    ∧ (start_dt = end_dt → length items = 1%nat)
    ∧ (items.*2 !! 0%nat = Some (replace_minute_second_microsecond_0 start_dt))
    ∧ (∀ (i : nat) b b', items.*2 !! i = Some b → items.*2 !! S i = Some b' →
         b' = b + us_per_hour)
    ∧ (∀ (i : nat) u b, items !! i = Some (u, b) →
         u = archive_url b
         ∧ replace_minute_second_microsecond_0 start_dt <= b <= end_dt).
Proof. exact (generate_urls_shape start_dt end_dt). Qed.

(** Two hours and a half, from 10:00. *)
Lemma generate_urls_hourly_witness :
  ∃ items, generate_urls t10 t12_30 = inr items
           ∧ Z.of_nat (length items) = 3.
Proof.
  destruct (generate_urls_hourly t10 t12_30) as (items & Hgen & Hlen & _).
  - split; vm_compute; discriminate.
  - vm_compute; discriminate.
  - reflexivity.
  - exists items. split; [exact Hgen | rewrite Hlen; reflexivity].
Defined.

(** The loop only ever appends to its accumulator. *)
Lemma generate_urls_loop_prefix end_dt current urls items :
  generate_urls_loop end_dt current urls = inr items →
  ∃ more, items = urls ++ more.
Proof.
  funelim (generate_urls_loop end_dt current urls); intros Hret.
  - exists []. rewrite app_nil_r. congruence.
  - done.
  - match goal with
    | IH : ∀ items, _ = inr items → _ |- _ =>
        destruct (IH _ Hret) as [more ->]
    end.
    rewrite <- app_assoc. by eexists.
Qed.

Lemma generate_urls_hours start_dt end_dt :
  valid start_dt →
  replace_minute_second_microsecond_0 start_dt <= end_dt →
  end_dt < last_hour →
  generate_urls start_dt end_dt
  = inr (map work_item
           (buckets (replace_minute_second_microsecond_0 start_dt)
              (Z.to_nat
                 ((replace_minute_second_microsecond_0 end_dt
                   - replace_minute_second_microsecond_0 start_dt)
                  / us_per_hour + 1)))).
Proof.
  intros [Hs0 _] Hse Hlast. unfold generate_urls.
  rewrite (generate_urls_loop_returns
             (Z.to_nat
                ((replace_minute_second_microsecond_0 end_dt
                  - replace_minute_second_microsecond_0 start_dt)
                 / us_per_hour + 1))); [done | | |];
    rewrite !replace_is_floor in *;
    change last_hour with 315537894000000000 in Hlast;
    change max_value with 315537897599999999;
    change us_per_hour with 3600000000 in *;
    (rewrite ?Z2Nat.id by (Z.div_mod_to_equations; lia));
    try intros _; Z.div_mod_to_equations; lia.
Qed.

Lemma generate_urls_hours_overflow start_dt end_dt :
  valid start_dt → valid end_dt →
  replace_minute_second_microsecond_0 start_dt <= end_dt →
  last_hour <= end_dt →
  generate_urls start_dt end_dt = inl overflow_error.
Proof.
  intros [Hs0 Hs1] [_ He] Hse Hlast. unfold generate_urls.
  apply (generate_urls_loop_raises
           (Z.to_nat ((last_hour - replace_minute_second_microsecond_0 start_dt)
                      / us_per_hour)));
    rewrite !replace_is_floor in *;
    change last_hour with 315537894000000000 in *;
    change max_value with 315537897599999999 in *;
    change us_per_hour with 3600000000 in *;
    (rewrite ?Z2Nat.id by (Z.div_mod_to_equations; lia));
    Z.div_mod_to_equations; lia.
Qed.

Lemma generate_urls_before start_dt end_dt :
  end_dt < replace_minute_second_microsecond_0 start_dt →
  generate_urls start_dt end_dt = inr [].
Proof.
  intros Hlt. unfold generate_urls.
  rewrite (generate_urls_loop_returns 0); [done | lia | done | done].
Qed.

(** X10. [generate_urls] returns the empty list exactly when [end_dt] is
    earlier than [start_dt] rounded down to its hour.  So a start later than
    the end but within the same hour (10:30 to 10:15) still yields that
    hour's archive. *)
Theorem generate_urls_empty_iff start_dt end_dt :
  generate_urls start_dt end_dt = inr []
  ↔ end_dt < replace_minute_second_microsecond_0 start_dt.
Proof.
  split; [| apply generate_urls_before].
  unfold generate_urls. rewrite generate_urls_loop_eq.
  destruct (decide (_ <= end_dt)) as [Hle|Hgt]; [| lia].
  destruct (add_hour _) as [e|next]; [done |].
  intros Hret. apply generate_urls_loop_prefix in Hret as [more Hmore].
  by destruct more.
Qed.

(** X11. For valid datetimes, [generate_urls] raises exactly when the range
    is not empty and [end_dt] lies in the last hour of year 9999, and what it
    raises is the [OverflowError] of the last increment; in every other case
    it returns a list. *)
Theorem generate_urls_raises_iff start_dt end_dt :
  valid start_dt → valid end_dt →
  (∀ e, generate_urls start_dt end_dt = inl e →
        e = OtherException "date value out of range")
  ∧ ((∃ e, generate_urls start_dt end_dt = inl e)
     ↔ replace_minute_second_microsecond_0 start_dt <= end_dt
       ∧ make 9999 12 31 23 0 0 0 <= end_dt).
Proof.
  intros Hs He. fold last_hour.
  destruct (decide (replace_minute_second_microsecond_0 start_dt <= end_dt))
    as [Hle|Hgt].
  - destruct (decide (last_hour <= end_dt)) as [Hlast|Hin].
    + rewrite generate_urls_hours_overflow by done.
      split; [by intros e [= <-] | split; [done | by eexists]].
    + rewrite generate_urls_hours by (done || lia).
      split; [done | split; [by intros [? ?] | lia]].
  - rewrite generate_urls_before by lia.
    split; [done | split; [by intros [? ?] | lia]].
Qed.

(** The last minute of year 9999. *)
Lemma generate_urls_raises_iff_witness :
  ∃ e, generate_urls (make 9999 12 31 20 15 0 0) (make 9999 12 31 23 59 0 0)
       = inl e.
Proof.
  destruct (generate_urls_raises_iff (make 9999 12 31 20 15 0 0)
              (make 9999 12 31 23 59 0 0)) as [_ Hiff].
  - split; vm_compute; discriminate.
  - split; vm_compute; discriminate.
  - apply Hiff. split; vm_compute; discriminate.
Defined.

(** ** More on [download_archives] *)

Lemma run_tasks_no_urls output_path net l w :
  run_tasks [] output_path net l w = ([], w).
Proof. induction l as [|i l IH]; [done |]. cbn. apply IH. Qed.

(** X12. When [end_dt] is earlier than the hour of [start_dt], the range is
    empty and [download_archives] returns at once, before the tracker and
    the pool are made: no statistics are printed, the world is unchanged,
    and the worker count is not even looked at. *)
Theorem download_archives_empty_range start_dt end_dt output_path max_workers
    order net t_start t_end w :
  end_dt < replace_minute_second_microsecond_0 start_dt →
  download_archives start_dt end_dt output_path max_workers order net
    t_start t_end w = (inr None, w)
  ∧ pool_results start_dt end_dt output_path order net t_start w = [].
Proof.
  intros Hlt. unfold download_archives, pool_results.
  rewrite generate_urls_before by done. cbn [map]. split; [done |].
  by rewrite run_tasks_no_urls.
Qed.

(** From half past twelve back to ten, with no worker allowed. *)
Lemma download_archives_empty_range_witness :
  download_archives t12_30 t10 sample_dir 0 [] served_pool 0 1 empty_world
  = (inr None, empty_world).
Proof.
  apply (download_archives_empty_range t12_30 t10 sample_dir 0 [] served_pool
           0 1 empty_world).
  reflexivity.
Defined.

(** X13. With a range that is not empty and a worker count below 1, the pool
    constructor raises its [ValueError] before any task is submitted:
    nothing is requested, no file or directory is made, no statistics are
    printed. *)
Theorem download_archives_no_worker start_dt end_dt output_path max_workers
    order net t_start t_end w :
  valid start_dt →
  replace_minute_second_microsecond_0 start_dt <= end_dt →
  end_dt < make 9999 12 31 23 0 0 0 →
  max_workers <= 0 →
  (download_archives start_dt end_dt output_path max_workers order net
     t_start t_end w).1
  = inl (OtherException "max_workers must be greater than 0")
  ∧ fs (download_archives start_dt end_dt output_path max_workers order net
          t_start t_end w).2 = fs w
  ∧ log (download_archives start_dt end_dt output_path max_workers order net
           t_start t_end w).2 = log w.
Proof.
  intros Hv Hle Hlast Hw. unfold download_archives.
  rewrite generate_urls_hours by done.
  set (n := Z.to_nat _).
  assert (Hn : n ≠ 0%nat).
  { subst n. rewrite !replace_is_floor in *.
    change us_per_hour with 3600000000 in *.
    destruct Hv as [Hv _].
    assert (0 <= ((end_dt - end_dt `mod` 3600000000)
                  - (start_dt - start_dt `mod` 3600000000)) `div` 3600000000)
      by (Z.div_mod_to_equations; lia).
    lia. }
  destruct n as [|n]; [done |]. rewrite buckets_S. cbn [map].
  by rewrite (proj2 (Z.leb_le _ _)) by done.
Qed.

Lemma download_archives_no_worker_witness :
  (download_archives t10 t12_30 sample_dir 0 [] served_pool 0 1 empty_world).1
  = inl (OtherException "max_workers must be greater than 0").
Proof.
  destruct (download_archives_no_worker t10 t12_30 sample_dir 0 [] served_pool
              0 1 empty_world) as [Hraise _].
  - split; vm_compute; discriminate.
  - vm_compute; discriminate.
  - reflexivity.
  - lia.
  - exact Hraise.
Defined.

Section pool_frame.

Variables (urls : list string) (output_path : string).
Variable net : nat → Z → attempt_env.

Lemma run_tasks_requests l : ∀ w,
  ∃ new,
    requests (log (run_tasks urls output_path net l w).2)
    = requests (log w) ++ new
    ∧ Forall (λ u, u ∈ urls) new
    ∧ (length new <= 3 * length l)%nat.
Proof.
  induction l as [|i l IH]; intros w.
  - exists []. cbn. by rewrite app_nil_r.
  - destruct (urls !! i) as [u|] eqn:Hu.
    + rewrite (run_tasks_cons urls output_path net i u) by done. cbn [snd].
      destruct (IH (download_file u output_path 3 (net i) w).2)
        as (new & -> & Hall & Hlen).
      destruct (download_file_log_cases u output_path 3 (net i) w)
        as [[-> _]|(j & Hj & _ & _ & -> & _)].
      * exists new. split_and!; [done | done | cbn; lia].
      * exists (replicate (S j) u ++ new). rewrite <- app_assoc.
        split_and!; [done | |].
        -- apply Forall_app. split; [| done].
           apply Forall_replicate. by eapply list_elem_of_lookup_2.
        -- rewrite length_app, length_replicate. cbn [length]. lia.
    + rewrite (run_tasks_skip_index urls output_path net) by done.
      destruct (IH w) as (new & -> & Hall & Hlen).
      exists new. split_and!; [done | done | cbn; lia].
Qed.

Lemma run_tasks_frame l : ∀ w,
  (∀ p, (∀ u, u ∈ urls → p ≠ filepath u output_path) →
        files (fs (run_tasks urls output_path net l w).2) !! p
        = files (fs w) !! p)
  ∧ dirs (fs w) ⊆ dirs (fs (run_tasks urls output_path net l w).2)
  ∧ dirs (fs (run_tasks urls output_path net l w).2)
    ⊆ dirs (fs w) ∪ list_to_set (ancestors output_path).
Proof.
  induction l as [|i l IH]; intros w; [cbn; set_solver |].
  destruct (urls !! i) as [u|] eqn:Hu.
  - rewrite (run_tasks_cons urls output_path net i u) by done. cbn [snd].
    destruct (IH (download_file u output_path 3 (net i) w).2) as (IH1 & IH2 & IH3).
    destruct (download_file_disk u output_path 3 (net i) w) as (F1 & F2 & F3).
    split_and!; [| set_solver | set_solver].
    intros p Hp. rewrite IH1 by done. apply F1, Hp.
    by eapply list_elem_of_lookup_2.
  - rewrite (run_tasks_skip_index urls output_path net) by done. apply IH.
Qed.

End pool_frame.

(** X15. A run of [download_archives] changes no file other than the
    targets of the URLs [generate_urls] returned, removes no directory, and
    makes none but the output directory and its ancestors. *)
Theorem download_archives_frame start_dt end_dt output_path max_workers
    order net t_start t_end w :
  (∀ p, (∀ urls u, generate_urls start_dt end_dt = inr urls → u ∈ urls.*1 →
                   p ≠ filepath u output_path) →
        files (fs (download_archives start_dt end_dt output_path max_workers
                     order net t_start t_end w).2) !! p
        = files (fs w) !! p)
  ∧ dirs (fs w)
    ⊆ dirs (fs (download_archives start_dt end_dt output_path max_workers
                  order net t_start t_end w).2)
  ∧ dirs (fs (download_archives start_dt end_dt output_path max_workers
                order net t_start t_end w).2)
    ⊆ dirs (fs w) ∪ list_to_set (ancestors output_path).
Proof.
  destruct (download_archives_cases start_dt end_dt output_path max_workers
              order net t_start t_end w)
    as [(e & Hgen & ->) | [[Hgen ->] | [(urls & e & Hgen & _ & Hw & ->)
       | (urls & s & Hgen & _ & _ & -> & _)]]]; cbn [snd fs];
    [set_solver.. |].
  destruct (run_tasks_frame (map fst urls) output_path net
              (completion_order order (length urls))
              {| fs := fs w; stats := Stats.init t_start; log := log w |})
    as (F1 & F2 & F3).
  cbn [fs] in F1, F2, F3. split_and!; [| done | done].
  intros p Hp. apply F1. intros u Hu. by eapply Hp.
Qed.

(** ** The calendar: fields and ordinals agree *)

Lemma cycle_days_ok_all days : ∀ r,
  cycle_days_ok days r = true →
  ∀ k, r <= k < r + Z.of_nat days → cycle_day_ok k = true.
Proof.
  induction days as [|days IH]; intros r Hok k Hk; [lia |].
  cbn [cycle_days_ok] in Hok. apply andb_true_iff in Hok as [Hr Hrest].
  destruct (decide (k = r)) as [->|Hne]; [done |].
  apply (IH (r + 1)); [done | lia].
Qed.

Lemma cycle_checked : cycle_days_ok (Z.to_nat 146097) 0 = true.
Proof. vm_compute. reflexivity. Qed.

Lemma ord2ymd_cycle q r :
  0 <= r < 146097 →
  ord2ymd (146097 * q + r + 1)
  = let '(y, m, d) := ord2ymd (r + 1) in (y + 400 * q, m, d).
Proof.
  intros Hr. unfold ord2ymd.
  replace (146097 * q + r + 1 - 1) with (r + q * 146097) by lia.
  replace (r + 1 - 1) with r by lia.
  rewrite Z.div_add, Z.mod_add by done.
  rewrite (Z.div_small r 146097), (Z.mod_small r 146097) by done.
  cbv zeta.
  repeat match goal with
    | |- context [if ?c then _ else _] => destruct c
    end; f_equal; try f_equal; lia.
Qed.

Lemma is_leap_cycle y q : is_leap (y + 400 * q) = is_leap y.
Proof.
  unfold is_leap.
  replace (y + 400 * q) with (y + (100 * q) * 4) at 1 by lia.
  replace (y + 400 * q) with (y + (4 * q) * 100) at 1 by lia.
  replace (y + 400 * q) with (y + q * 400) by lia.
  by rewrite !Z.mod_add.
Qed.

Lemma days_in_month_cycle y q m :
  days_in_month (y + 400 * q) m = days_in_month y m.
Proof. unfold days_in_month. by rewrite is_leap_cycle. Qed.

Lemma ymd2ord_cycle y q m d :
  ymd2ord (y + 400 * q) m d = ymd2ord y m d + 146097 * q.
Proof.
  unfold ymd2ord, days_before_month, days_before_year.
  assert (Hm : ∀ months,
             days_before_month_from (y + 400 * q) months
             = days_before_month_from y months).
  { induction months as [|x months IH]; [done |].
    cbn. by rewrite IH, days_in_month_cycle. }
  rewrite Hm. cbv zeta.
  replace (y + 400 * q - 1) with (y - 1 + (100 * q) * 4) at 2 by lia.
  replace (y + 400 * q - 1) with (y - 1 + (4 * q) * 100) at 2 by lia.
  replace (y + 400 * q - 1) with (y - 1 + q * 400) at 2 by lia.
  rewrite !Z.div_add by done. lia.
Qed.

(** Every ordinal from 1 on is the ordinal of the date [ord2ymd] gives for
    it, and that date is a date of the calendar. *)
Lemma ord2ymd_spec n :
  1 <= n →
  ∃ y m d, ord2ymd n = (y, m, d)
    ∧ 1 <= y ∧ 1 <= m <= 12 ∧ 1 <= d <= days_in_month y m
    ∧ ymd2ord y m d = n.
Proof.
  intros Hn.
  set (q := (n - 1) / 146097). set (r := (n - 1) mod 146097).
  assert (Hr : 0 <= r < 146097) by (subst r; by apply Z.mod_pos_bound).
  assert (Hq : 0 <= q) by (subst q; apply Z.div_pos; lia).
  assert (Hnqr : n = 146097 * q + r + 1).
  { subst q r. pose proof (Z.div_mod (n - 1) 146097 ltac:(done)). lia. }
  pose proof (cycle_days_ok_all _ _ cycle_checked r ltac:(lia)) as Hok.
  rewrite Hnqr, ord2ymd_cycle by done.
  unfold cycle_day_ok in Hok.
  destruct (ord2ymd (r + 1)) as [[y m] d].
  repeat (apply andb_true_iff in Hok as [Hok ?]).
  exists (y + 400 * q), m, d.
  rewrite days_in_month_cycle, ymd2ord_cycle. split; [done |]. lia.
Qed.

Lemma days_before_year_mono y y' :
  1 <= y → y <= y' → days_before_year y <= days_before_year y'.
Proof.
  intros Hy Hle. unfold days_before_year. cbv zeta.
  Z.div_mod_to_equations. lia.
Qed.

Lemma days_before_month_nonneg y m : 0 <= days_before_month y m.
Proof.
  unfold days_before_month.
  induction (map Z.of_nat (seq 1 (Z.to_nat (m - 1)))) as [|x l IH]; [done |].
  cbn. unfold days_in_month at 1.
  repeat match goal with |- context [if ?c then _ else _] => destruct c end;
    lia.
Qed.

(** The fields of a valid [datetime] are in their ranges and give the
    [datetime] back. *)
Lemma fields_spec t :
  valid t →
  1 <= year t <= 9999
  ∧ 1 <= month t <= 12
  ∧ 1 <= day t <= days_in_month (year t) (month t)
  ∧ 0 <= hour t < 24 ∧ 0 <= minute t < 60 ∧ 0 <= second t < 60
  ∧ 0 <= microsecond t < 1000000
  ∧ make (year t) (month t) (day t) (hour t) (minute t) (second t)
      (microsecond t) = t.
Proof.
  intros [H0 Hmax]. change max_value with 315537897599999999 in Hmax.
  unfold year, month, day, make.
  destruct (ord2ymd_spec (toordinal t)) as (y & m & d & -> & Hy & Hm & Hd & Hord).
  { unfold toordinal. change us_per_day with 86400000000.
    Z.div_mod_to_equations. lia. }
  cbn [fst snd]. rewrite Hord.
  assert (Hy' : y <= 9999).
  { destruct (decide (y <= 9999)) as [|Hbig]; [done | exfalso].
    pose proof (days_before_year_mono 10000 y ltac:(lia) ltac:(lia)) as Hmono.
    change (days_before_year 10000) with 3652059 in Hmono.
    pose proof (days_before_month_nonneg y m).
    unfold ymd2ord, toordinal in Hord.
    change us_per_day with 86400000000 in Hord.
    Z.div_mod_to_equations. lia. }
  unfold toordinal, hour, minute, second, microsecond.
  change us_per_day with 86400000000. change us_per_hour with 3600000000.
  change us_per_minute with 60000000. change us_per_second with 1000000.
  split_and!; try done; try lia; Z.div_mod_to_equations; lia.
Qed.

(** ** Strings: prefixes, reversal, digits *)

Lemma app_cons a s t : String a s +:+ t = String a (s +:+ t).
Proof. reflexivity. Qed.

Lemma app_empty_r s : s +:+ "" = s.
Proof. induction s as [|a s IH]; [done |]. by rewrite app_cons, IH. Qed.

Lemma all_chars_app p s t :
  Path.all_chars p (s +:+ t) = Path.all_chars p s && Path.all_chars p t.
Proof.
  induction s as [|a s IH]; [done |].
  rewrite app_cons. cbn [Path.all_chars]. rewrite IH. by rewrite andb_assoc.
Qed.

Lemma before_all stop s :
  Path.all_chars (λ c, negb (stop c)) s = true → Path.before stop s = s.
Proof.
  induction s as [|a s IH]; [done |]. cbn.
  intros [Ha Hs]%andb_true_iff. apply negb_true_iff in Ha. rewrite Ha.
  by rewrite IH.
Qed.

Lemma contains_none c s :
  Path.all_chars (λ x, negb (Path.is_char c x)) s = true →
  Path.contains c s = false.
Proof.
  induction s as [|a s IH]; [done |]. cbn.
  intros [Ha Hs]%andb_true_iff. apply negb_true_iff in Ha.
  unfold Path.is_char in Ha. rewrite Ha. by apply IH.
Qed.

Lemma before_rev_app stop s : ∀ acc,
  Path.all_chars (λ c, negb (stop c)) s = true →
  Path.before stop (String.rev_app s acc)
  = String.rev_app s (Path.before stop acc).
Proof.
  induction s as [|a s IH]; intros acc; [done |]. cbn.
  intros [Ha Hs]%andb_true_iff. apply negb_true_iff in Ha.
  rewrite IH by done. cbn. by rewrite Ha.
Qed.

Lemma rev_app_rev_app s : ∀ t u,
  String.rev_app (String.rev_app s t) u = String.rev_app t (s +:+ u).
Proof.
  induction s as [|a s IH]; intros t u; [done |]. cbn.
  by rewrite IH.
Qed.

Lemma rev_rev s : String.rev (String.rev s) = s.
Proof. unfold String.rev. rewrite rev_app_rev_app. cbn. apply app_empty_r. Qed.

Lemma all_chars_weaken (p q : ascii → bool) s :
  (∀ c, p c = true → q c = true) →
  Path.all_chars p s = true → Path.all_chars q s = true.
Proof.
  intros Hpq. induction s as [|a s IH]; [done |]. cbn.
  intros [Ha Hs]%andb_true_iff. by rewrite (Hpq a Ha), IH.
Qed.

(** [os.path.basename] of a slash followed by a name without slashes. *)
Lemma basename_slash name :
  Path.all_chars (λ c, negb (Path.is_char "/" c)) name = true →
  Path.basename (String "/" name) = name.
Proof.
  intros Hname. unfold Path.basename, String.rev. cbn [String.rev_app].
  rewrite before_rev_app by done. cbn. apply rev_rev.
Qed.

(** The file name [download_file] derives from a URL of the archive host
    whose last segment is made of plain characters. *)
Lemma filename_plain name :
  Path.all_chars plain_char name = true →
  filename ("https://data.gharchive.org/" +:+ name) = name.
Proof.
  intros Hname. unfold filename, Path.urlparse_path.
  change (Path.split_scheme ("https://data.gharchive.org/" +:+ name))
    with ("https", "//data.gharchive.org/" +:+ name).
  cbv beta iota zeta.
  change (Path.drop_netloc ("//data.gharchive.org/" +:+ name))
    with (String "/" name).
  assert (Hp : ∀ c, Path.all_chars (λ x, negb (Path.is_char c x)) name = true
                    → Path.all_chars (λ x, negb (Path.is_char c x))
                        (String "/" name)
                      = negb (Path.is_char c "/")).
  { intros c Hc. cbn. rewrite Hc. apply andb_true_r. }
  assert (Hslash : Path.all_chars (λ x, negb (Path.is_char "/" x)) name = true).
  { revert Hname. apply all_chars_weaken. intros c. unfold plain_char.
    rewrite !negb_orb, !andb_true_iff. tauto. }
  assert (Hquery : Path.all_chars (λ x, negb (Path.is_char "?" x)) name = true).
  { revert Hname. apply all_chars_weaken. intros c. unfold plain_char.
    rewrite !negb_orb, !andb_true_iff. tauto. }
  assert (Hfrag : Path.all_chars (λ x, negb (Path.is_char "#" x)) name = true).
  { revert Hname. apply all_chars_weaken. intros c. unfold plain_char.
    rewrite !negb_orb, !andb_true_iff. tauto. }
  assert (Hsemi : Path.all_chars (λ x, negb (Path.is_char ";" x)) name = true).
  { revert Hname. apply all_chars_weaken. intros c. unfold plain_char.
    rewrite !negb_orb, !andb_true_iff. tauto. }
  rewrite (before_all (Path.is_char "#")) by (by rewrite Hp).
  rewrite (before_all (Path.is_char "?")) by (by rewrite Hp).
  rewrite (contains_none ";") by (by rewrite Hp).
  rewrite andb_false_r. by apply basename_slash.
Qed.

Lemma digit_char_spec d :
  ∃ k : nat, (k < 10)%nat ∧ k = Z.to_nat (d mod 10)
             ∧ digit d = String (ascii_of_nat (48 + k)) "".
Proof.
  exists (Z.to_nat (d mod 10)). split_and!; [| done | done].
  pose proof (Z.mod_pos_bound d 10 ltac:(done)). lia.
Qed.

Lemma digit_plain d : Path.all_chars plain_char (digit d) = true.
Proof.
  destruct (digit_char_spec d) as (k & Hk & _ & ->).
  do 10 (destruct k as [|k]; [reflexivity |]). lia.
Qed.

Lemma digit_not_slash d : Path.starts_with "/" (digit d) = false.
Proof.
  destruct (digit_char_spec d) as (k & Hk & _ & ->).
  do 10 (destruct k as [|k]; [reflexivity |]). lia.
Qed.

Lemma digit_inj a b : digit a = digit b → a mod 10 = b mod 10.
Proof.
  destruct (digit_char_spec a) as (k & Hk & Hka & ->).
  destruct (digit_char_spec b) as (l & Hl & Hlb & ->).
  intros [= Heq]. apply (f_equal nat_of_ascii) in Heq.
  rewrite !nat_ascii_embedding in Heq by lia.
  pose proof (Z.mod_pos_bound a 10 ltac:(done)).
  pose proof (Z.mod_pos_bound b 10 ltac:(done)). lia.
Qed.

(** The default integer formatting of an hour of the day. *)
Lemma pretty_hour h :
  0 <= h < 24 → pretty h = if h <? 10 then digit h else pad2 h.
Proof.
  intros Hh. rewrite <- (Z2Nat.id h) by lia.
  assert (Hn : (Z.to_nat h < 24)%nat) by lia.
  revert Hn. generalize (Z.to_nat h). intros n Hn.
  do 24 (destruct n as [|n]; [reflexivity |]). lia.
Qed.

Lemma hour_range b : 0 <= hour b < 24.
Proof.
  unfold hour. change us_per_day with 86400000000.
  change us_per_hour with 3600000000. Z.div_mod_to_equations. lia.
Qed.

Lemma archive_name_plain b : Path.all_chars plain_char (archive_name b) = true.
Proof.
  unfold archive_name, strftime_Ymd, pad4, pad2.
  rewrite pretty_hour by apply hour_range.
  destruct (hour b <? 10); unfold pad2;
    rewrite !all_chars_app, !digit_plain; reflexivity.
Qed.

Lemma archive_name_not_slash b :
  Path.starts_with "/" (archive_name b) = false.
Proof.
  unfold archive_name, strftime_Ymd, pad4, pad2.
  destruct (digit_char_spec (year b / 100 / 10)) as (k & Hk & _ & ->).
  do 10 (destruct k as [|k]; [reflexivity |]). lia.
Qed.

Lemma filename_archive_name b : filename (archive_url b) = archive_name b.
Proof. apply filename_plain, archive_name_plain. Qed.

(** X16. The file name [download_file] derives from the URL that
    [generate_urls] builds for a bucket is the date of the bucket, a dash,
    its hour without padding, and ".json.gz"; the target path is the output
    directory joined with it. *)
Theorem filename_of_archive_url b output_path :
  filename (archive_url b)
  = strftime_Ymd b +:+ "-" +:+ pretty (hour b) +:+ ".json.gz"
  ∧ filepath (archive_url b) output_path
    = Path.join output_path
        (strftime_Ymd b +:+ "-" +:+ pretty (hour b) +:+ ".json.gz").
Proof.
  pose proof (filename_archive_name b) as Hname.
  unfold filepath. by rewrite Hname.
Qed.

(** ** Distinct hours, distinct URLs, distinct files *)

Lemma app_assoc_s s t u : (s +:+ t) +:+ u = s +:+ t +:+ u.
Proof. induction s as [|a s IH]; [done |]. by rewrite !app_cons, IH. Qed.

Lemma digit_app_inj a b s t :
  digit a +:+ s = digit b +:+ t → a mod 10 = b mod 10 ∧ s = t.
Proof.
  intros Heq.
  destruct (digit_char_spec a) as (k & _ & _ & Ha).
  destruct (digit_char_spec b) as (l & _ & _ & Hb).
  rewrite Ha, Hb, !app_cons in Heq. injection Heq as Hc Hs.
  split; [| exact Hs]. apply digit_inj. rewrite Ha, Hb. f_equal. exact Hc.
Qed.

Lemma ymd_string_inj y m d y' m' d' R R' :
  0 <= y < 10000 → 0 <= y' < 10000 →
  0 <= m < 100 → 0 <= m' < 100 → 0 <= d < 100 → 0 <= d' < 100 →
  (pad4 y +:+ "-" +:+ pad2 m +:+ "-" +:+ pad2 d) +:+ R
  = (pad4 y' +:+ "-" +:+ pad2 m' +:+ "-" +:+ pad2 d') +:+ R' →
  y = y' ∧ m = m' ∧ d = d' ∧ R = R'.
Proof.
  intros Hy Hy' Hm Hm' Hd Hd'. unfold pad4, pad2. rewrite !app_assoc_s.
  intros Heq.
  apply digit_app_inj in Heq as [Hy1 Heq].
  apply digit_app_inj in Heq as [Hy2 Heq].
  apply digit_app_inj in Heq as [Hy3 Heq].
  apply digit_app_inj in Heq as [Hy4 Heq].
  apply (inj (String.app "-")) in Heq.
  apply digit_app_inj in Heq as [Hm1 Heq].
  apply digit_app_inj in Heq as [Hm2 Heq].
  apply (inj (String.app "-")) in Heq.
  apply digit_app_inj in Heq as [Hd1 Heq].
  apply digit_app_inj in Heq as [Hd2 Heq].
  split_and!; [| | | done]; Z.div_mod_to_equations; lia.
Qed.

Lemma hour_string_inj h h' :
  0 <= h < 24 → 0 <= h' < 24 →
  pretty h +:+ ".json.gz" = pretty h' +:+ ".json.gz" → h = h'.
Proof.
  intros Hh Hh'. rewrite !pretty_hour by done.
  destruct (Z.ltb_spec h 10), (Z.ltb_spec h' 10);
    unfold pad2; rewrite ?app_assoc_s; intros Heq.
  - apply digit_app_inj in Heq as [Heq _]. Z.div_mod_to_equations; lia.
  - apply digit_app_inj in Heq as [_ Heq]. exfalso. revert Heq.
    destruct (digit_char_spec h') as (k & _ & _ & ->).
    rewrite app_cons. discriminate.
  - apply digit_app_inj in Heq as [_ Heq]. exfalso. revert Heq.
    destruct (digit_char_spec h) as (k & _ & _ & ->).
    rewrite app_cons. discriminate.
  - apply digit_app_inj in Heq as [H1 Heq].
    apply digit_app_inj in Heq as [H2 _]. Z.div_mod_to_equations; lia.
Qed.

(** Two valid datetimes on the hour with the same archive name are equal. *)
Lemma archive_name_inj b1 b2 :
  valid b1 → valid b2 → b1 mod us_per_hour = 0 → b2 mod us_per_hour = 0 →
  archive_name b1 = archive_name b2 → b1 = b2.
Proof.
  intros Hv1 Hv2 Ha1 Ha2 Heq.
  destruct (fields_spec b1 Hv1) as (Hy1 & Hm1 & Hd1 & Hh1 & _ & _ & _ & Hb1).
  destruct (fields_spec b2 Hv2) as (Hy2 & Hm2 & Hd2 & Hh2 & _ & _ & _ & Hb2).
  assert (Hdim : ∀ y m, days_in_month y m <= 31).
  { intros y m. unfold days_in_month.
    repeat match goal with |- context [if ?c then _ else _] => destruct c end;
      lia. }
  pose proof (Hdim (year b1) (month b1)). pose proof (Hdim (year b2) (month b2)).
  unfold archive_name, strftime_Ymd in Heq.
  apply ymd_string_inj in Heq as (Hy & Hm & Hd & Heq); try lia.
  apply (inj (String.app "-")) in Heq.
  apply hour_string_inj in Heq; [| done | done].
  assert (Hzero : ∀ b, b mod us_per_hour = 0 →
                       minute b = 0 ∧ second b = 0 ∧ microsecond b = 0).
  { intros b Hb. unfold minute, second, microsecond.
    change us_per_hour with 3600000000 in *.
    change us_per_minute with 60000000. change us_per_second with 1000000.
    split_and!; Z.div_mod_to_equations; lia. }
  destruct (Hzero b1 Ha1) as (M1 & S1 & U1).
  destruct (Hzero b2 Ha2) as (M2 & S2 & U2).
  rewrite M1, S1, U1 in Hb1. rewrite M2, S2, U2 in Hb2.
  etrans; [symmetry; exact Hb1 |]. etrans; [| exact Hb2].
  by rewrite Hy, Hm, Hd, Heq.
Qed.

Lemma join_inj output_path f g :
  Path.starts_with "/" f = false → Path.starts_with "/" g = false →
  Path.join output_path f = Path.join output_path g → f = g.
Proof.
  intros Hf Hg. unfold Path.join. rewrite Hf, Hg.
  destruct (_ || _); intros Heq.
  - by apply (inj (String.app output_path)) in Heq.
  - apply (inj (String.app output_path)) in Heq.
    by apply (inj (String.app "/")) in Heq.
Qed.

Lemma buckets_elem first n b :
  b ∈ buckets first n ↔ ∃ i : nat, (i < n)%nat ∧ b = first + Z.of_nat i * us_per_hour.
Proof.
  unfold buckets. rewrite list_elem_of_fmap. split.
  - intros (i & -> & Hi). apply elem_of_seq in Hi. exists i. split; [lia | done].
  - intros (i & Hi & ->). exists i. split; [done |]. apply elem_of_seq. lia.
Qed.

Lemma buckets_NoDup first n : NoDup (buckets first n).
Proof.
  unfold buckets. apply NoDup_fmap_2; [| apply NoDup_seq].
  intros i j Hij. change us_per_hour with 3600000000 in Hij. lia.
Qed.

Lemma generate_urls_NoDup start_dt end_dt output_path items :
  valid start_dt → valid end_dt →
  generate_urls start_dt end_dt = inr items →
  NoDup items.*2
  ∧ NoDup items.*1
  ∧ NoDup ((λ u, filepath u output_path) <$> items.*1).
Proof.
  intros Hs He Hgen.
  destruct (decide (replace_minute_second_microsecond_0 start_dt <= end_dt))
    as [Hle|Hgt];
    [| rewrite generate_urls_before in Hgen by lia; simplify_eq;
       split_and!; constructor].
  destruct (decide (last_hour <= end_dt)) as [Hlast|Hin];
    [by rewrite generate_urls_hours_overflow in Hgen |].
  rewrite generate_urls_hours in Hgen by (done || lia). simplify_eq.
  set (first := replace_minute_second_microsecond_0 start_dt) in *.
  set (n := Z.to_nat _).
  assert (Hbucket : ∀ b, b ∈ buckets first n →
                         valid b ∧ b mod us_per_hour = 0).
  { intros b (i & Hi & ->)%buckets_elem.
    assert (Z.of_nat i
            < (replace_minute_second_microsecond_0 end_dt - first)
              / us_per_hour + 1) as Hi'.
    { subst n. rewrite !replace_is_floor in *.
      change us_per_hour with 3600000000 in *.
      destruct Hs. Z.div_mod_to_equations; lia. }
    subst first. rewrite !replace_is_floor in *. unfold valid.
    destruct Hs, He.
    change us_per_hour with 3600000000 in *.
    split; Z.div_mod_to_equations; lia. }
  assert (H2 : (map work_item (buckets first n)).*2 = buckets first n).
  { rewrite <- list_fmap_compose. apply list_fmap_id. }
  assert (H1 : (map work_item (buckets first n)).*1
               = archive_url <$> buckets first n).
  { by rewrite <- list_fmap_compose. }
  rewrite H2, H1, <- list_fmap_compose.
  split_and!; [apply buckets_NoDup | |];
    (apply NoDup_fmap_2_strong; [| apply buckets_NoDup]);
    intros b1 b2 [Hv1 Ha1]%Hbucket [Hv2 Ha2]%Hbucket Heq.
  - apply archive_name_inj; try done.
    revert Heq. unfold archive_url. fold (archive_name b1) (archive_name b2).
    apply (inj (String.app _)).
  - apply archive_name_inj; try done.
    cbn in Heq. unfold filepath in Heq. rewrite !filename_archive_name in Heq.
    eapply join_inj; [| | done]; apply archive_name_not_slash.
Qed.

(** X17. The hours of a list that [generate_urls] returns for valid
    datetimes are pairwise distinct, and so are their URLs and, for any
    output directory, their target paths: no two tasks of a run ask for the
    same URL or write the same file. *)
Theorem generate_urls_distinct start_dt end_dt output_path items :
  valid start_dt → valid end_dt →
  generate_urls start_dt end_dt = inr items →
  NoDup items.*2
  ∧ NoDup items.*1
  ∧ NoDup ((λ u, filepath u output_path) <$> items.*1).
Proof. apply generate_urls_NoDup. Qed.

(** Three hours. *)
Lemma generate_urls_distinct_witness :
  ∃ items, generate_urls t10 t12_30 = inr items ∧ NoDup items.*1.
Proof.
  eexists. split; [vm_compute; reflexivity |].
  eapply (generate_urls_distinct t10 t12_30 sample_dir).
  - split; vm_compute; discriminate.
  - split; vm_compute; discriminate.
  - vm_compute. reflexivity.
Defined.

(** ** The order of completion does not matter *)

Lemma retry_loop_indep url output_path max_retries net attempts : ∀ w1 w2,
  (retry_loop url output_path max_retries net attempts w1).1
  = (retry_loop url output_path max_retries net attempts w2).1
  ∧ bytes_downloaded
      (stats (retry_loop url output_path max_retries net attempts w1).2)
    - bytes_downloaded (stats w1)
    = bytes_downloaded
        (stats (retry_loop url output_path max_retries net attempts w2).2)
      - bytes_downloaded (stats w2).
Proof.
  induction attempts as [|attempt rest IH]; intros w1 w2; [cbn; split; [done | lia] |].
  cbn [retry_loop].
  destruct (try_body_spec url output_path (net attempt) w1)
    as (w1' & -> & _ & Hb1 & _).
  destruct (try_body_spec url output_path (net attempt) w2)
    as (w2' & -> & _ & Hb2 & _).
  destruct (attempt_raises (net attempt)) as [[e|e]|]; cbn [fst snd];
    [| split; [done | lia]..].
  destruct (attempt =? max_retries - 1); cbn [fst snd]; [split; [done | lia] |].
  destruct (IH (sleep (2 ^ attempt) w1') (sleep (2 ^ attempt) w2')) as [-> Hb].
  cbn [sleep stats] in Hb. split; [done | lia].
Qed.

(** What a call returns and records depends on the world only through the
    presence of its target. *)
Lemma download_file_local url output_path max_retries net w1 w2 :
  path_exists (filepath url output_path) (fs w1)
  = path_exists (filepath url output_path) (fs w2) →
  (download_file url output_path max_retries net w1).1
  = (download_file url output_path max_retries net w2).1
  ∧ bytes_downloaded (stats (download_file url output_path max_retries net w1).2)
    - bytes_downloaded (stats w1)
    = bytes_downloaded
        (stats (download_file url output_path max_retries net w2).2)
      - bytes_downloaded (stats w2).
Proof.
  intros Hex. unfold download_file. rewrite <- Hex.
  destruct (path_exists (filepath url output_path) (fs w1));
    [cbn [fst snd]; split; [reflexivity | lia] |].
  apply retry_loop_indep.
Qed.

Lemma path_exists_after_other url output_path max_retries net w p :
  p ≠ filepath url output_path → p ∉ ancestors output_path →
  path_exists p (fs (download_file url output_path max_retries net w).2)
  = path_exists p (fs w).
Proof.
  intros Hp Hanc.
  destruct (download_file_disk url output_path max_retries net w)
    as (Hf & Hd1 & Hd2).
  unfold path_exists. rewrite Hf by done. f_equal.
  apply bool_decide_ext. split; [| set_solver].
  intros Hin. apply Hd2 in Hin. set_solver.
Qed.

Lemma string_length_app s t :
  String.length (s +:+ t) = (String.length s + String.length t)%nat.
Proof. induction s as [|a s IH]; [done |]. rewrite app_cons. cbn. by rewrite IH. Qed.

Lemma prefixes_at_slash_length rest : ∀ seen p,
  p ∈ prefixes_at_slash seen rest →
  (String.length p <= String.length seen + String.length rest)%nat.
Proof.
  induction rest as [|c rest IH]; intros seen p Hp; cbn in Hp.
  - apply list_elem_of_singleton in Hp as ->. lia.
  - apply elem_of_app in Hp as [Hp|Hp].
    + destruct (bool_decide _); [| by apply elem_of_nil in Hp].
      apply list_elem_of_singleton in Hp as ->. lia.
    + apply IH in Hp. rewrite string_length_app in Hp. cbn in *. lia.
Qed.

(** A target is no ancestor of the output directory: it is longer. *)
Lemma target_not_ancestor output_path name :
  Path.starts_with "/" name = false → name ≠ "" →
  Path.join output_path name ∉ ancestors output_path.
Proof.
  intros Hslash Hname Hin. unfold ancestors in Hin.
  apply list_elem_of_filter in Hin as [_ Hin].
  apply prefixes_at_slash_length in Hin. revert Hin.
  unfold Path.join. rewrite Hslash.
  assert (String.length name ≠ 0%nat) by by destruct name.
  destruct (_ || _); rewrite ?string_length_app; cbn; lia.
Qed.

Lemma archive_name_cons b : ∃ c rest, archive_name b = String c rest.
Proof.
  unfold archive_name, strftime_Ymd, pad4, pad2. rewrite !app_assoc_s.
  destruct (digit_char_spec (year b / 100 / 10)) as (k & _ & _ & ->).
  rewrite app_cons. by eexists _, _.
Qed.

Section order.

Variables (urls : list string) (output_path : string).
Variable net : nat → Z → attempt_env.

Hypothesis targets_distinct : NoDup ((λ u, filepath u output_path) <$> urls).
Hypothesis targets_below :
  ∀ u, u ∈ urls → filepath u output_path ∉ ancestors output_path.

Lemma alone_after_other i j u w :
  i ≠ j → urls !! i = Some u →
  alone_result urls output_path net
    (download_file u output_path 3 (net i) w).2 j
  = alone_result urls output_path net w j
  ∧ alone_bytes urls output_path net
      (download_file u output_path 3 (net i) w).2 j
    = alone_bytes urls output_path net w j.
Proof.
  intros Hij Hu. unfold alone_result, alone_bytes.
  destruct (urls !! j) as [v|] eqn:Hv; [| done]. cbn.
  assert (Hex : path_exists (filepath v output_path)
                  (fs (download_file u output_path 3 (net i) w).2)
                = path_exists (filepath v output_path) (fs w)).
  { apply path_exists_after_other.
    - intros Heq. apply Hij.
      eapply (NoDup_lookup _ i j (filepath u output_path) targets_distinct);
        rewrite list_lookup_fmap; [by rewrite Hu | rewrite Hv; cbn; by rewrite Heq].
    - apply targets_below. by eapply list_elem_of_lookup_2. }
  destruct (download_file_local v output_path 3 (net j) _ _ Hex) as [-> Hb].
  split; [done | lia].
Qed.

(** In a pool, each task returns and records what it would alone. *)
Lemma run_tasks_alone l : ∀ w,
  NoDup l →
  (run_tasks urls output_path net l w).1
  = omap (alone_result urls output_path net w) l
  ∧ bytes_downloaded (stats (run_tasks urls output_path net l w).2)
    = bytes_downloaded (stats w)
      + Stats.sum (alone_bytes urls output_path net w <$> l).
Proof.
  induction l as [|i l IH]; intros w Hnd; [cbn; split; [done | lia] |].
  apply NoDup_cons in Hnd as [Hi Hnd].
  destruct (urls !! i) as [u|] eqn:Hu.
  - rewrite (run_tasks_cons urls output_path net i u) by done. cbn [fst snd].
    destruct (IH (download_file u output_path 3 (net i) w).2 Hnd) as [-> ->].
    assert (Hl : ∀ j, j ∈ l →
               alone_result urls output_path net
                 (download_file u output_path 3 (net i) w).2 j
               = alone_result urls output_path net w j
               ∧ alone_bytes urls output_path net
                   (download_file u output_path 3 (net i) w).2 j
                 = alone_bytes urls output_path net w j).
    { intros j Hj. apply alone_after_other; [| done]. by intros ->. }
    split.
    + cbn [omap list_omap]. unfold alone_result at 2. rewrite Hu. cbn.
      f_equal. clear -Hl. induction l as [|j l IHl]; [done |].
      cbn. rewrite (proj1 (Hl j ltac:(set_solver))).
      rewrite IHl by (intros; apply Hl; set_solver). done.
    + rewrite fmap_cons. unfold Stats.sum. cbn [foldr].
      unfold alone_bytes at 2. rewrite Hu.
      assert (Hsum : foldr Z.add 0
                       (alone_bytes urls output_path net
                          (download_file u output_path 3 (net i) w).2 <$> l)
                     = foldr Z.add 0 (alone_bytes urls output_path net w <$> l)).
      { clear -Hl. induction l as [|j l IHl]; [done |].
        cbn. rewrite (proj2 (Hl j ltac:(set_solver))).
        rewrite IHl by (intros; apply Hl; set_solver). done. }
      rewrite Hsum. lia.
  - rewrite (run_tasks_skip_index urls output_path net) by done.
    destruct (IH w Hnd) as [-> ->]. split.
    + cbn [omap list_omap]. unfold alone_result at 2. by rewrite Hu.
    + rewrite fmap_cons. unfold Stats.sum. cbn [foldr].
      unfold alone_bytes at 2. rewrite Hu. lia.
Qed.

End order.

Lemma successes_Permutation rs rs' :
  rs ≡ₚ rs' → successes rs = successes rs' ∧ failures rs = failures rs'.
Proof.
  unfold successes, failures.
  induction 1 as [|r l l' _ [IH1 IH2]|r r' l|l l' l'' _ [IH1 IH2] _ [IH3 IH4]];
    [done | | | split; congruence].
  - cbn. destruct (is_success r); cbn; split; congruence.
  - cbn. destruct (is_success r), (is_success r'); cbn; done.
Qed.

Lemma sum_Permutation (l l' : list Z) : l ≡ₚ l' → Stats.sum l = Stats.sum l'.
Proof.
  unfold Stats.sum.
  induction 1 as [|x l l' _ IH|x y l|l l' l'' _ IH1 _ IH2]; cbn; lia.
Qed.

(** Every item [generate_urls] returns pairs a bucket with its URL. *)
Lemma generate_urls_loop_items end_dt current urls items :
  generate_urls_loop end_dt current urls = inr items →
  Forall (λ it : WorkItem, it.1 = archive_url it.2) urls →
  Forall (λ it : WorkItem, it.1 = archive_url it.2) items.
Proof.
  funelim (generate_urls_loop end_dt current urls); intros Hret Hacc.
  - congruence.
  - done.
  - match goal with
    | IH : ∀ items, _ = inr items → _ |- _ => apply (IH _ Hret)
    end.
    apply Forall_app. split; [done |]. by constructor.
Qed.

Lemma generate_urls_targets_below start_dt end_dt output_path items u :
  generate_urls start_dt end_dt = inr items → u ∈ items.*1 →
  filepath u output_path ∉ ancestors output_path.
Proof.
  intros Hgen Hu.
  apply generate_urls_loop_items in Hgen; [| constructor].
  apply list_elem_of_fmap in Hu as ([u' b] & -> & Hin).
  rewrite Forall_forall in Hgen. specialize (Hgen _ Hin). cbn in Hgen. cbn.
  subst u'. unfold filepath. rewrite filename_archive_name.
  apply target_not_ancestor; [apply archive_name_not_slash |].
  destruct (archive_name_cons b) as (c & rest & ->). done.
Qed.

(** X18. For valid datetimes, two runs of [download_archives] that differ
    only in the order in which the tasks complete end the same way: they
    raise the same exception, or both find the range empty, or both print
    statistics with the same successes, failures, total and total
    downloaded, and their results are the same up to order. *)
Theorem download_archives_any_order start_dt end_dt output_path max_workers
    order1 order2 net t_start t_end w :
  valid start_dt → valid end_dt →
  match (download_archives start_dt end_dt output_path max_workers order1 net
           t_start t_end w).1,
        (download_archives start_dt end_dt output_path max_workers order2 net
           t_start t_end w).1 with
  | inr (Some s1), inr (Some s2) =>
      successful s1 = successful s2 ∧ failed s1 = failed s2
      ∧ total s1 = total s2 ∧ total_downloaded s1 = total_downloaded s2
      ∧ pool_results start_dt end_dt output_path order1 net t_start w
        ≡ₚ pool_results start_dt end_dt output_path order2 net t_start w
  | inr None, inr None => True
  | inl e1, inl e2 => e1 = e2
  | _, _ => False
  end.
Proof.
  intros Hs He.
  destruct (download_archives_cases start_dt end_dt output_path max_workers
              order1 net t_start t_end w)
    as [(e & Hgen & ->) | [[Hgen ->] | [(urls & e & Hgen & Hne & Hw & Hrun)
       | (urls & s1 & Hgen & Hne & Hw & -> & Hres1 & Hs1 & Hf1 & Ht1 & Htd1)]]];
  destruct (download_archives_cases start_dt end_dt output_path max_workers
              order2 net t_start t_end w)
    as [(e' & Hgen' & ->) | [[Hgen' ->] | [(urls' & e' & Hgen' & Hne' & Hw' & Hrun')
       | (urls' & s2 & Hgen' & Hne' & Hw' & -> & Hres2 & Hs2 & Hf2 & Ht2 & Htd2)]]];
  cbn [fst]; try congruence; try lia.
  - unfold download_archives in *. rewrite Hgen in *.
    destruct urls as [|item urls]; [done |].
    rewrite (proj2 (Z.leb_le _ _)) in * by done. by simplify_eq.
  - assert (urls' = urls) as -> by congruence.
    set (w0 := {| fs := fs w; stats := Stats.init t_start; log := log w |}) in *.
    pose proof (generate_urls_NoDup start_dt end_dt output_path urls Hs He Hgen)
      as (_ & _ & Hdistinct).
    assert (Hbelow : ∀ u, u ∈ map fst urls →
                          filepath u output_path ∉ ancestors output_path).
    { intros u Hu. by eapply generate_urls_targets_below. }
    assert (Hnd : ∀ order, NoDup (completion_order order (length urls))).
    { intros order. rewrite completion_order_perm. apply NoDup_seq. }
    destruct (run_tasks_alone (map fst urls) output_path net Hdistinct Hbelow
                (completion_order order1 (length urls)) w0 (Hnd _))
      as [Hr1 Hb1].
    destruct (run_tasks_alone (map fst urls) output_path net Hdistinct Hbelow
                (completion_order order2 (length urls)) w0 (Hnd _))
      as [Hr2 Hb2].
    assert (Hperm : completion_order order1 (length urls)
                    ≡ₚ completion_order order2 (length urls)).
    { by rewrite !completion_order_perm. }
    assert (Hresults :
              (run_tasks (map fst urls) output_path net
                 (completion_order order1 (length urls)) w0).1
              ≡ₚ (run_tasks (map fst urls) output_path net
                    (completion_order order2 (length urls)) w0).1).
    { rewrite Hr1, Hr2. by apply omap_Permutation. }
    destruct (successes_Permutation _ _ Hresults) as [Hsucc Hfail].
    rewrite Hs1, Hs2, Hf1, Hf2, Ht1, Ht2, Htd1, Htd2, Hres1, Hres2.
    split_and!; [congruence | congruence | done | | done].
    unfold Stats.get_total_downloaded. rewrite Hb1, Hb2.
    do 3 f_equal. apply sum_Permutation. by apply fmap_Permutation.
Qed.

(** Three hours, one of them unreachable, completing in two orders. *)
Lemma download_archives_any_order_witness :
  match (download_archives t10 t12_30 sample_dir 10 [2; 1]%nat
           eleven_down_pool 0 5 empty_world).1,
        (download_archives t10 t12_30 sample_dir 10 [] eleven_down_pool
           0 5 empty_world).1 with
  | inr (Some s1), inr (Some s2) =>
      successful s1 = successful s2 ∧ failed s1 = failed s2
      ∧ total s1 = total s2 ∧ total_downloaded s1 = total_downloaded s2
      ∧ pool_results t10 t12_30 sample_dir [2; 1]%nat eleven_down_pool 0
          empty_world
        ≡ₚ pool_results t10 t12_30 sample_dir [] eleven_down_pool 0 empty_world
  | inr None, inr None => True
  | inl e1, inl e2 => e1 = e2
  | _, _ => False
  end.
Proof.
  apply (download_archives_any_order t10 t12_30 sample_dir 10 [2; 1]%nat []
           eleven_down_pool 0 5 empty_world);
    split; vm_compute; discriminate.
Defined.

(** ** [format_size] *)

Example format_size_samples :
  format_size 0 = "0.0 MiB"
  ∧ format_size (1 # 4) = "0.2 MiB"
  ∧ format_size (3 # 4) = "0.8 MiB"
  ∧ format_size (1535 # 10) = "153.5 MiB"
  ∧ format_size (102396 # 100) = "1024.0 MiB"
  ∧ format_size 1024 = "1.0 GiB"
  ∧ format_size 1536 = "1.5 GiB"
  ∧ format_size (- (1 # 100)) = "-0.0 MiB".
Proof. repeat split; reflexivity. Qed.

Lemma round_half_even_near q :
  (inject_Z (round_half_even q) - (1 # 2) <= q
   ∧ q <= inject_Z (round_half_even q) + (1 # 2))%Q.
Proof.
  destruct q as [n d]. unfold round_half_even. cbn [Qnum Qden].
  pose proof (Z.div_mod n (Z.pos d) ltac:(done)) as Hnd.
  pose proof (Z.mod_pos_bound n (Z.pos d) ltac:(done)) as Hr.
  set (f := n / Z.pos d) in *. set (r := n mod Z.pos d) in *.
  unfold Qle, Qminus, Qplus, Qopp, inject_Z. cbn [Qnum Qden].
  rewrite !Pos2Z.inj_mul.
  destruct (Z.compare_spec (2 * r) (Z.pos d)) as [Heq|Hlt|Hgt];
    [destruct (Z.even f) |..]; split; nia.
Qed.

Lemma round_half_even_mono q (k : Z) :
  ((inject_Z k <= q)%Q → k <= round_half_even q)
  ∧ ((q <= inject_Z k)%Q → round_half_even q <= k).
Proof.
  destruct q as [n d]. unfold round_half_even. cbn [Qnum Qden].
  pose proof (Z.div_mod n (Z.pos d) ltac:(done)) as Hnd.
  pose proof (Z.mod_pos_bound n (Z.pos d) ltac:(done)) as Hr.
  set (f := n / Z.pos d) in *. set (r := n mod Z.pos d) in *.
  unfold Qle, inject_Z. cbn [Qnum Qden].
  destruct (Z.compare_spec (2 * r) (Z.pos d)) as [Heq|Hlt|Hgt];
    [destruct (Z.even f) |..]; split; intros Hk; nia.
Qed.

Lemma format_1f_nonneg v :
  (0 <= v)%Q →
  ∃ t, format_1f v = pretty (t / 10) +:+ "." +:+ pretty (t mod 10)
       ∧ t = round_half_even (v * 10) ∧ 0 <= t ∧ nearest_tenth t v.
Proof.
  intros Hv. exists (round_half_even (v * 10)).
  unfold format_1f. cbv zeta.
  destruct (Qlt_le_dec v 0) as [Hneg|_].
  { exfalso. exact (Qlt_not_le _ _ Hneg Hv). }
  split; [done|]. split; [done|].
  pose proof (round_half_even_near (v * 10)) as [Hlo Hhi].
  pose proof (round_half_even_mono (v * 10) 0) as [Hpos _].
  split.
  - apply Hpos. change (inject_Z 0) with (0 * 10)%Q.
    apply Qmult_le_compat_r; done.
  - set (t := round_half_even (v * 10)) in *. clearbody t.
    destruct v as [n d]. revert Hlo Hhi.
    unfold nearest_tenth, Qle, Qminus, Qplus, Qopp, Qdiv, Qmult, Qinv, inject_Z.
    cbn [Qnum Qden]. rewrite ?Pos2Z.inj_mul. lia.
Qed.

(** X19 (format_size, lines 135-140).  A non-negative size below 1024 is
    printed in MiB and a size from 1024 on in GiB, in both cases as the value
    rounded to the nearest tenth, without a sign.  Hence the MiB figure never
    exceeds 1024.0 (which sizes from 1023.95 on do print), and the GiB figure
    is never below 1.0. *)
Theorem format_size_rounds (size_in_mib : Q) :
  (0 <= size_in_mib)%Q →
  ((size_in_mib < 1024)%Q →
   ∃ t, format_size size_in_mib = shown t " MiB"
        ∧ 0 <= t <= 10240 ∧ nearest_tenth t size_in_mib)
  ∧ ((1024 <= size_in_mib)%Q →
     ∃ t, format_size size_in_mib = shown t " GiB"
          ∧ 10 <= t ∧ nearest_tenth t (size_in_mib / 1024)).
Proof.
  intros Hx. unfold format_size, shown. split; intros Hc.
  - destruct (Qlt_le_dec size_in_mib 1024) as [_|Hge];
      [|exfalso; exact (Qlt_not_le _ _ Hc Hge)].
    destruct (format_1f_nonneg size_in_mib Hx) as (t & -> & Ht & H0 & Hnear).
    exists t. split; [by rewrite <- !app_assoc_s|]. split; [|done].
    split; [done|]. subst t.
    apply (round_half_even_mono (size_in_mib * 10) 10240).
    change (inject_Z 10240) with (1024 * 10)%Q.
    apply Qmult_le_compat_r; [by apply Qlt_le_weak|done].
  - destruct (Qlt_le_dec size_in_mib 1024) as [Hlt|_];
      [exfalso; exact (Qlt_not_le _ _ Hlt Hc)|].
    assert (1 <= size_in_mib / 1024)%Q as H1.
    { apply Qle_shift_div_l; [done|]. by rewrite Qmult_1_l. }
    assert (0 <= size_in_mib / 1024)%Q as H0'.
    { eapply Qle_trans; [|exact H1]. done. }
    destruct (format_1f_nonneg _ H0') as (t & -> & Ht & H0 & Hnear).
    exists t. split; [by rewrite <- !app_assoc_s|]. split; [|done].
    subst t. apply (round_half_even_mono (size_in_mib / 1024 * 10) 10).
    change (inject_Z 10) with (1 * 10)%Q.
    apply Qmult_le_compat_r; done.
Qed.

Lemma format_size_rounds_witness :
  (0 <= 102396 # 100)%Q
  ∧ ((102396 # 100 < 1024)%Q →
     ∃ t, format_size (102396 # 100) = shown t " MiB"
          ∧ 0 <= t <= 10240 ∧ nearest_tenth t (102396 # 100))
  ∧ ((1024 <= 102396 # 100)%Q →
     ∃ t, format_size (102396 # 100) = shown t " GiB"
          ∧ 10 <= t ∧ nearest_tenth t ((102396 # 100) / 1024)).
Proof.
  split; [by vm_compute|].
  apply (format_size_rounds (102396 # 100)). by vm_compute.
Defined.

(** ** [parse_datetime] *)

Example parse_datetime_samples :
  parse_datetime "2024-01-01" = inr (make 2024 1 1 0 0 0 0)
  ∧ parse_datetime "2024-01-01 10:00:00" = inr (make 2024 1 1 10 0 0 0)
  ∧ parse_datetime "2024-01-01T10" = inr (make 2024 1 1 10 0 0 0)
  ∧ parse_datetime "2024-1-1 5" = inr (make 2024 1 1 5 0 0 0)
  ∧ parse_datetime "2024-01-01t10:20:30" = inr (make 2024 1 1 10 20 30 0)
  ∧ parse_datetime "2024-01-01   7" = inr (make 2024 1 1 7 0 0 0)
  ∧ parse_datetime "2024-02-29" = inr (make 2024 2 29 0 0 0 0)
  ∧ parse_datetime "2023-02-29"
    = inl "Unable to parse datetime: 2023-02-29"
  ∧ parse_datetime "2024-01-01 10:00"
    = inl "Unable to parse datetime: 2024-01-01 10:00"
  ∧ parse_datetime "2024-01-01 24"
    = inl "Unable to parse datetime: 2024-01-01 24"
  ∧ parse_datetime "0000-01-01"
    = inl "Unable to parse datetime: 0000-01-01"
  ∧ parse_datetime "2024-01-01 10:00:60"
    = inl "Unable to parse datetime: 2024-01-01 10:00:60".
Proof. repeat split; vm_compute; reflexivity. Qed.

Lemma digit_is_digit d :
  ∃ c, digit d = String c ""
       ∧ Strptime.is_digit c = true
       ∧ Z.of_nat (nat_of_ascii c) - 48 = d mod 10.
Proof.
  destruct (digit_char_spec d) as (k & Hk & Hkd & ->).
  exists (ascii_of_nat (48 + k)). split; [done|].
  assert (0 <= d mod 10 < 10) as Hd by (apply Z.mod_pos_bound; lia).
  assert (Z.of_nat k = d mod 10) as <- by lia. clear Hkd Hd.
  do 10 (destruct k as [|k]; [by vm_compute|]). lia.
Qed.

Lemma pad2_chars v :
  ∃ c1 c2, pad2 v = String c1 (String c2 "")
           ∧ Strptime.is_digit c1 = true ∧ Strptime.is_digit c2 = true
           ∧ Z.of_nat (nat_of_ascii c1) - 48 = (v / 10) mod 10
           ∧ Z.of_nat (nat_of_ascii c2) - 48 = v mod 10.
Proof.
  unfold pad2.
  destruct (digit_is_digit (v / 10)) as (c1 & -> & H1 & V1).
  destruct (digit_is_digit v) as (c2 & -> & H2 & V2).
  by exists c1, c2.
Qed.

Lemma int_pad2 v : 0 <= v <= 99 → Strptime.int (pad2 v) = v.
Proof.
  intros Hv. destruct (pad2_chars v) as (c1 & c2 & -> & H1 & H2 & V1 & V2).
  unfold Strptime.int. cbn [Strptime.int_from]. rewrite H1, H2, V1, V2.
  Z.div_mod_to_equations; lia.
Qed.

Lemma int_pad4 y : 0 <= y <= 9999 → Strptime.int (pad4 y) = y.
Proof.
  intros Hy. unfold pad4.
  destruct (pad2_chars (y / 100)) as (c1 & c2 & -> & H1 & H2 & V1 & V2).
  destruct (pad2_chars y) as (c3 & c4 & -> & H3 & H4 & V3 & V4).
  change (String c1 (String c2 "") +:+ String c3 (String c4 ""))
    with (String c1 (String c2 (String c3 (String c4 "")))).
  unfold Strptime.int. cbn [Strptime.int_from].
  rewrite H1, H2, H3, H4, V1, V2, V3, V4.
  Z.div_mod_to_equations; lia.
Qed.

Lemma digit_not_space c :
  Strptime.is_digit c = true → Strptime.is_space c = false.
Proof.
  destruct c as [[] [] [] [] [] [] [] []]; vm_compute; intros;
    first [reflexivity | discriminate].
Qed.

Lemma digit_not_literal c x :
  Strptime.is_digit x = true →
  c = "-"%char ∨ c = ":"%char ∨ c = "T"%char →
  Ascii.eqb (Path.to_lower x) (Path.to_lower c) = false.
Proof.
  intros Hx [->|[->| ->]]; revert Hx;
    destruct x as [[] [] [] [] [] [] [] []]; vm_compute; intros;
    first [reflexivity | discriminate].
Qed.

Lemma bind_ret_fmap {A B} (f : A → B) (l : list A) :
  l ≫= (λ x, [f x]) = f <$> l.
Proof. induction l as [|x l IH]; [done|]. cbn. by rewrite IH. Qed.

(** *** One directive at a time *)

Lemma reads_pad2_m r : Strptime.directive "m" = Some r → reads_pad2 r 1 12.
Proof.
  intros [= <-] v rest Hv.
  assert (∃ n : nat, v = Z.of_nat n ∧ (n < 13)%nat) as (n & -> & Hn)
    by (exists (Z.to_nat v); lia).
  do 13 (destruct n as [|n];
         [first [lia | eexists; split; [vm_compute; reflexivity|repeat constructor]]|]).
  lia.
Qed.

Lemma reads_pad2_d r : Strptime.directive "d" = Some r → reads_pad2 r 1 31.
Proof.
  intros [= <-] v rest Hv.
  assert (∃ n : nat, v = Z.of_nat n ∧ (n < 32)%nat) as (n & -> & Hn)
    by (exists (Z.to_nat v); lia).
  do 32 (destruct n as [|n];
         [first [lia | eexists; split; [vm_compute; reflexivity|repeat constructor]]|]).
  lia.
Qed.

Lemma reads_pad2_H r : Strptime.directive "H" = Some r → reads_pad2 r 0 23.
Proof.
  intros [= <-] v rest Hv.
  assert (∃ n : nat, v = Z.of_nat n ∧ (n < 24)%nat) as (n & -> & Hn)
    by (exists (Z.to_nat v); lia).
  do 24 (destruct n as [|n];
         [first [lia | eexists; split; [vm_compute; reflexivity|repeat constructor]]|]).
  lia.
Qed.

Lemma reads_pad2_M r : Strptime.directive "M" = Some r → reads_pad2 r 0 59.
Proof.
  intros [= <-] v rest Hv.
  assert (∃ n : nat, v = Z.of_nat n ∧ (n < 60)%nat) as (n & -> & Hn)
    by (exists (Z.to_nat v); lia).
  do 60 (destruct n as [|n];
         [first [lia | eexists; split; [vm_compute; reflexivity|repeat constructor]]|]).
  lia.
Qed.

Lemma reads_pad2_S r : Strptime.directive "S" = Some r → reads_pad2 r 0 59.
Proof.
  intros [= <-] v rest Hv.
  assert (∃ n : nat, v = Z.of_nat n ∧ (n < 60)%nat) as (n & -> & Hn)
    by (exists (Z.to_nat v); lia).
  do 60 (destruct n as [|n];
         [first [lia | eexists; split; [vm_compute; reflexivity|repeat constructor]]|]).
  lia.
Qed.

(** *** The items of a format *)

Lemma rejects_digit_literal c items :
  c = "-"%char ∨ c = ":"%char ∨ c = "T"%char →
  rejects_digit (Strptime.Literal c :: items).
Proof.
  intros Hc [|x s] Hs; [done|]. cbn in Hs.
  cbn [Strptime.match_items Strptime.matches].
  by rewrite (digit_not_literal c x Hs Hc).
Qed.

Lemma rejects_digit_space items : rejects_digit (Strptime.Space :: items).
Proof.
  intros [|x s] Hs; [done|]. cbn in Hs.
  cbn [Strptime.match_items Strptime.spaces].
  by rewrite (digit_not_space x Hs).
Qed.

Lemma match_items_literal c items rest :
  Strptime.match_items (Strptime.Literal c :: items) (String c rest)
  = Strptime.match_items items rest.
Proof.
  cbn [Strptime.match_items Strptime.matches].
  rewrite Ascii.eqb_refl. cbn. by rewrite app_nil_r.
Qed.

Lemma match_items_literal_nil c items :
  Strptime.match_items (Strptime.Literal c :: items) "" = [].
Proof. done. Qed.

Lemma match_items_space_nil items :
  Strptime.match_items (Strptime.Space :: items) "" = [].
Proof. done. Qed.

Lemma match_items_space_T items rest :
  Strptime.match_items (Strptime.Space :: items) (String "T" rest) = [].
Proof. done. Qed.

Lemma match_items_space_pad2 items v rest :
  Strptime.match_items (Strptime.Space :: items)
    (String " " (pad2 v +:+ rest))
  = Strptime.match_items items (pad2 v +:+ rest).
Proof.
  destruct (pad2_chars v) as (c1 & c2 & -> & H1 & _).
  cbn [Strptime.match_items Strptime.spaces String.append].
  change (Strptime.is_space " ") with true. cbv iota.
  change (String c1 (String c2 "") +:+ rest) with (String c1 (String c2 rest)).
  cbn [Strptime.spaces]. rewrite (digit_not_space c1 H1).
  cbn. by rewrite app_nil_r.
Qed.

Section directive.
Context (d : ascii) (r : Strptime.regex) (lo hi : Z).
Context (Hd : Strptime.directive d = Some r) (Hr : reads_pad2 r lo hi).
Context (items : list Strptime.item) (v : Z) (rest : string).
Context (Hv : lo <= v <= hi).

Lemma match_items_pad2_first found s2 :
  head (Strptime.match_items items rest) = Some (found, s2) →
  head (Strptime.match_items (Strptime.Directive d :: items) (pad2 v +:+ rest))
  = Some ((d, pad2 v) :: found, s2).
Proof.
  intros Hhead. cbn [Strptime.match_items]. rewrite Hd.
  destruct (Hr v rest Hv) as (extra & -> & _).
  rewrite bind_cons.
  destruct (Strptime.match_items items rest) as [|[f s] l]; [done|].
  by injection Hhead as -> ->.
Qed.

Lemma match_items_pad2_nil :
  Strptime.match_items items rest = [] → rejects_digit items →
  Strptime.match_items (Strptime.Directive d :: items) (pad2 v +:+ rest) = [].
Proof.
  intros Hnil Hrej. cbn [Strptime.match_items]. rewrite Hd.
  destruct (Hr v rest Hv) as (extra & -> & Hextra).
  rewrite bind_cons, Hnil. cbn [mbind list_bind app].
  induction Hextra as [|[x s1] extra Hx _ IH]; [done|].
  rewrite bind_cons, IH, app_nil_r. cbn in Hx. by rewrite (Hrej s1 Hx).
Qed.

End directive.

Section year.
Context (items : list Strptime.item) (y : Z) (rest : string).

Lemma match_items_pad4 :
  Strptime.match_items (Strptime.Directive "Y" :: items) (pad4 y +:+ rest)
  = (λ '(found, s2), (("Y"%char, pad4 y) :: found, s2))
      <$> Strptime.match_items items rest.
Proof.
  unfold pad4.
  destruct (pad2_chars (y / 100)) as (c1 & c2 & -> & H1 & H2 & _).
  destruct (pad2_chars y) as (c3 & c4 & -> & H3 & H4 & _).
  change ((String c1 (String c2 "") +:+ String c3 (String c4 "")) +:+ rest)
    with (String c1 (String c2 (String c3 (String c4 rest)))).
  change (String c1 (String c2 "") +:+ String c3 (String c4 ""))
    with (String c1 (String c2 (String c3 (String c4 "")))).
  cbn [Strptime.match_items Strptime.directive Ascii.eqb Bool.eqb].
  cbv iota. cbn [Strptime.matches Strptime.digit].
  rewrite H1. cbn [mbind list_bind app Strptime.matches].
  rewrite H2. cbn [mbind list_bind app Strptime.matches].
  rewrite H3. cbn [mbind list_bind app Strptime.matches].
  rewrite H4. cbn [mbind list_bind app String.append].
  rewrite app_nil_r.
  induction (Strptime.match_items items rest) as [|[f s] l IH]; [done|].
  cbn. by rewrite <- IH.
Qed.

End year.

(** *** The date and the time of day *)

Lemma head_fmap {A B} (f : A → B) (l : list A) :
  head (f <$> l) = f <$> head l.
Proof. by destruct l. Qed.

Section fields.
Context (y m d hh mm ss : Z).
Context (Hy : 1 <= y <= 9999) (Hm : 1 <= m <= 12)
        (Hd : 1 <= d <= days_in_month y m).
Context (Hhh : 0 <= hh <= 23) (Hmm : 0 <= mm <= 59) (Hss : 0 <= ss <= 59).

Let date_items (items : list Strptime.item) : list Strptime.item :=
  Strptime.Directive "Y" :: Strptime.Literal "-" :: Strptime.Directive "m"
  :: Strptime.Literal "-" :: Strptime.Directive "d" :: items.
Let time_items : list Strptime.item :=
  [Strptime.Directive "H"; Strptime.Literal ":"; Strptime.Directive "M";
   Strptime.Literal ":"; Strptime.Directive "S"].
Let date : string := pad4 y +:+ "-" +:+ pad2 m +:+ "-" +:+ pad2 d.
Let time : string := pad2 hh +:+ ":" +:+ pad2 mm +:+ ":" +:+ pad2 ss.
Let date_found (found : list (ascii * string)) : list (ascii * string) :=
  ("Y"%char, pad4 y) :: ("m"%char, pad2 m) :: ("d"%char, pad2 d) :: found.

Lemma day_le_31 : 1 <= d <= 31.
Proof.
  revert Hd. unfold days_in_month.
  repeat match goal with |- context [if ?b then _ else _] => destruct b end;
    lia.
Qed.

Lemma date_app rest :
  date +:+ rest = pad4 y +:+ String "-" (pad2 m +:+ String "-" (pad2 d +:+ rest)).
Proof. unfold date. by rewrite !app_assoc_s. Qed.

Lemma date_items_first items rest found s2 :
  head (Strptime.match_items items rest) = Some (found, s2) →
  head (Strptime.match_items (date_items items) (date +:+ rest))
  = Some (date_found found, s2).
Proof.
  intros Hhead. rewrite date_app. unfold date_items.
  assert (head (Strptime.match_items
                  (Strptime.Literal "-" :: Strptime.Directive "d" :: items)
                  (String "-" (pad2 d +:+ rest)))
          = Some (("d"%char, pad2 d) :: found, s2)) as Hday.
  { rewrite match_items_literal.
    eapply match_items_pad2_first;
      [reflexivity | by apply reads_pad2_d | exact day_le_31 | exact Hhead]. }
  rewrite match_items_pad4, head_fmap, match_items_literal.
  erewrite match_items_pad2_first;
    [reflexivity | reflexivity | by apply reads_pad2_m | exact Hm | exact Hday].
Qed.

Lemma date_items_nil items rest :
  Strptime.match_items items rest = [] → rejects_digit items →
  Strptime.match_items (date_items items) (date +:+ rest) = [].
Proof.
  intros Hnil Hrej. rewrite date_app. unfold date_items.
  rewrite match_items_pad4, match_items_literal.
  erewrite match_items_pad2_nil;
    [reflexivity | reflexivity | by apply reads_pad2_m | exact Hm | |
     apply rejects_digit_literal; by left].
  rewrite match_items_literal.
  eapply match_items_pad2_nil;
    [reflexivity | by apply reads_pad2_d | exact day_le_31 | done | done].
Qed.

Lemma hour_first rest :
  head (Strptime.match_items [Strptime.Directive "H"] (pad2 hh +:+ rest))
  = Some ([("H"%char, pad2 hh)], rest).
Proof.
  eapply match_items_pad2_first;
    [reflexivity | by apply reads_pad2_H | exact Hhh | done].
Qed.

Lemma hour_colon_nil items :
  Strptime.match_items
    (Strptime.Directive "H" :: Strptime.Literal ":" :: items) (pad2 hh) = [].
Proof.
  rewrite <- (app_empty_r (pad2 hh)).
  eapply match_items_pad2_nil;
    [reflexivity | by apply reads_pad2_H | exact Hhh | done |
     apply rejects_digit_literal; by right; left].
Qed.

Lemma time_items_first :
  head (Strptime.match_items time_items time)
  = Some ([("H"%char, pad2 hh); ("M"%char, pad2 mm); ("S"%char, pad2 ss)], "").
Proof.
  unfold time_items, time.
  change (pad2 hh +:+ ":" +:+ pad2 mm +:+ ":" +:+ pad2 ss)
    with (pad2 hh +:+ String ":" (pad2 mm +:+ String ":" (pad2 ss))).
  eapply match_items_pad2_first;
    [reflexivity | by apply reads_pad2_H | exact Hhh |].
  rewrite match_items_literal.
  eapply match_items_pad2_first;
    [reflexivity | by apply reads_pad2_M | exact Hmm |].
  rewrite match_items_literal. rewrite <- (app_empty_r (pad2 ss)).
  eapply match_items_pad2_first;
    [reflexivity | by apply reads_pad2_S | exact Hss | done].
Qed.

(** *** [strptime] on a rendering that starts with the date *)

Lemma strptime_first format items rest found :
  Strptime.pattern format = Some (date_items items) →
  head (Strptime.match_items items rest) = Some (found, "") →
  Strptime.strptime (date +:+ rest) format
  = Strptime.new y m d (Strptime.group "H" 0 found)
      (Strptime.group "M" 0 found) (Strptime.group "S" 0 found).
Proof.
  intros Hpat Hhead. unfold Strptime.strptime. rewrite Hpat.
  cbn [mbind option_bind].
  rewrite (date_items_first _ _ _ _ Hhead). cbn [mbind option_bind].
  rewrite decide_True by done.
  unfold date_found. cbn [Strptime.group Ascii.eqb Bool.eqb]. cbv iota.
  by rewrite int_pad4, !int_pad2 by (pose proof day_le_31; lia).
Qed.

Lemma strptime_no_match format items rest :
  Strptime.pattern format = Some (date_items items) →
  Strptime.match_items items rest = [] → rejects_digit items →
  Strptime.strptime (date +:+ rest) format = None.
Proof.
  intros Hpat Hnil Hrej. unfold Strptime.strptime. rewrite Hpat.
  cbn [mbind option_bind]. by rewrite date_items_nil.
Qed.

Lemma strptime_unconverted format c rest :
  Strptime.pattern format = Some (date_items []) →
  Strptime.strptime (date +:+ String c rest) format = None.
Proof.
  intros Hpat. unfold Strptime.strptime. rewrite Hpat.
  cbn [mbind option_bind].
  by rewrite (date_items_first [] (String c rest) [] (String c rest)).
Qed.

Lemma new_ok : Strptime.new y m d hh mm ss = Some (make y m d hh mm ss 0).
Proof. unfold Strptime.new. by rewrite decide_True. Qed.

Lemma new_hour : Strptime.new y m d hh 0 0 = Some (make y m d hh 0 0 0).
Proof. unfold Strptime.new. rewrite decide_True; [done|]. split_and!; lia. Qed.

Lemma new_date : Strptime.new y m d 0 0 0 = Some (make y m d 0 0 0 0).
Proof. unfold Strptime.new. rewrite decide_True; [done|]. split_and!; lia. Qed.

(** *** [parse_datetime] on the five renderings *)

Lemma parse_datetime_space_time :
  parse_datetime (date +:+ " " +:+ time) = inr (make y m d hh mm ss 0).
Proof.
  unfold parse_datetime, formats. cbn [parse_datetime_loop].
  erewrite (strptime_first "%Y-%m-%d %H:%M:%S" (Strptime.Space :: time_items));
    [| reflexivity |].
  2:{ change (" " +:+ time) with (String " " (pad2 hh +:+ ":" +:+ pad2 mm +:+ ":" +:+ pad2 ss)).
      rewrite match_items_space_pad2. exact time_items_first. }
  cbn [Strptime.group Ascii.eqb Bool.eqb]. cbv iota.
  rewrite !int_pad2 by lia. by rewrite new_ok.
Qed.

Lemma parse_datetime_space_hour :
  parse_datetime (date +:+ " " +:+ pad2 hh) = inr (make y m d hh 0 0 0).
Proof.
  unfold parse_datetime, formats. cbn [parse_datetime_loop].
  change (" " +:+ pad2 hh) with (String " " (pad2 hh)).
  rewrite (strptime_no_match "%Y-%m-%d %H:%M:%S" (Strptime.Space :: time_items));
    [| reflexivity | | apply rejects_digit_space].
  2:{ rewrite <- (app_empty_r (pad2 hh)), match_items_space_pad2, app_empty_r.
      apply hour_colon_nil. }
  erewrite (strptime_first "%Y-%m-%d %H"
              [Strptime.Space; Strptime.Directive "H"]); [| reflexivity |].
  2:{ rewrite <- (app_empty_r (pad2 hh)), match_items_space_pad2.
      apply hour_first. }
  cbn [Strptime.group Ascii.eqb Bool.eqb]. cbv iota.
  rewrite !int_pad2 by lia. by rewrite new_hour.
Qed.

Lemma parse_datetime_date :
  parse_datetime date = inr (make y m d 0 0 0 0).
Proof.
  unfold parse_datetime, formats. cbn [parse_datetime_loop].
  rewrite <- (app_empty_r date).
  rewrite (strptime_no_match "%Y-%m-%d %H:%M:%S" (Strptime.Space :: time_items));
    [| reflexivity | done | apply rejects_digit_space].
  rewrite (strptime_no_match "%Y-%m-%d %H"
             [Strptime.Space; Strptime.Directive "H"]);
    [| reflexivity | done | apply rejects_digit_space].
  erewrite (strptime_first "%Y-%m-%d" []); [| reflexivity | reflexivity].
  cbn [Strptime.group]. by rewrite new_date.
Qed.

Lemma parse_datetime_T_time :
  parse_datetime (date +:+ "T" +:+ time) = inr (make y m d hh mm ss 0).
Proof.
  unfold parse_datetime, formats. cbn [parse_datetime_loop].
  change ("T" +:+ time) with (String "T" time).
  rewrite (strptime_no_match "%Y-%m-%d %H:%M:%S" (Strptime.Space :: time_items));
    [| reflexivity | done | apply rejects_digit_space].
  rewrite (strptime_no_match "%Y-%m-%d %H"
             [Strptime.Space; Strptime.Directive "H"]);
    [| reflexivity | done | apply rejects_digit_space].
  rewrite (strptime_unconverted "%Y-%m-%d") by reflexivity.
  erewrite (strptime_first "%Y-%m-%dT%H:%M:%S"
              (Strptime.Literal "T" :: time_items)); [| reflexivity |].
  2:{ rewrite match_items_literal. exact time_items_first. }
  cbn [Strptime.group Ascii.eqb Bool.eqb]. cbv iota.
  rewrite !int_pad2 by lia. by rewrite new_ok.
Qed.

Lemma parse_datetime_T_hour :
  parse_datetime (date +:+ "T" +:+ pad2 hh) = inr (make y m d hh 0 0 0).
Proof.
  unfold parse_datetime, formats. cbn [parse_datetime_loop].
  change ("T" +:+ pad2 hh) with (String "T" (pad2 hh)).
  rewrite (strptime_no_match "%Y-%m-%d %H:%M:%S" (Strptime.Space :: time_items));
    [| reflexivity | done | apply rejects_digit_space].
  rewrite (strptime_no_match "%Y-%m-%d %H"
             [Strptime.Space; Strptime.Directive "H"]);
    [| reflexivity | done | apply rejects_digit_space].
  rewrite (strptime_unconverted "%Y-%m-%d") by reflexivity.
  rewrite (strptime_no_match "%Y-%m-%dT%H:%M:%S"
             (Strptime.Literal "T" :: time_items));
    [| reflexivity | | apply rejects_digit_literal; by right; right].
  2:{ rewrite match_items_literal. apply hour_colon_nil. }
  erewrite (strptime_first "%Y-%m-%dT%H"
              [Strptime.Literal "T"; Strptime.Directive "H"]); [| reflexivity |].
  2:{ rewrite match_items_literal, <- (app_empty_r (pad2 hh)).
      apply hour_first. }
  cbn [Strptime.group Ascii.eqb Bool.eqb]. cbv iota.
  rewrite !int_pad2 by lia. by rewrite new_hour.
Qed.

End fields.

(** *** The calendar checks of [datetime(...)] *)

Lemma year_length y :
  days_before_year (y + 1)
  = days_before_year y + (if is_leap y then 366 else 365).
Proof.
  unfold days_before_year, is_leap. cbv zeta.
  replace (y + 1 - 1) with (y - 1 + 1) by lia.
  destruct (Z.eqb_spec (y mod 4) 0), (Z.eqb_spec (y mod 100) 0),
    (Z.eqb_spec (y mod 400) 0); cbn [negb andb orb];
    Z.div_mod_to_equations; lia.
Qed.

Lemma days_before_next_month y m :
  1 <= m <= 12 →
  days_before_month y m + days_in_month y m
  <= if is_leap y then 366 else 365.
Proof.
  intros Hm.
  assert (m = 1 ∨ m = 2 ∨ m = 3 ∨ m = 4 ∨ m = 5 ∨ m = 6 ∨ m = 7 ∨ m = 8
          ∨ m = 9 ∨ m = 10 ∨ m = 11 ∨ m = 12) as Hcases by lia.
  repeat destruct Hcases as [->|Hcases]; try subst m;
    destruct (is_leap y) eqn:Hleap; cbv -[is_leap]; rewrite ?Hleap;
    by vm_compute.
Qed.

Lemma day_of_year_bound y m d :
  1 <= m <= 12 → 1 <= d <= days_in_month y m →
  1 <= days_before_month y m + d <= if is_leap y then 366 else 365.
Proof.
  intros Hm Hd. pose proof (days_before_next_month y m Hm).
  pose proof (days_before_month_nonneg y m).
  destruct (is_leap y); lia.
Qed.

Lemma make_valid y m d hh mm ss :
  1 <= y <= 9999 → 1 <= m <= 12 → 1 <= d <= days_in_month y m →
  0 <= hh <= 23 → 0 <= mm <= 59 → 0 <= ss <= 59 →
  valid (make y m d hh mm ss 0) ∧ microsecond (make y m d hh mm ss 0) = 0.
Proof.
  intros Hy Hm Hd Hhh Hmm Hss.
  pose proof (day_of_year_bound y m d Hm Hd) as Hday.
  pose proof (year_length y) as Hlen.
  pose proof (days_before_year_mono 1 y ltac:(lia) ltac:(lia)) as Hlo.
  pose proof (days_before_year_mono (y + 1) 10000 ltac:(lia) ltac:(lia)) as Hhi.
  change (days_before_year 1) with 0 in Hlo.
  change (days_before_year 10000) with 3652059 in Hhi.
  assert (1 <= ymd2ord y m d <= 3652059) as Hord.
  { unfold ymd2ord. destruct (is_leap y); lia. }
  split.
  - unfold valid. change max_value with (3652059 * 86400000000 - 1).
    unfold make, us_per_day, us_per_hour, us_per_minute, us_per_second.
    lia.
  - unfold microsecond, make, us_per_day, us_per_hour, us_per_minute,
      us_per_second.
    Z.div_mod_to_equations; lia.
Qed.

(** *** What [parse_datetime] returns *)

Lemma strptime_valid data_string format t :
  Strptime.strptime data_string format = Some t →
  valid t ∧ microsecond t = 0.
Proof.
  unfold Strptime.strptime.
  destruct (Strptime.pattern format) as [items|]; [|done].
  cbn [mbind option_bind].
  destruct (head (Strptime.match_items items data_string)) as [[found rest]|];
    [|done].
  cbn [mbind option_bind]. destruct (decide (rest = "")); [|done].
  unfold Strptime.new.
  destruct (decide _) as [(Hy & Hm & Hd & Hhh & Hmm & Hss)|]; [|done].
  intros [= <-]. by apply make_valid.
Qed.

Lemma parse_datetime_loop_valid fmts dt_string t :
  parse_datetime_loop fmts dt_string = inr t → valid t ∧ microsecond t = 0.
Proof.
  induction fmts as [|fmt fmts IH]; [done|]. cbn [parse_datetime_loop].
  destruct (Strptime.strptime dt_string fmt) as [t'|] eqn:Hfmt; [|exact IH].
  intros [= <-]. by eapply strptime_valid.
Qed.

Lemma parse_datetime_loop_error fmts dt_string msg :
  parse_datetime_loop fmts dt_string = inl msg →
  msg = "Unable to parse datetime: " +:+ dt_string.
Proof.
  induction fmts as [|fmt fmts IH]; [by intros [= <-]|].
  cbn [parse_datetime_loop].
  by destruct (Strptime.strptime dt_string fmt).
Qed.

(** *** The renderings of a datetime *)

Lemma make_hour_floor t :
  valid t →
  make (year t) (month t) (day t) (hour t) 0 0 0
  = replace_minute_second_microsecond_0 t.
Proof.
  intros Hv.
  destruct (fields_spec t Hv) as (_ & _ & _ & _ & _ & _ & _ & Hmake).
  revert Hmake. unfold replace_minute_second_microsecond_0.
  generalize (year t) (month t) (day t) (hour t) (minute t) (second t)
    (microsecond t).
  intros y m d hh mm ss us. unfold make.
  generalize (ymd2ord y m d). intros o Hmake. lia.
Qed.
Lemma make_midnight t :
  valid t →
  make (year t) (month t) (day t) 0 0 0 0 = t - t mod us_per_day.
Proof.
  intros Hv.
  destruct (fields_spec t Hv)
    as (_ & _ & _ & Hhh & Hmm & Hss & Hus & Hmake).
  revert Hhh Hmm Hss Hus Hmake.
  generalize (year t) (month t) (day t) (hour t) (minute t) (second t)
    (microsecond t).
  intros y m d hh mm ss us. unfold make.
  generalize (ymd2ord y m d). intros o Hhh Hmm Hss Hus Hmake.
  assert (t mod us_per_day
          = hh * us_per_hour + mm * us_per_minute + ss * us_per_second + us)
    as ->.
  { symmetry. apply (Z.mod_unique_pos _ _ (o - 1)).
    - unfold us_per_day, us_per_hour, us_per_minute, us_per_second. lia.
    - lia. }
  lia.
Qed.
Lemma parse_datetime_str t :
  valid t → microsecond t = 0 → parse_datetime (str t) = inr t.
Proof.
  intros Hv Hzero.
  destruct (fields_spec t Hv)
    as (Hy & Hm & Hd & Hhh & Hmm & Hss & Hus & Hmake).
  rewrite Hzero in Hmake. unfold str, hms, strftime_Ymd.
  rewrite parse_datetime_space_time by lia. by rewrite Hmake.
Qed.

Lemma parse_datetime_Ymd t :
  valid t → parse_datetime (strftime_Ymd t) = inr (t - t mod us_per_day).
Proof.
  intros Hv.
  destruct (fields_spec t Hv) as (Hy & Hm & Hd & _).
  unfold strftime_Ymd.
  rewrite parse_datetime_date by lia. by rewrite make_midnight.
Qed.

(** X20 (parse_datetime, lines 63-79).  The renderings of a datetime are
    read back: [str(t)] and [t.isoformat()] of a datetime with no
    microseconds give [t] itself, the renderings that stop at the hour give
    the start of the hour of [t] (the first bucket [generate_urls] makes
    from [t]), and the date alone gives the midnight before [t].  Each
    rendering is refused by the formats listed before its own. *)
Theorem parse_datetime_renderings (t : datetime) :
  valid t →
  (microsecond t = 0 →
   parse_datetime (str t) = inr t ∧ parse_datetime (isoformat t) = inr t)
  ∧ parse_datetime (strftime_Ymd t +:+ " " +:+ pad2 (hour t))
    = inr (replace_minute_second_microsecond_0 t)
  ∧ parse_datetime (strftime_Ymd t +:+ "T" +:+ pad2 (hour t))
    = inr (replace_minute_second_microsecond_0 t)
  ∧ parse_datetime (strftime_Ymd t) = inr (t - t mod us_per_day).
Proof.
  intros Hv.
  destruct (fields_spec t Hv)
    as (Hy & Hm & Hd & Hhh & Hmm & Hss & Hus & Hmake).
  pose proof (make_hour_floor t Hv) as Hhour.
  split_and!.
  - intros Hzero. split; [by apply parse_datetime_str|].
    rewrite Hzero in Hmake. unfold isoformat, hms, strftime_Ymd.
    rewrite parse_datetime_T_time by lia. by rewrite Hmake.
  - unfold strftime_Ymd.
    rewrite parse_datetime_space_hour by lia. by rewrite Hhour.
  - unfold strftime_Ymd.
    rewrite parse_datetime_T_hour by lia. by rewrite Hhour.
  - by apply parse_datetime_Ymd.
Qed.

Lemma parse_datetime_renderings_witness :
  parse_datetime (str t12_30) = inr t12_30
  ∧ parse_datetime (strftime_Ymd t12_30 +:+ "T" +:+ pad2 (hour t12_30))
    = inr (replace_minute_second_microsecond_0 t12_30).
Proof.
  destruct (parse_datetime_renderings t12_30) as (Hfull & _ & Hhour & _).
  - split; vm_compute; discriminate.
  - split; [apply Hfull; vm_compute; reflexivity | exact Hhour].
Defined.

(** X21 (parse_datetime, lines 63-79).  A datetime that [parse_datetime]
    returns is in the range of [datetime] and has no microseconds, whatever
    the text; when no format fits, the error names the text. *)
Theorem parse_datetime_result (dt_string : string) :
  (∀ t, parse_datetime dt_string = inr t → valid t ∧ microsecond t = 0)
  ∧ (∀ msg, parse_datetime dt_string = inl msg →
       msg = "Unable to parse datetime: " +:+ dt_string).
Proof.
  split.
  - intros t. apply parse_datetime_loop_valid.
  - intros msg. apply parse_datetime_loop_error.
Qed.

Lemma parse_datetime_result_witness :
  valid (make 2024 1 1 10 0 0 0) ∧ microsecond (make 2024 1 1 10 0 0 0) = 0.
Proof.
  apply (parse_datetime_result "2024-01-01T10"). vm_compute. reflexivity.
Defined.

(** ** The requests of a run, URL by URL *)

Lemma occurrences_app u l1 l2 :
  occurrences u (l1 ++ l2) = (occurrences u l1 + occurrences u l2)%nat.
Proof. unfold occurrences. by rewrite filter_app, length_app. Qed.

Lemma occurrences_replicate u v n :
  (occurrences u (replicate n v) <= if decide (u = v) then n else 0)%nat.
Proof.
  unfold occurrences. induction n as [|n IH]; [by destruct (decide _)|].
  cbn [replicate]. rewrite filter_cons.
  destruct (decide (u = v)); cbn [length]; lia.
Qed.

Lemma occurrences_cons u v l :
  occurrences u (v :: l)
  = ((if decide (u = v) then 1 else 0) + occurrences u l)%nat.
Proof. unfold occurrences. rewrite filter_cons. by destruct (decide _). Qed.

Lemma occurrences_NoDup u l : NoDup l → (occurrences u l <= 1)%nat.
Proof.
  induction 1 as [|v l Hv Hl IH]; [cbn; lia|]. rewrite occurrences_cons.
  destruct (decide (u = v)) as [->|]; [|lia].
  assert (occurrences v l = 0%nat) as ->; [|lia].
  unfold occurrences. apply length_zero_iff_nil.
  destruct (filter (v =.) l) as [|x xs] eqn:Hf; [done|].
  assert (x ∈ filter (v =.) l) as Hx by (rewrite Hf; left).
  apply list_elem_of_filter in Hx as [<- Hx]. done.
Qed.

Lemma task_urls_all_from (pre urls : list string) :
  task_urls (pre ++ urls) (seq (length pre) (length urls)) = urls.
Proof.
  revert pre. induction urls as [|u urls IH]; intros pre; [done|].
  cbn [length seq]. unfold task_urls in *. cbn [omap list_omap].
  rewrite list_lookup_middle by done. cbn [option_bind]. f_equal.
  specialize (IH (pre ++ [u])). rewrite length_app, <- app_assoc in IH.
  cbn in IH. by rewrite Nat.add_1_r in IH.
Qed.

Lemma task_urls_completion_order urls order :
  task_urls urls (completion_order order (length urls)) ≡ₚ urls.
Proof.
  unfold task_urls. rewrite completion_order_perm.
  exact (eq_ind _ (λ l, l ≡ₚ urls) (reflexivity urls) _
           (eq_sym (task_urls_all_from [] urls))).
Qed.

Section pool_requests.

Variables (urls : list string) (output_path : string).
Variable net : nat → Z → attempt_env.

(** The requests of a run, task by task: no more than three for each task,
    all to the URL of the task. *)
Lemma run_tasks_requests_each l : ∀ w,
  ∃ new,
    requests (log (run_tasks urls output_path net l w).2)
    = requests (log w) ++ new
    ∧ Forall (λ u, u ∈ urls) new
    ∧ (length new <= 3 * length l)%nat
    ∧ ∀ u, (occurrences u new <= 3 * occurrences u (task_urls urls l))%nat.
Proof.
  induction l as [|i l IH]; intros w.
  - exists []. cbn. rewrite app_nil_r. split_and!; try done; cbn; lia.
  - destruct (urls !! i) as [u|] eqn:Hu.
    + rewrite (run_tasks_cons urls output_path net i u) by done. cbn [snd].
      assert (task_urls urls (i :: l) = u :: task_urls urls l) as ->.
      { unfold task_urls. cbn [omap list_omap]. by rewrite Hu. }
      destruct (IH (download_file u output_path 3 (net i) w).2)
        as (new & -> & Hall & Hlen & Hcount).
      destruct (download_file_log_cases u output_path 3 (net i) w)
        as [[-> _]|(j & Hj & _ & _ & -> & _)].
      * exists new. split_and!; [done | done | cbn; lia |].
        intros v. specialize (Hcount v). rewrite occurrences_cons. lia.
      * exists (replicate (S j) u ++ new). rewrite <- app_assoc.
        split_and!; [done | | |].
        -- apply Forall_app. split; [| done].
           apply Forall_replicate. by eapply list_elem_of_lookup_2.
        -- rewrite length_app, length_replicate. cbn [length]. lia.
        -- intros v. specialize (Hcount v).
           pose proof (occurrences_replicate v u (S j)) as Hrep.
           rewrite occurrences_app, occurrences_cons.
           destruct (decide (v = u)); lia.
    + rewrite (run_tasks_skip_index urls output_path net) by done.
      assert (task_urls urls (i :: l) = task_urls urls l) as ->.
      { unfold task_urls. cbn [omap list_omap]. by rewrite Hu. }
      destruct (IH w) as (new & -> & Hall & Hlen & Hcount).
      exists new. split_and!; [done | done | cbn; lia | done].
Qed.

End pool_requests.

(** X14. Whatever the order of completion and whatever the network does, a
    run of [download_archives] requests only URLs that [generate_urls]
    returned, no URL more than three times for each time it is in the list
    (three attempts each), hence at most three times as many as there are
    URLs; for valid datetimes the URLs are distinct, and no URL is
    requested more than three times.  When [generate_urls] raises or the
    range is empty nothing is requested. *)
Theorem download_archives_requests start_dt end_dt output_path max_workers
    order net t_start t_end w :
  ∃ new,
    requests (log (download_archives start_dt end_dt output_path max_workers
                     order net t_start t_end w).2)
    = requests (log w) ++ new
    ∧ match generate_urls start_dt end_dt with
      | inl _ => new = []
      | inr urls =>
          Forall (λ u, u ∈ urls.*1) new
          ∧ (length new <= 3 * length urls)%nat
          ∧ (∀ u, (occurrences u new <= 3 * occurrences u urls.*1)%nat)
          ∧ (valid start_dt → valid end_dt →
             ∀ u, (occurrences u new <= 3)%nat)
      end.
Proof.
  destruct (download_archives_cases start_dt end_dt output_path max_workers
              order net t_start t_end w)
    as [(e & Hgen & ->) | [[Hgen ->] | [(urls & e & Hgen & _ & Hw & ->)
       | (urls & s & Hgen & _ & _ & -> & _)]]]; rewrite Hgen; cbn [snd log].
  - exists []. by rewrite app_nil_r.
  - exists []. rewrite app_nil_r.
    split_and!; [done | constructor | cbn; lia | intros; cbn; lia
                | intros; cbn; lia].
  - exists []. rewrite app_nil_r.
    split_and!; [done | constructor | cbn; lia | intros; cbn; lia
                | intros; cbn; lia].
  - destruct (run_tasks_requests_each (map fst urls) output_path net
                (completion_order order (length urls))
                {| fs := fs w; stats := Stats.init t_start; log := log w |})
      as (new & Hreq & Hall & Hlen & Hcount).
    exists new. rewrite completion_order_length in Hlen.
    assert (Hper : ∀ u, (occurrences u new <= 3 * occurrences u urls.*1)%nat).
    { intros u. specialize (Hcount u).
      replace (length urls) with (length (map fst urls)) in Hcount
        by apply length_map.
      unfold occurrences in Hcount at 2.
      rewrite task_urls_completion_order in Hcount. exact Hcount. }
    split_and!; try done.
    intros Hvs Hve u.
    destruct (generate_urls_NoDup start_dt end_dt output_path urls Hvs Hve Hgen)
      as (_ & Hnodup & _).
    pose proof (occurrences_NoDup u _ Hnodup). specialize (Hper u). lia.
Qed.

(** Three hours, the second one reached at its second attempt. *)
Lemma download_archives_requests_witness :
  ∃ new,
    requests (log (download_archives t10 t12_30 sample_dir 10 [] reset_once_pool
                     0 5 empty_world).2)
    = requests (log empty_world) ++ new
    ∧ (length new <= 9)%nat
    ∧ ∀ u, (occurrences u new <= 3)%nat.
Proof.
  destruct (download_archives_requests t10 t12_30 sample_dir 10 []
              reset_once_pool 0 5 empty_world) as (new & Hreq & Hcases).
  exists new. split; [exact Hreq|].
  assert (generate_urls t10 t12_30
          = inr (map work_item (buckets t10 3))) as Hgen
    by (vm_compute; reflexivity).
  rewrite Hgen in Hcases. destruct Hcases as (_ & Hlen & _ & Heach).
  split; [exact Hlen|].
  apply Heach; split; vm_compute; discriminate.
Defined.

(** ** [main] *)

Example main_samples :
  (main "2024-01-01" "2024-01-02" sample_dir 10 [] served_pool 0 5 None
     empty_world).1
  = inr (Some {| successful := 25; failed := 0; total := 25;
                 total_downloaded := 50 # 1048576; total_time := 5;
                 avg_speed := (50 # 1048576) / 5;
                 failure_messages := [] |})
  ∧ (main "2024-01-01T10" "2024-01-01T09" sample_dir 10 [] served_pool 0 5
       None empty_world).1
    = inl "Error: Start datetime must be before end datetime"
  ∧ (main "2024-01-01 10:00" "2024-01-02" sample_dir 10 [] served_pool 0 5
       None empty_world).1
    = inl "Error: Unable to parse datetime: 2024-01-01 10:00"
  ∧ (main "9999-12-31" "9999-12-31T23" sample_dir 10 [] served_pool 0 5
       None empty_world).1
    = inl "Unexpected error: date value out of range"
  ∧ (main "2024-01-01" "2024-01-02" sample_dir 0 [] served_pool 0 5
       None empty_world).1
    = inl "Error: max_workers must be greater than 0".
Proof. repeat split; vm_compute; reflexivity. Qed.

(** Interrupted with two of three tasks submitted: the two archives are
    written all the same, the third is never asked for. *)
Example main_interrupted_sample :
  (main "2024-01-01T10" "2024-01-01T12" sample_dir 10 [] served_pool 0 5
     (Some 2%nat) empty_world).1 = inl interrupted_line
  ∧ requests
      (log (main "2024-01-01T10" "2024-01-01T12" sample_dir 10 [] served_pool
              0 5 (Some 2%nat) empty_world).2)
    = ["https://data.gharchive.org/2024-01-01-10.json.gz";
       "https://data.gharchive.org/2024-01-01-11.json.gz"]
  ∧ dom (files (fs (main "2024-01-01T10" "2024-01-01T12" sample_dir 10 []
                      served_pool 0 5 (Some 2%nat) empty_world).2))
    = {["work/archives/2024-01-01-10.json.gz";
        "work/archives/2024-01-01-11.json.gz"]}.
Proof. split_and!; vm_compute; reflexivity. Qed.

Lemma hours_covered_pos start_dt end_dt :
  start_dt <= end_dt → 1 <= hours_covered start_dt end_dt.
Proof.
  intros Hle. unfold hours_covered. rewrite !replace_is_floor.
  unfold us_per_hour, us_per_minute, us_per_second.
  Z.div_mod_to_equations; lia.
Qed.

Lemma replace_le t : replace_minute_second_microsecond_0 t <= t.
Proof.
  rewrite replace_is_floor. unfold us_per_hour, us_per_minute, us_per_second.
  Z.div_mod_to_equations; lia.
Qed.

Section main_facts.

Variables (start end_ output : string) (workers : Z) (order : list nat).
Variable net : nat → Z → attempt_env.
Variables (t_start t_end : Q) (interrupt : option nat) (w : world).

Let run := main start end_ output workers order net t_start t_end interrupt w.

(** The seven ways [main] can end. *)
Lemma main_cases :
  (∃ msg, parse_datetime start = inl msg
          ∧ run = (inl ("Error: " +:+ msg), w))
  ∨ (∃ start_dt msg,
       parse_datetime start = inr start_dt ∧ parse_datetime end_ = inl msg
       ∧ run = (inl ("Error: " +:+ msg), w))
  ∨ (∃ start_dt end_dt,
       parse_datetime start = inr start_dt ∧ parse_datetime end_ = inr end_dt
       ∧ valid start_dt ∧ valid end_dt
       ∧ ((end_dt < start_dt
           ∧ run = (inl "Error: Start datetime must be before end datetime", w))
          ∨ (start_dt <= end_dt ∧ last_hour <= end_dt
             ∧ run = (inl "Unexpected error: date value out of range", w))
          ∨ (start_dt <= end_dt < last_hour ∧ workers <= 0
             ∧ run.1 = inl "Error: max_workers must be greater than 0"
             ∧ fs run.2 = fs w ∧ log run.2 = log w)
          ∨ (start_dt <= end_dt < last_hour ∧ 0 < workers
             ∧ (∃ k, interrupt = Some k) ∧ run.1 = inl interrupted_line)
          ∨ (start_dt <= end_dt < last_hour ∧ 0 < workers
             ∧ interrupt = None
             ∧ ∃ summary,
                 run.1 = inr (Some summary)
                 ∧ run = (inr (Some summary),
                          (download_archives start_dt end_dt output workers
                             order net t_start t_end w).2)
                 ∧ total summary = hours_covered start_dt end_dt
                 ∧ successful summary + failed summary = total summary))).
Proof.
  unfold run, main.
  destruct (parse_datetime start) as [msg|start_dt] eqn:Hstart;
    [left; by exists msg|].
  destruct (parse_datetime end_) as [msg|end_dt] eqn:Hend;
    [right; left; by exists start_dt, msg|].
  right; right. exists start_dt, end_dt.
  destruct (parse_datetime_loop_valid _ _ _ Hstart) as [Hvs _].
  destruct (parse_datetime_loop_valid _ _ _ Hend) as [Hve _].
  split_and!; try done.
  destruct (decide (end_dt < start_dt)) as [Hlt|Hle]; [by left|].
  right. assert (start_dt <= end_dt) as Hse by lia. clear Hle.
  pose proof (replace_le start_dt) as Hfloor.
  destruct (decide (last_hour <= end_dt)) as [Hlast|Hlast].
  { left. split_and!; try done.
    assert (generate_urls start_dt end_dt = inl overflow_error) as Hgen
      by (apply generate_urls_hours_overflow; done || lia).
    assert (interrupt
            ≫= download_archives_interrupted start_dt end_dt output workers
                 order net t_start w = None) as ->.
    { destruct interrupt as [k|]; [|done]. cbn [mbind option_bind].
      unfold download_archives_interrupted. by rewrite Hgen. }
    unfold download_archives. by rewrite Hgen. }
  right. assert (end_dt < last_hour) as Hbefore by lia. clear Hlast.
  pose proof (generate_urls_hours start_dt end_dt Hvs ltac:(lia) Hbefore)
    as Hgen.
  pose proof (hours_covered_pos start_dt end_dt Hse) as Hpos.
  fold (hours_covered start_dt end_dt) in Hgen.
  assert (∃ item items,
            generate_urls start_dt end_dt = inr (item :: items))
    as (item & items & Hcons).
  { rewrite Hgen.
    destruct (Z.to_nat (hours_covered start_dt end_dt)) as [|n] eqn:Hn;
      [lia|]. rewrite buckets_S. cbn [map]. by eexists _, _. }
  destruct (Z.leb_spec workers 0) as [Hw|Hw].
  { left. split; [lia|]. split; [done|].
    assert (interrupt
            ≫= download_archives_interrupted start_dt end_dt output workers
                 order net t_start w = None) as ->.
    { destruct interrupt as [k|]; [|done]. cbn [mbind option_bind].
      unfold download_archives_interrupted. rewrite Hcons.
      by destruct (Z.leb_spec workers 0); [|lia]. }
    unfold download_archives. rewrite Hcons.
    by destruct (Z.leb_spec workers 0); [|lia]. }
  right. destruct interrupt as [k|].
  { left. split; [lia|]. split; [done|]. split; [by exists k|].
    cbn [mbind option_bind]. unfold download_archives_interrupted.
    rewrite Hcons. by destruct (Z.leb_spec workers 0); [lia|]. }
  right. split; [lia|]. split; [done|]. split; [done|].
  cbn [mbind option_bind].
  destruct (download_archives_cases start_dt end_dt output workers order net
              t_start t_end w)
    as [(e & Hraise & _)|[(Hnone & _)
        |[(urls & e & Hurls & Hne & Hw' & Hrun)
         |(urls & s & Hurls & Hne & Hw' & Hrun & Hpool & Hok & Hko & Htotal & _)]]];
    [congruence | congruence | lia |].
  exists s. rewrite Hrun. cbn [fst snd]. split_and!; try done.
  - rewrite Htotal. rewrite Hgen in Hurls. injection Hurls as <-.
    rewrite length_map, buckets_length. lia.
  - rewrite Hok, Hko, Htotal, <- Hpool.
    pose proof (pool_results_length start_dt end_dt output order net
                  t_start w urls Hurls) as Hlen.
    pose proof (successes_failures
                  (pool_results start_dt end_dt output order net t_start w))
      as Hsum.
    revert Hsum Hlen.
    generalize (pool_results start_dt end_dt output order net t_start w).
    intros rs Hsum Hlen. lia.
Qed.

End main_facts.

(** X22 (main, lines 230-248).  [main] returns, and the process ends with
    status 0, exactly when both texts are read as datetimes, the start is
    not after the end, the end is before the last hour [datetime] can hold,
    there is at least one worker and the user does not interrupt the
    program.  What the network does and which downloads fail has no part
    in it. *)
Theorem main_exit_status (start end_ output : string) (workers : Z)
    (order : list nat) (net : nat → Z → attempt_env) (t_start t_end : Q)
    (interrupt : option nat) (w : world) :
  (∃ summary,
     (main start end_ output workers order net t_start t_end interrupt w).1
     = inr summary)
  ↔ interrupt = None
    ∧ ∃ start_dt end_dt,
        parse_datetime start = inr start_dt ∧ parse_datetime end_ = inr end_dt
        ∧ start_dt <= end_dt < last_hour ∧ 0 < workers.
Proof.
  destruct (main_cases start end_ output workers order net t_start t_end
              interrupt w)
    as [(msg & Hs & ->)|[(s & msg & Hs & He & ->)
        |(s & e & Hs & He & _ & _ &
          [(Hlt & ->)|[(Hle & Hlast & ->)
           |[(Hin & Hw & -> & _)
            |[(Hin & Hw & (k & ->) & ->)
             |(Hin & Hw & -> & summary & -> & _)]]]])]];
    cbn [fst];
    (split; [intros [summary' [=]]
            | intros (Hnone & s' & e' & Hs' & He' & Hin' & Hw')]);
    rewrite ?Hs, ?He in *; try done; simplify_eq; try lia.
  - split; [done|]. by exists s, e.
  - by exists (Some summary).
Qed.

(** X23 (main, lines 230-248).  When [main] ends with an error line that is
    not the one of the interrupt handler, nothing has been downloaded: the
    files and directories are those found at the start, and no request has
    been sent and no pause made.  (After an interrupt they may have been:
    the tasks already submitted run to their end.) *)
Theorem main_error_before_downloads (start end_ output : string)
    (workers : Z) (order : list nat) (net : nat → Z → attempt_env)
    (t_start t_end : Q) (interrupt : option nat) (w : world)
    (line : string) :
  (main start end_ output workers order net t_start t_end interrupt w).1
  = inl line →
  line ≠ interrupted_line →
  fs (main start end_ output workers order net t_start t_end interrupt w).2
  = fs w
  ∧ log (main start end_ output workers order net t_start t_end interrupt w).2
    = log w.
Proof.
  destruct (main_cases start end_ output workers order net t_start t_end
              interrupt w)
    as [(msg & Hs & ->)|[(s & msg & Hs & He & ->)
        |(s & e & Hs & He & _ & _ &
          [(Hlt & ->)|[(Hle & Hlast & ->)
           |[(Hin & Hw & _ & Hfs & Hlog)
            |[(Hin & Hw & _ & ->)
             |(Hin & Hw & _ & summary & -> & _)]]]])]];
    cbn [fst snd]; try done.
  intros [= <-] Hline. done.
Qed.

Lemma main_error_before_downloads_witness :
  fs (main "2024-01-01" "2024-01-02" sample_dir 0 [] served_pool 0 5
        (Some 1%nat) empty_world).2 = fs empty_world
  ∧ log (main "2024-01-01" "2024-01-02" sample_dir 0 [] served_pool 0 5
           (Some 1%nat) empty_world).2 = log empty_world.
Proof.
  apply (main_error_before_downloads "2024-01-01" "2024-01-02" sample_dir 0 []
           served_pool 0 5 (Some 1%nat) empty_world
           "Error: max_workers must be greater than 0").
  - vm_compute. reflexivity.
  - vm_compute. discriminate.
Defined.

(** X24 (main, lines 238-248, with generate_urls, line 91).  The line
    [Unexpected error: ...] is printed in one case only: both texts are
    read, the start is not after the end, and the end is in the last hour
    [datetime] can hold, where the loop of [generate_urls] steps past
    [datetime.max]; its text is then [date value out of range].  No other
    exception reaches the last handler. *)
Theorem main_unexpected_error (start end_ output : string) (workers : Z)
    (order : list nat) (net : nat → Z → attempt_env) (t_start t_end : Q)
    (interrupt : option nat) (w : world) (text : string) :
  (main start end_ output workers order net t_start t_end interrupt w).1
  = inl ("Unexpected error: " +:+ text)
  ↔ text = "date value out of range"
    ∧ ∃ start_dt end_dt,
        parse_datetime start = inr start_dt ∧ parse_datetime end_ = inr end_dt
        ∧ start_dt <= end_dt ∧ last_hour <= end_dt.
Proof.
  destruct (main_cases start end_ output workers order net t_start t_end
              interrupt w)
    as [(msg & Hs & ->)|[(s & msg & Hs & He & ->)
        |(s & e & Hs & He & _ & _ &
          [(Hlt & ->)|[(Hle & Hlast & ->)
           |[(Hin & Hw & -> & _)
            |[(Hin & Hw & _ & ->)
             |(Hin & Hw & _ & summary & -> & _)]]]])]];
    cbn [fst]; (split; [intros [=] | intros (-> & s' & e' & Hs' & He' & Hle' & Hlast')]);
    rewrite ?Hs, ?He in *; try done; simplify_eq; try lia.
  split; [done|]. by exists s, e.
Qed.

(** X25 (main, lines 231-238, with parse_datetime and generate_urls).  Run
    on the [str] renderings of two datetimes with no microseconds, the
    first not after the second and the second before the last hour, with at
    least one worker and not interrupted, [main] returns and reports as
    total the number of hours from the hour of the first to the hour of the
    second, both included, each counted once as successful or failed. *)
Theorem main_counts_range (t1 t2 : datetime) (output : string) (workers : Z)
    (order : list nat) (net : nat → Z → attempt_env) (t_start t_end : Q)
    (w : world) :
  valid t1 → valid t2 → microsecond t1 = 0 → microsecond t2 = 0 →
  t1 <= t2 < last_hour → 0 < workers →
  ∃ summary,
    (main (str t1) (str t2) output workers order net t_start t_end None w).1
    = inr (Some summary)
    ∧ total summary = hours_covered t1 t2
    ∧ successful summary + failed summary = total summary.
Proof.
  intros Hv1 Hv2 Hz1 Hz2 Hin Hw.
  pose proof (parse_datetime_str t1 Hv1 Hz1) as H1.
  pose proof (parse_datetime_str t2 Hv2 Hz2) as H2.
  destruct (main_cases (str t1) (str t2) output workers order net t_start
              t_end None w)
    as [(msg & Hs & _)|[(s & msg & Hs & He & _)
        |(s & e & Hs & He & _ & _ &
          [(Hlt & _)|[(Hle & Hlast & _)
           |[(Hin' & Hw' & _)
            |[(_ & _ & (k & Hk) & _)
             |(_ & _ & _ & summary & Hrun & _ & Htotal & Hsum)]]]])]];
    rewrite ?H1, ?H2 in *; simplify_eq; try lia.
  by exists summary.
Qed.

Lemma main_counts_range_witness :
  ∃ summary,
    (main (str t10) (str t12_30) sample_dir 10 [] offline_pool 0 5 None
       empty_world).1 = inr (Some summary)
    ∧ total summary = hours_covered t10 t12_30
    ∧ successful summary + failed summary = total summary.
Proof.
  apply (main_counts_range t10 t12_30 sample_dir 10 [] offline_pool 0 5
           empty_world);
    first [ vm_compute; reflexivity
          | split; vm_compute; first [discriminate | reflexivity] ].
Defined.

(** X26 (main, lines 231-238, with parse_datetime and generate_urls).  Run
    on two dates, as in the first example of the usage text, [main] reads
    both as midnight and the range includes the midnight of the end date:
    with the start date not after the end date, at least one worker and no
    interrupt it returns, for every pair of dates [datetime] can hold, and
    the total is 24 archives for each day from one date to the other, and
    one more. *)
Theorem main_whole_dates (t1 t2 : datetime) (output : string) (workers : Z)
    (order : list nat) (net : nat → Z → attempt_env) (t_start t_end : Q)
    (w : world) :
  valid t1 → valid t2 → toordinal t1 <= toordinal t2 → 0 < workers →
  ∃ summary,
    (main (strftime_Ymd t1) (strftime_Ymd t2) output workers order net
       t_start t_end None w).1 = inr (Some summary)
    ∧ total summary = 24 * (toordinal t2 - toordinal t1) + 1.
Proof.
  intros Hv1 Hv2 Hdays Hw.
  pose proof (parse_datetime_Ymd t1 Hv1) as H1.
  pose proof (parse_datetime_Ymd t2 Hv2) as H2.
  assert (t1 - t1 mod us_per_day <= t2 - t2 mod us_per_day < last_hour
          ∧ hours_covered (t1 - t1 mod us_per_day) (t2 - t2 mod us_per_day)
            = 24 * (toordinal t2 - toordinal t1) + 1) as [Hin Hhours].
  { unfold hours_covered. rewrite !replace_is_floor.
    revert Hdays. unfold toordinal. destruct Hv1 as [? _], Hv2 as [? Hmax].
    revert Hmax. change max_value with (3652059 * 86400000000 - 1).
    change last_hour with (3652058 * 86400000000 + 23 * 3600000000).
    unfold us_per_day, us_per_hour, us_per_minute, us_per_second.
    intros Hmax Hdays. Z.div_mod_to_equations. lia. }
  destruct (main_cases (strftime_Ymd t1) (strftime_Ymd t2) output workers
              order net t_start t_end None w)
    as [(msg & Hs & _)|[(s & msg & Hs & He & _)
        |(s & e & Hs & He & _ & _ &
          [(Hlt & _)|[(Hle & Hlast & _)
           |[(Hin' & Hw' & _)
            |[(_ & _ & (k & Hk) & _)
             |(_ & _ & _ & summary & Hrun & _ & Htotal & _)]]]])]];
    rewrite ?H1, ?H2 in *; simplify_eq; try lia.
  exists summary. split; [done|]. by rewrite Htotal.
Qed.

Lemma main_whole_dates_witness :
  ∃ summary,
    (main (strftime_Ymd t10) (strftime_Ymd t12_30) sample_dir 10 []
       offline_pool 0 5 None empty_world).1 = inr (Some summary)
    ∧ total summary = 24 * (toordinal t12_30 - toordinal t10) + 1.
Proof.
  apply (main_whole_dates t10 t12_30 sample_dir 10 [] offline_pool 0 5
           empty_world);
    first [ vm_compute; reflexivity | vm_compute; discriminate
          | split; vm_compute; discriminate ].
Defined.

Section missing_targets.

Variables (urls : list string) (output_path : string).
Variable net : nat → Z → attempt_env.

Hypothesis targets_distinct : NoDup ((λ u, filepath u output_path) <$> urls).
Hypothesis targets_below :
  ∀ u, u ∈ urls → filepath u output_path ∉ ancestors output_path.

(** A task whose target is not in place when the pool starts finds it still
    missing when its turn comes, and asks for its URL. *)
Lemma run_tasks_requests_missing l : ∀ w i u,
  i ∈ l → urls !! i = Some u →
  path_exists (filepath u output_path) (fs w) = false →
  ∃ new,
    requests (log (run_tasks urls output_path net l w).2)
    = requests (log w) ++ new
    ∧ u ∈ new.
Proof.
  induction l as [|j l IH]; intros w i u Hi Hu Hmissing.
  { by apply elem_of_nil in Hi. }
  destruct (urls !! j) as [v|] eqn:Hv.
  - rewrite (run_tasks_cons urls output_path net j v) by done. cbn [snd].
    set (w1 := (download_file v output_path 3 (net j) w).2).
    destruct (decide (j = i)) as [->|Hji].
    + assert (v = u) as -> by congruence.
      destruct (run_tasks_requests urls output_path net l w1)
        as (new & -> & _). subst w1.
      destruct (download_file_log_cases u output_path 3 (net i) w)
        as [(_ & [Hex|?])|(k & _ & _ & _ & -> & _)]; [congruence | lia |].
      exists (replicate (S k) u ++ new). rewrite <- app_assoc.
      split; [done|]. cbn [replicate]. set_solver.
    + assert (i ∈ l) as Hil by set_solver.
      assert (path_exists (filepath u output_path) (fs w1) = false) as Hstill.
      { subst w1. rewrite path_exists_after_other; [done | |].
        - intros Heq. apply Hji.
          eapply (NoDup_lookup _ j i (filepath v output_path) targets_distinct);
            rewrite list_lookup_fmap; [by rewrite Hv | rewrite Hu; cbn; by rewrite Heq].
        - apply targets_below. by eapply list_elem_of_lookup_2. }
      destruct (IH w1 i u Hil Hu Hstill) as (new & -> & Hin). subst w1.
      destruct (download_file_log_cases v output_path 3 (net j) w)
        as [(-> & _)|(k & _ & _ & _ & -> & _)].
      * by exists new.
      * exists (replicate (S k) v ++ new). rewrite <- app_assoc.
        split; [done|]. set_solver.
  - rewrite (run_tasks_skip_index urls output_path net) by done.
    apply (IH w i u); [|done|done].
    apply elem_of_cons in Hi as [->|Hi]; [congruence|done].
Qed.

End missing_targets.

(** What a second run asks for again. *)
Lemma rerun_requests_missing start_dt end_dt output_path max_workers
    order1 order2 net1 net2 t1 t1' t2 t2' w s1 urls u :
  (download_archives start_dt end_dt output_path max_workers order1 net1
     t1 t1' w).1 = inr (Some s1) →
  valid start_dt → valid end_dt →
  generate_urls start_dt end_dt = inr urls → u ∈ urls.*1 →
  path_exists (filepath u output_path)
    (fs (download_archives start_dt end_dt output_path max_workers order1
           net1 t1 t1' w).2) = false →
  ∃ new,
    requests
      (log (download_archives start_dt end_dt output_path max_workers order2
              net2 t2 t2'
              (download_archives start_dt end_dt output_path max_workers
                 order1 net1 t1 t1' w).2).2)
    = requests
        (log (download_archives start_dt end_dt output_path max_workers
                order1 net1 t1 t1' w).2) ++ new
    ∧ u ∈ new.
Proof.
  intros Hrun1 Hvs Hve Hgen Hu Hmissing.
  set (w1 := (download_archives start_dt end_dt output_path max_workers
                order1 net1 t1 t1' w).2) in *.
  assert (0 < max_workers) as Hw.
  { destruct (download_archives_cases start_dt end_dt output_path max_workers
                order1 net1 t1 t1' w)
      as [(e & _ & Heq)|[(_ & Heq)|[(urls' & e & _ & _ & _ & Heq)
          |(urls' & s & _ & _ & Hw & _)]]];
      [rewrite Heq in Hrun1; done.. | done]. }
  destruct (download_archives_cases start_dt end_dt output_path max_workers
              order2 net2 t2 t2' w1)
    as [(e & Hgen2 & _)|[(Hgen2 & _)|[(urls2 & e & _ & _ & Hw2 & _)
        |(urls2 & s2 & Hgen2 & _ & _ & -> & _)]]]; [congruence | | lia |].
  { rewrite Hgen in Hgen2. injection Hgen2 as ->. by apply elem_of_nil in Hu. }
  assert (urls2 = urls) as -> by congruence. cbn [snd].
  destruct (generate_urls_NoDup start_dt end_dt output_path urls Hvs Hve Hgen)
    as (_ & _ & Hdistinct).
  apply list_elem_of_lookup_1 in Hu as [i Hi].
  destruct (run_tasks_requests_missing (map fst urls) output_path net2
              Hdistinct
              (λ v, generate_urls_targets_below start_dt end_dt output_path
                      urls v Hgen)
              (completion_order order2 (length urls))
              {| fs := fs w1; stats := Stats.init t2; log := log w1 |} i u)
    as (new & Hreq & Hin); [|done|done|by exists new].
  apply completion_order_elem. apply lookup_lt_Some in Hi.
  by rewrite length_map in Hi.
Qed.

(** * Running twice, in general *)

(** C1, as the code has it.  Run [download_archives] twice on the same
    range, output directory and worker count, the second run starting from
    the world the first one left, and let the first run print its
    statistics.  If it reported no failure, every target is in place, so in
    the second run every task takes the existence short-circuit, whatever
    the network would have answered and in whatever order the tasks
    complete: each result is the tuple (url, True, "Already exists: ...",
    0), the successes equal the total, there is no failure, the fresh
    tracker has received nothing, and neither the disk nor the log of
    requests and sleeps has changed.  And whether or not it reported
    failures, every item whose target is not on disk after the first run,
    as is an item that failed without leaving a file, is attempted again:
    the second run sends a request for its URL. *)
Theorem rerun_same_range start_dt end_dt output_path max_workers
    order1 order2 net1 net2 t1 t1' t2 t2' w s1 :
  let run1 :=
    download_archives start_dt end_dt output_path max_workers order1 net1
      t1 t1' w in
  let run2 :=
    download_archives start_dt end_dt output_path max_workers order2 net2
      t2 t2' run1.2 in
  let results2 :=
    pool_results start_dt end_dt output_path order2 net2 t2 run1.2 in
  run1.1 = inr (Some s1) →
  (failed s1 = 0 →
   ∃ s2, run2.1 = inr (Some s2)
     ∧ successful s2 = total s2
     ∧ failed s2 = 0
     ∧ total s2 = Z.of_nat (length results2)
     ∧ Forall (λ r, ∃ u, r = Some (u, true, "Already exists: " +:+ filename u, 0))
         results2
     ∧ sizes results2 = 0
     ∧ (total_downloaded s2 == 0)%Q
     ∧ run2.2 = {| fs := fs run1.2; stats := Stats.init t2; log := log run1.2 |})
  ∧ (valid start_dt → valid end_dt →
     ∀ urls u,
       generate_urls start_dt end_dt = inr urls → u ∈ urls.*1 →
       path_exists (filepath u output_path) (fs run1.2) = false →
       ∃ new, requests (log run2.2) = requests (log run1.2) ++ new
              ∧ u ∈ new).
Proof.
  intros run1 run2 results2 Hrun1. split.
  - intros Hfailed.
    apply (rerun_after_full_success start_dt end_dt output_path max_workers
             order1 order2 net1 net2 t1 t1' t2 t2' w).
    by exists s1.
  - intros Hvs Hve urls u Hgen Hu Hmissing.
    by apply (rerun_requests_missing start_dt end_dt output_path max_workers
                order1 order2 net1 net2 t1 t1' t2 t2' w s1 urls u).
Qed.

(** Three hours, the archive of 11 o'clock unreachable in the first run: the
    second run asks for it again. *)
Lemma rerun_same_range_witness :
  ∃ new,
    requests
      (log (download_archives t10 t12_30 sample_dir 10 [1%nat] served_pool 6 7
              (download_archives t10 t12_30 sample_dir 10 [2%nat]
                 eleven_down_pool 0 5 empty_world).2).2)
    = requests
        (log (download_archives t10 t12_30 sample_dir 10 [2%nat]
                eleven_down_pool 0 5 empty_world).2) ++ new
    ∧ "https://data.gharchive.org/2024-01-01-11.json.gz" ∈ new.
Proof.
  edestruct (rerun_same_range t10 t12_30 sample_dir 10 [2%nat] [1%nat]
               eleven_down_pool served_pool 0 5 6 7 empty_world)
    as [_ Hretry]; [vm_compute; reflexivity |].
  apply (Hretry ltac:(split; vm_compute; discriminate)
                ltac:(split; vm_compute; discriminate)
                (map work_item (buckets t10 3))).
  - vm_compute; reflexivity.
  - apply (list_elem_of_lookup_2 _ 1%nat). vm_compute; reflexivity.
  - vm_compute; reflexivity.
Defined.
